(** * calendar-api-db: event store, search-index synchronisation and query engine

    A shallow embedding of the Go sources [main.go] and [database.go] (and of
    the older copy of the listing endpoint that is kept beside them), together
    with the properties of the natural-language specification that can be
    settled on it.

    Layout:
    - Go integers and byte strings; [strconv], [strings]: the functions of the
      Go standard library the handlers call;
    - [Event], [DB]: the data model ([database.go]);
    - the FTS5 index with the three triggers of [InitDB], and the storage
      operations of gorm that fire them;
    - what the SQL text of the handlers asks of SQLite: strftime, LIKE, LOWER,
      TRIM, ORDER BY, LIMIT and OFFSET, the FTS5 query language, JSON;
    - the handlers of [main.go], its middleware and the API keys it reads
      at start-up;
    - reference notions in which the properties are stated;
    - properties of the specification, then further properties of the code.

    A handler is a function of the request parameters and of the variant
    [db] that [getDBInstance] selects; a handler that writes returns the new
    state of the variant with its response.  Of the failures of storage, the
    model has the ones a statement itself causes: an id that is taken or out
    of range, a table whose ids are used up, an update the table cannot take,
    a batch that is too large for one statement, a malformed full-text
    query, a statement SQLite does not accept.  A disk that is full or a
    file that is locked is not part of the model.                            *)

From Stdlib Require Import ZArith NArith String Ascii List Bool Lia.
From Stdlib Require Import Permutation Sorted.
From stdpp Require Import base option list sorting gmap strings.

Local Open Scope string_scope.
Local Open Scope Z_scope.

(* ===================================================================== *)
(** ** Go machine integers                                                *)
(* ===================================================================== *)

(** The service is built for a 64-bit target (the Dockerfile uses the stock
    golang image), so [int] and [uint] are 64 bits wide. *)

Definition MaxInt64 : Z := 2 ^ 63 - 1.
Definition MinInt64 : Z := - 2 ^ 63.
Definition MaxUint64 : Z := 2 ^ 64 - 1.

(** Two's-complement wrap-around of a signed 64-bit result. *)
Definition wrap64 (z : Z) : Z := (z + 2 ^ 63) mod 2 ^ 64 - 2 ^ 63.

Definition int_add (a b : Z) : Z := wrap64 (a + b).
Definition int_sub (a b : Z) : Z := wrap64 (a - b).
Definition int_mul (a b : Z) : Z := wrap64 (a * b).
(** Go's [/] on integers truncates toward zero. *)
Definition int_div (a b : Z) : Z := wrap64 (Z.quot a b).

Definition in_int64 (z : Z) : Prop := MinInt64 <= z <= MaxInt64.

(* ===================================================================== *)
(** ** Byte strings                                                       *)
(* ===================================================================== *)

(** A Go [string] is a sequence of bytes; so is a Rocq [string]. *)

(** The quotation mark (0x22) and strings built around it. *)
Definition dquote : ascii := ascii_of_N 34.
Definition quote_str : string := String dquote EmptyString.
Definition quoted (s : string) : string := quote_str +:+ s +:+ quote_str.

Definition byte_of (c : ascii) : Z := Z.of_N (N_of_ascii c).

Definition is_digit (c : ascii) : bool :=
  (48 <=? byte_of c) && (byte_of c <=? 57).

Definition is_upper (c : ascii) : bool :=
  (65 <=? byte_of c) && (byte_of c <=? 90).

(** ['A'..'Z'] to ['a'..'z'], every other byte unchanged. *)
Definition lower_byte (c : ascii) : ascii :=
  if is_upper c then ascii_of_N (N_of_ascii c + 32) else c.

Fixpoint map_bytes (f : ascii -> ascii) (s : string) : string :=
  match s with
  | EmptyString => EmptyString
  | String c s' => String (f c) (map_bytes f s')
  end.

Fixpoint all_bytes (p : ascii -> bool) (s : string) : bool :=
  match s with
  | EmptyString => true
  | String c s' => p c && all_bytes p s'
  end.

Fixpoint has_byte (p : ascii -> bool) (s : string) : bool :=
  match s with
  | EmptyString => false
  | String c s' => p c || has_byte p s'
  end.

Definition len (s : string) : Z := Z.of_nat (String.length s).

Definition str_eqb (a b : string) : bool := bool_decide (a = b).

(** [is_prefix p s]: [s] starts with [p]. *)
Fixpoint is_prefix (p s : string) : bool :=
  match p, s with
  | EmptyString, _ => true
  | String a p', String b s' => bool_decide (a = b) && is_prefix p' s'
  | String _ _, EmptyString => false
  end.

(** [is_substring p s]: [p] occurs somewhere in [s]. *)
Fixpoint is_substring (p s : string) : bool :=
  is_prefix p s ||
  match s with
  | EmptyString => false
  | String _ s' => is_substring p s'
  end.

(** Byte-wise (memcmp) order, the order of Go's [<] on strings and of
    SQLite's BINARY collation. *)
Fixpoint str_ltb (a b : string) : bool :=
  match a, b with
  | _, EmptyString => false
  | EmptyString, String _ _ => true
  | String x a', String y b' =>
      (byte_of x <? byte_of y) || ((byte_of x =? byte_of y) && str_ltb a' b')
  end.

(* ===================================================================== *)
(** ** package strconv                                                    *)
(* ===================================================================== *)

Module strconv.

(** The two error values of [*strconv.NumError]. *)
Inductive NumError := ErrSyntax | ErrRange.

Definition digit_val (c : ascii) : Z := byte_of c - 48.

(** The digit loop of [ParseUint] for base 10: bytes are consumed from the
    left and the first problem met decides the result.  [cutoff] is
    [maxUint64/10 + 1]; once [n] reaches it the next multiplication would
    leave 64 bits. *)
Fixpoint parseUint_loop (maxVal : Z) (s : string) (n : Z)
  : Z * option NumError :=
  match s with
  | EmptyString => (n, None)
  | String c s' =>
      if negb (is_digit c) then (0, Some ErrSyntax)
      else if (MaxUint64 / 10 + 1) <=? n then (maxVal, Some ErrRange)
      else
        let n1 := n * 10 + digit_val c in
        if maxVal <? n1 then (maxVal, Some ErrRange)
        else parseUint_loop maxVal s' n1
  end.

(** [strconv.ParseUint(s, 10, bitSize)]. *)
Definition ParseUint (s : string) (bitSize : Z) : Z * option NumError :=
  match s with
  | EmptyString => (0, Some ErrSyntax)
  | _ => parseUint_loop (2 ^ bitSize - 1) s 0
  end.

(** [strconv.ParseInt(s, 10, 64)]: an optional sign, then [ParseUint]. *)
Definition ParseInt (s : string) : Z * option NumError :=
  match s with
  | EmptyString => (0, Some ErrSyntax)
  | String c s' =>
      let neg := bool_decide (c = "-"%char) in
      let body := if bool_decide (c = "+"%char) || neg then s' else s in
      match ParseUint body 64 with
      | (_, Some ErrSyntax) => (0, Some ErrSyntax)
      | (un, _) =>
          if negb neg && (2 ^ 63 <=? un) then (MaxInt64, Some ErrRange)
          else if neg && (2 ^ 63 <? un) then (MinInt64, Some ErrRange)
          else (if neg then - un else un, None)
      end
  end.

(** [strconv.Atoi(s)]: its fast path for short inputs computes the same
    value as [ParseInt(s, 10, 0)], to which it falls back. *)
Definition Atoi (s : string) : Z * option NumError := ParseInt s.

End strconv.

(* ===================================================================== *)
(** ** package strings                                                    *)
(* ===================================================================== *)

Module strings.

(** [strings.ToLower] for ASCII text: the letters A to Z are lowered, every
    other byte is kept.  Go also maps the cased letters outside ASCII, which
    this function leaves as they are; a property that goes through it takes
    its text to be ASCII, or compares the result with ASCII text that no
    letter outside ASCII is mapped to. *)
Definition ToLower (s : string) : string := map_bytes lower_byte s.

Definition HasPrefix (s prefix : string) : bool := is_prefix prefix s.

(** [strings.ReplaceAll(s, old, new)] for a non-empty [old]: occurrences
    are replaced from the left and do not overlap.  [skip] counts the bytes
    of an occurrence that are still to be dropped. *)
Fixpoint replace_from (old new : string) (skip : nat) (s : string) : string :=
  match s with
  | EmptyString => EmptyString
  | String c s' =>
      match skip with
      | S k => replace_from old new k s'
      | O =>
          if is_prefix old s
          then new +:+ replace_from old new (Nat.pred (String.length old)) s'
          else String c (replace_from old new O s')
      end
  end.

Definition ReplaceAll (s old new : string) : string :=
  replace_from old new O s.

(** [strings.Split(s, sep)] for a separator of one byte: the pieces between
    the separators, in order, one more than there are separators (so the
    empty string has the one piece that is empty). *)
Fixpoint Split (s : string) (sep : ascii) : list string :=
  match s with
  | EmptyString => [EmptyString]
  | String c s' =>
      if bool_decide (c = sep) then EmptyString :: Split s' sep
      else match Split s' sep with
           | p :: ps => String c p :: ps
           | [] => [String c EmptyString]
           end
  end.

(** The white space [strings.TrimSpace] removes from ASCII text: tab, line
    feed, vertical tab, form feed, carriage return and space. *)
Definition is_ascii_space (c : ascii) : bool :=
  (byte_of c =? 32) || ((9 <=? byte_of c) && (byte_of c <=? 13)).

Fixpoint trim_space_left (s : string) : string :=
  match s with
  | EmptyString => EmptyString
  | String c s' => if is_ascii_space c then trim_space_left s' else s
  end.

Fixpoint trim_space_right (s : string) : string :=
  match s with
  | EmptyString => EmptyString
  | String c s' =>
      match trim_space_right s' with
      | EmptyString => if is_ascii_space c then EmptyString
                       else String c EmptyString
      | t => String c t
      end
  end.

(** [strings.TrimSpace] on ASCII text.  (On a byte from 0x80 up Go turns to
    the white space of Unicode; what is proved of [TrimSpace] below is
    stated for ASCII text.) *)
Definition TrimSpace (s : string) : string :=
  trim_space_right (trim_space_left s).

End strings.

(* ===================================================================== *)
(** ** package crypto/subtle                                              *)
(* ===================================================================== *)

Module subtle.

(** [ConstantTimeByteEq(x, y)]: [int((uint32(x^y) - 1) >> 31)]. *)
Definition ConstantTimeByteEq (x y : Z) : Z :=
  Z.shiftr ((Z.lxor x y - 1) mod 2 ^ 32) 31.

(** The loop [v |= x[i] ^ y[i]] over two slices of the same length. *)
Fixpoint or_of_xors (x y : string) (v : Z) : Z :=
  match x, y with
  | String a x', String b y' =>
      or_of_xors x' y' (Z.lor v (Z.lxor (byte_of a) (byte_of b)))
  | _, _ => v
  end.

(** [subtle.ConstantTimeCompare(x, y)]. *)
Definition ConstantTimeCompare (x y : string) : Z :=
  if negb (len x =? len y) then 0
  else ConstantTimeByteEq (or_of_xors x y 0) 0.

End subtle.

(* ===================================================================== *)
(** ** Data model ([database.go])                                         *)
(* ===================================================================== *)

(** [time.Time], reduced to what the service and its storage read from it.
    The instant: its calendar date and its time of day (in nanoseconds), both
    in UTC; this is what [IsZero] looks at and what the date functions of
    SQLite compute from a stored time.  And the text a date column holds for
    the time: the driver writes the wall clock of the time's own zone
    followed by the zone offset, an update writes the text of its body; this
    text is what [ORDER BY date] compares.  The zero value is January 1 of
    year 1, 00:00:00 UTC. *)
Record Time := mkTime {
  t_year : Z;
  t_month : Z;
  t_day : Z;
  t_nsec : Z;
  t_text : string
}.

#[global] Instance Time_eq_dec : EqDecision Time.
Proof. solve_decision. Defined.

Definition zeroTime : Time := mkTime 1 1 1 0 "0001-01-01 00:00:00+00:00".

(** [t.IsZero()]: the instant is the zero instant, in whatever zone the
    time is given. *)
Definition IsZero (t : Time) : bool :=
  (t_year t =? 1) && (t_month t =? 1) && (t_day t =? 1) && (t_nsec t =? 0).

(** [type Event struct].  [Rank] (a float64 in the source) carries the tag
    [gorm:"-"]: storage neither writes nor fills it, and no handler reads
    it. *)
Record Event := mkEvent {
  ID : N;
  Date : Time;
  Title : string;
  Description : string;
  Tags : string;
  Media : string;
  References : string;
  CreatedAt : Time;
  UpdatedAt : Time;
  Rank : Z
}.

#[global] Instance Event_eq_dec : EqDecision Event.
Proof. solve_decision. Defined.

(** One row of the FTS5 table [events_fts(title, description, tags)]. *)
Record FtsDoc := mkFtsDoc {
  fts_title : string;
  fts_description : string;
  fts_tags : string
}.

#[global] Instance FtsDoc_eq_dec : EqDecision FtsDoc.
Proof. solve_decision. Defined.

(** One language variant after [InitDB]: the table [events] keyed by its
    primary key ([id INTEGER PRIMARY KEY AUTOINCREMENT]), the AUTOINCREMENT
    counter of the table, and the full-text index.  The index is an inverted
    index over the texts handed to it; it is kept here by rowid, as the
    texts that were indexed for the rowid and have not been taken back. *)
Record DB := mkDB {
  events : gmap N Event;
  sqlite_sequence : N;
  events_fts : gmap N (list FtsDoc)
}.

Definition empty_db : DB := mkDB ∅ 0%N ∅.

(** The two handles [DB_EN] and [DB_RU] and their selection. *)
Record Handles := mkHandles { DB_EN : DB; DB_RU : DB }.

Definition getDBInstance (h : Handles) (langCode : string) : DB :=
  if str_eqb (strings.ToLower langCode) "ru" then DB_RU h else DB_EN h.

(** The rows of the table, in the order a scan delivers them (some fixed
    order; nothing below depends on which). *)
Definition rows (db : DB) : list Event := (map_to_list (events db)).*2.

(* ===================================================================== *)
(** ** The FTS5 index and the triggers of [InitDB]                        *)
(* ===================================================================== *)

Definition doc_of (e : Event) : FtsDoc :=
  mkFtsDoc (Title e) (Description e) (Tags e).

(** The texts the index holds for a rowid. *)
Definition indexed (rowid : N) (idx : gmap N (list FtsDoc)) : list FtsDoc :=
  default [] (idx !! rowid).

(** [INSERT INTO events_fts(rowid, title, description, tags) VALUES ...]:
    the text is added to what the index holds for the rowid. *)
Definition fts_insert (rowid : N) (d : FtsDoc) (idx : gmap N (list FtsDoc))
  : gmap N (list FtsDoc) := <[rowid := d :: indexed rowid idx]> idx.

Fixpoint remove_first (d : FtsDoc) (l : list FtsDoc) : list FtsDoc :=
  match l with
  | [] => []
  | x :: l' => if decide (x = d) then l' else x :: remove_first d l'
  end.

(** [INSERT INTO events_fts(events_fts, rowid, ...) VALUES ('delete', ...)]:
    the text supplied is taken back from what the index holds for the rowid;
    text that was indexed with other values stays behind. *)
Definition fts_delete (rowid : N) (d : FtsDoc) (idx : gmap N (list FtsDoc))
  : gmap N (list FtsDoc) :=
  match remove_first d (indexed rowid idx) with
  | [] => delete rowid idx
  | l => <[rowid := l]> idx
  end.

(** Trigger [events_after_insert]. *)
Definition events_after_insert (new : Event) (idx : gmap N (list FtsDoc)) :=
  fts_insert (ID new) (doc_of new) idx.

(** Trigger [events_after_delete]. *)
Definition events_after_delete (old : Event) (idx : gmap N (list FtsDoc)) :=
  fts_delete (ID old) (doc_of old) idx.

(** Trigger [events_after_update]: the old entry is deleted, then the new
    one inserted. *)
Definition events_after_update (old new : Event) (idx : gmap N (list FtsDoc)) :=
  fts_insert (ID new) (doc_of new) (fts_delete (ID old) (doc_of old) idx).

(* ===================================================================== *)
(** ** Storage operations (gorm on SQLite)                                *)
(* ===================================================================== *)

(** The errors of storage the handlers meet: gorm's [ErrRecordNotFound] and
    [ErrMissingWhereClause]; a primary key that is taken; a [uint] above
    [MaxInt64], which [database/sql] does not pass on to the driver;
    SQLITE_FULL, the answer of a table with AUTOINCREMENT once the rowid
    [MaxInt64] has been used; a statement SQLite refuses to prepare or to
    run. *)
Inductive DBError :=
  | ErrRecordNotFound
  | ErrMissingWhereClause
  | ErrUniqueConstraint
  | ErrOutOfRange
  | ErrFull
  | ErrStatement.

(** The largest rowid in use (0 for an empty table). *)
Definition max_rowid (t : gmap N Event) : N :=
  map_fold (fun k _ acc => N.max k acc) 0%N t.

(** The rowid AUTOINCREMENT hands out next. *)
Definition next_rowid (db : DB) : N :=
  N.succ (N.max (sqlite_sequence db) (max_rowid (events db))).

(** The row [db.Create] writes for [e]: a zero primary key is left to the
    table to assign, zero time stamps are set to the current time. *)
Definition stamped (now : Time) (id : N) (e : Event) : Event :=
  mkEvent id (Date e) (Title e) (Description e) (Tags e) (Media e)
          (References e)
          (if IsZero (CreatedAt e) then now else CreatedAt e)
          (if IsZero (UpdatedAt e) then now else UpdatedAt e)
          (Rank e).

(** The primary key of the row [db.Create] writes for [e]. *)
Definition create_id (e : Event) (db : DB) : N :=
  if bool_decide (ID e = 0%N) then next_rowid db else ID e.

(** [db.Create(&event)]: one INSERT, followed by its trigger.  A rowid is a
    signed 64-bit integer: the table has no id left to assign once
    [MaxInt64] has been used, and an id above [MaxInt64] cannot be stored. *)
Definition Create (now : Time) (e : Event) (db : DB) : DBError + (Event * DB) :=
  let id := create_id e db in
  if bool_decide (ID e = 0%N)
     && (MaxInt64 <=? Z.of_N (N.max (sqlite_sequence db) (max_rowid (events db))))
  then inl ErrFull
  else if MaxInt64 <? Z.of_N id then inl ErrOutOfRange
  else
    match events db !! id with
    | Some _ => inl ErrUniqueConstraint
    | None =>
        let row := stamped now id e in
        inr (row,
             mkDB (<[id := row]> (events db))
                  (N.max (sqlite_sequence db) id)
                  (events_after_insert row (events_fts db)))
    end.

(** SQLite refuses a statement that binds more parameters than the limit it
    was built with (SQLITE_MAX_VARIABLE_NUMBER).  The INSERT of a batch
    binds a parameter for every column of every record, so a batch can be
    too large for its statement: [batch_fits es] tells that the INSERT for
    the records [es] stays within the limit. *)
Class Limits := {
  batch_fits : list Event -> bool
}.

(** The parameters of the INSERT gorm builds for a slice: one for each of
    the eight columns other than [id] of every record, and one for the id of
    every record that names one. *)
Definition batch_parameters (es : list Event) : Z :=
  8 * Z.of_nat (length es)
  + Z.of_nat (length (filter (fun e => ID e <> 0%N) es)).

(** The limit examples are run with: 32766 parameters, the value SQLite is
    built with unless told otherwise. *)
#[global] Instance default_limits : Limits := {|
  batch_fits := fun es => batch_parameters es <=? 32766
|}.

(** The rows of one INSERT are inserted in order; either all of them are
    stored or none. *)
Fixpoint insert_all (now : Time) (es : list Event) (db : DB)
  : DBError + (list Event * DB) :=
  match es with
  | [] => inr ([], db)
  | e :: es' =>
      match Create now e db with
      | inl err => inl err
      | inr (row, db1) =>
          match insert_all now es' db1 with
          | inl err => inl err
          | inr (rs, db2) => inr (row :: rs, db2)
          end
      end
  end.

(** [db.Create(&events)] on a slice: one INSERT statement for all the
    records. *)
Definition CreateSlice `{Limits} (now : Time) (es : list Event) (db : DB)
  : DBError + (list Event * DB) :=
  if batch_fits es then insert_all now es db else inl ErrStatement.

(** [db.First(&event, id)]. *)
Definition First (id : N) (db : DB) : DBError + Event :=
  match events db !! id with
  | Some e => inr e
  | None => inl ErrRecordNotFound
  end.

(** [updateData], the JSON object of an update request read as
    [map[string]interface{}]: for every column of [events] the value the
    body gives it, if it names the column, and whether the body has a member
    the UPDATE statement cannot take (a name that is no column of the table,
    a value of a type its column does not take).  The primary key and the
    two time stamps are columns like the others.  An id is a natural number
    and the value of a time column a time here: a body that gives [id] a
    negative number, or a time column a text that is no time, is not
    represented. *)
Record UpdateData := mkUpdateData {
  u_id : option N;
  u_date : option Time;
  u_title : option string;
  u_description : option string;
  u_tags : option string;
  u_media : option string;
  u_references : option string;
  u_created_at : option Time;
  u_updated_at : option Time;
  u_other : bool
}.

(** The assignments of the UPDATE statement: the columns the body names, and
    [updated_at], which gorm sets to the current time unless the body names
    it. *)
Definition apply_update (now : Time) (u : UpdateData) (e : Event) : Event :=
  mkEvent (default (ID e) (u_id u))
          (default (Date e) (u_date u))
          (default (Title e) (u_title u))
          (default (Description e) (u_description u))
          (default (Tags e) (u_tags u))
          (default (Media e) (u_media u))
          (default (References e) (u_references u))
          (default (CreatedAt e) (u_created_at u))
          (default now (u_updated_at u))
          (Rank e).

(** [db.Model(&event).Updates(updateData)]: UPDATE ... SET ... WHERE id =
    event.ID, followed by its trigger on the row that was stored.  gorm takes
    the condition from the primary key of [event] and refuses to update
    without one, which is the case when that key is zero.  The row moves
    when the body gives it another id; the statement fails when that id is
    taken or is no rowid.  The AUTOINCREMENT counter is written by INSERT
    alone. *)
Definition Updates (now : Time) (event : Event) (u : UpdateData) (db : DB)
  : DBError + (Event * DB) :=
  if bool_decide (ID event = 0%N) then inl ErrMissingWhereClause
  else if u_other u then inl ErrStatement
  else
    match events db !! ID event with
    | None => inr (apply_update now u event, db)
    | Some old =>
        let new := apply_update now u old in
        if MaxInt64 <? Z.of_N (ID new) then inl ErrStatement
        else if bool_decide (ID new = ID event) then
          inr (apply_update now u event,
               mkDB (<[ID event := new]> (events db))
                    (sqlite_sequence db)
                    (events_after_update old new (events_fts db)))
        else
          match events db !! ID new with
          | Some _ => inl ErrUniqueConstraint
          | None =>
              inr (apply_update now u event,
                   mkDB (<[ID new := new]> (delete (ID event) (events db)))
                        (sqlite_sequence db)
                        (events_after_update old new (events_fts db)))
          end
    end.

(** [db.Delete(&Event{}, id)]: the new state and [RowsAffected]. *)
Definition Delete (id : N) (db : DB) : DB * Z :=
  match events db !! id with
  | None => (db, 0)
  | Some old =>
      (mkDB (delete id (events db))
            (sqlite_sequence db)
            (events_after_delete old (events_fts db)), 1)
  end.

(** A database file as [InitDB] finds it: the table [events] (empty when the
    file is new) and the index, which is absent in a file written before the
    index was introduced. *)
Record DBFile := mkDBFile {
  file_events : gmap N Event;
  file_sequence : N;
  file_fts : option (gmap N (list FtsDoc))
}.

(** [INSERT INTO events_fts(rowid, title, description, tags)
     SELECT id, title, description, tags FROM events]. *)
Definition backfill (t : gmap N Event) (idx : gmap N (list FtsDoc))
  : gmap N (list FtsDoc) :=
  map_fold (fun _ e acc => fts_insert (ID e) (doc_of e) acc) idx t.

(** [InitDB]: the index and its triggers are created when missing; [count]
    is the number of rows of [events]; the index is filled from the table
    when [count > 0 && ftsCount == 0].  [events_fts] is declared with
    [content='events']: it keeps no copy of the rows, and a statement over it
    that asks for no full-text match, as the count does, is answered from
    the table [events].  So [ftsCount] is the number of rows of [events],
    whatever the index holds. *)
Definition InitDB (f : DBFile) : DB :=
  let idx := default ∅ (file_fts f) in
  let count := Z.of_nat (size (file_events f)) in
  let ftsCount := Z.of_nat (size (file_events f)) in
  mkDB (file_events f) (file_sequence f)
       (if (0 <? count) && (ftsCount =? 0)
        then backfill (file_events f) idx
        else idx).


(* ===================================================================== *)
(** ** SQLite functions used in the SQL text of the handlers              *)
(* ===================================================================== *)

(** The last [w] decimal digits of [n], zero padded. *)
Fixpoint fixed_digits (w : nat) (n : Z) : string :=
  match w with
  | O => EmptyString
  | S w' =>
      fixed_digits w' (n / 10) +:+
      String (ascii_of_N (Z.to_N (48 + n mod 10))) EmptyString
  end.

(** [strftime('%Y', date)], [strftime('%m', date)], [strftime('%d', date)]:
    four, two and two digits; NULL ([None]) for a date outside the years
    0000 to 9999. *)
Definition date_ok (t : Time) : bool :=
  (0 <=? t_year t) && (t_year t <=? 9999).

Definition strftime_Y (t : Time) : option string :=
  if date_ok t then Some (fixed_digits 4 (t_year t)) else None.
Definition strftime_m (t : Time) : option string :=
  if date_ok t then Some (fixed_digits 2 (t_month t)) else None.
Definition strftime_d (t : Time) : option string :=
  if date_ok t then Some (fixed_digits 2 (t_day t)) else None.

(** [x = ?] for a nullable text [x]. *)
Definition sql_eq (x : option string) (v : string) : bool :=
  match x with
  | Some s => str_eqb s v
  | None => false
  end.

(** [LOWER(x)]: the ASCII letters are folded. *)
Definition sql_LOWER (s : string) : string := map_bytes lower_byte s.

(** [text LIKE pattern]: [%] stands for any run of characters, [_] for any
    one character, every other character for itself without regard to ASCII
    case.  (Characters are bytes here, as they are in ASCII text.) *)
Fixpoint sql_LIKE (pattern : string) : string -> bool :=
  match pattern with
  | EmptyString => fun s => str_eqb s EmptyString
  | String c p' =>
      if bool_decide (c = "%"%char) then
        fix any (s : string) : bool :=
          sql_LIKE p' s ||
          match s with
          | EmptyString => false
          | String _ s' => any s'
          end
      else if bool_decide (c = "_"%char) then
        fun s =>
          match s with
          | EmptyString => false
          | String _ s' => sql_LIKE p' s'
          end
      else
        fun s =>
          match s with
          | EmptyString => false
          | String d s' =>
              bool_decide (lower_byte c = lower_byte d) && sql_LIKE p' s'
          end
  end.

(** [ORDER BY]: any arrangement of the selected rows that respects the sort
    key is an admissible answer.  [leb a b] tells that [a] may stand before
    [b]. *)
Section Ordering.
Context {A : Type} (leb : A -> A -> bool).

Definition sql_ordered (l result : list A) : Prop :=
  Permutation l result /\ Sorted (fun a b => leb a b = true) result.

(** One such arrangement, to run examples with: a stable insertion sort. *)
Fixpoint insert_sorted (x : A) (l : list A) : list A :=
  match l with
  | [] => [x]
  | y :: l' => if leb x y then x :: l else y :: insert_sorted x l'
  end.

Definition order_by (l : list A) : list A := foldr insert_sorted [] l.
End Ordering.

(** Which arrangement SQLite returns among rows whose sort keys are equal is
    its own choice, and the choice may depend on the statement it runs, so
    on the LIMIT and the OFFSET.  [sql_order_by leb limit offset l] is the
    arrangement of the selected rows [l] from which a statement with these
    two values takes its rows. *)
Class OrderBy := {
  sql_order_by : forall A : Type, (A -> A -> bool) -> Z -> Z -> list A -> list A
}.
Arguments sql_order_by {_ _} _ _ _ _.

(** What SQL promises of the arrangement, for a sort key that compares any
    two rows. *)
Definition respects_order (O : OrderBy) : Prop :=
  forall (A : Type) (leb : A -> A -> bool) (limit offset : Z) (l : list A),
    (forall a b, leb a b = true \/ leb b a = true) ->
    sql_ordered leb l (sql_order_by leb limit offset l).

(** The arrangement examples are run with. *)
#[global] Instance insertion_order : OrderBy := {|
  sql_order_by := fun A leb _ _ l => order_by leb l
|}.

(** [LIMIT limit OFFSET offset]: a negative limit is no limit, a negative
    offset no offset. *)
Fixpoint skip_rows {A : Type} (n : Z) (l : list A) : list A :=
  match l with
  | [] => []
  | x :: l' => if n <=? 0 then l else skip_rows (n - 1) l'
  end.

Fixpoint first_rows {A : Type} (n : Z) (l : list A) : list A :=
  match l with
  | [] => []
  | x :: l' => if n <=? 0 then [] else x :: first_rows (n - 1) l'
  end.

Definition Limit_Offset {A : Type} (limit offset : Z) (l : list A) : list A :=
  let skipped := skip_rows offset l in
  if limit <? 0 then skipped else first_rows limit skipped.

(* ===================================================================== *)
(** ** The query language of FTS5                                         *)
(* ===================================================================== *)

(** The tokens of an FTS5 query, after the SQLite documentation: a string in
    quotation marks (a doubled quotation mark inside stands for one), a
    bareword, the keywords AND, OR and NOT, and the special bytes.  A
    bareword is a run of letters, digits, underscores, the byte 0x1A and
    bytes from 0x80 up; a byte that is none of these, no blank and no
    special byte is a syntax error. *)
Inductive Fts5Token :=
  | TString (s : string)
  | TBareword (s : string)
  | TAnd | TOr | TNot
  | TSpecial (c : ascii).

Definition is_bareword_byte (c : ascii) : bool :=
  let n := byte_of c in
  (128 <=? n) || ((65 <=? n) && (n <=? 90)) || ((97 <=? n) && (n <=? 122))
  || ((48 <=? n) && (n <=? 57)) || (n =? 95) || (n =? 26).

Definition is_fts5_space (c : ascii) : bool :=
  let n := byte_of c in (n =? 32) || (n =? 9) || (n =? 10) || (n =? 13).

(** The bytes ( ) { } : , + * - ^ *)
Definition is_fts5_special (c : ascii) : bool :=
  let n := byte_of c in
  (n =? 40) || (n =? 41) || (n =? 123) || (n =? 125) || (n =? 58)
  || (n =? 44) || (n =? 43) || (n =? 42) || (n =? 45) || (n =? 94).

Definition word_token (w : string) : Fts5Token :=
  if str_eqb w "AND" then TAnd
  else if str_eqb w "OR" then TOr
  else if str_eqb w "NOT" then TNot
  else TBareword w.

Inductive LexState :=
  | Idle
  | InWord (w : string)
  | InString (acc : string)
  | InStringQuote (acc : string).

Definition snoc (s : string) (c : ascii) : string := s +:+ String c EmptyString.

(** A byte met outside a word and outside a string. *)
Definition lex_idle (c : ascii) : option (list Fts5Token * LexState) :=
  if is_fts5_space c then Some ([], Idle)
  else if bool_decide (c = dquote) then Some ([], InString EmptyString)
  else if is_fts5_special c then Some ([TSpecial c], Idle)
  else if is_bareword_byte c then Some ([], InWord (String c EmptyString))
  else None.

Definition lex_step (st : LexState) (c : ascii)
  : option (list Fts5Token * LexState) :=
  match st with
  | Idle => lex_idle c
  | InWord w =>
      if is_bareword_byte c then Some ([], InWord (snoc w c))
      else match lex_idle c with
           | Some (ts, st') => Some (word_token w :: ts, st')
           | None => None
           end
  | InString acc =>
      if bool_decide (c = dquote) then Some ([], InStringQuote acc)
      else Some ([], InString (snoc acc c))
  | InStringQuote acc =>
      if bool_decide (c = dquote) then Some ([], InString (snoc acc dquote))
      else match lex_idle c with
           | Some (ts, st') => Some (TString acc :: ts, st')
           | None => None
           end
  end.

Fixpoint lex_from (st : LexState) (s : string) : option (list Fts5Token) :=
  match s with
  | EmptyString =>
      match st with
      | Idle => Some []
      | InWord w => Some [word_token w]
      | InString _ => None
      | InStringQuote acc => Some [TString acc]
      end
  | String c s' =>
      match lex_step st c with
      | None => None
      | Some (ts, st') =>
          match lex_from st' s' with
          | None => None
          | Some rest => Some (ts ++ rest)%list
          end
      end
  end.

(** The tokens of a query text; [None] is the syntax error of the lexer. *)
Definition fts5_tokens (query : string) : option (list Fts5Token) :=
  lex_from Idle query.

(** FTS5 receives the argument of MATCH as a C string: what it reads of the
    argument is the text up to the first NUL byte. *)
Fixpoint c_string (s : string) : string :=
  match s with
  | EmptyString => EmptyString
  | String c s' => if byte_of c =? 0 then EmptyString else String c (c_string s')
  end.

Definition fts5_reads (arg : string) : option (list Fts5Token) :=
  fts5_tokens (c_string arg).

(** The query reads as plain text: it has tokens, and all of them are
    strings or barewords. *)
Definition is_text_token (t : Fts5Token) : bool :=
  match t with
  | TString _ | TBareword _ => true
  | _ => false
  end.

Definition reads_as_text (query : string) : bool :=
  match fts5_tokens query with
  | Some ts => forallb is_text_token ts
  | None => false
  end.

(** The way FTS5 offers to pass text literally: the text in quotation marks,
    its own quotation marks doubled. *)
Definition fts5_string_literal (text : string) : string :=
  quoted (strings.ReplaceAll text quote_str (quote_str +:+ quote_str)).

(* ===================================================================== *)
(** ** JSON, as SQLite's JSON functions read it                           *)
(* ===================================================================== *)

(** A JSON value (RFC 8259).  A number keeps the text it was written with. *)
#[local] Unset Elimination Schemes.
Inductive JSON :=
  | JNull
  | JTrue
  | JFalse
  | JNumber (literal : string)
  | JString (s : string)
  | JArray (items : list JSON)
  | JObject (members : list (string * JSON)).
#[local] Set Elimination Schemes.

Definition is_json_ws (c : ascii) : bool :=
  let n := byte_of c in (n =? 32) || (n =? 9) || (n =? 10) || (n =? 13).

Fixpoint skip_ws (s : string) : string :=
  match s with
  | EmptyString => EmptyString
  | String c s' => if is_json_ws c then skip_ws s' else s
  end.

Definition hex_val (c : ascii) : option Z :=
  let n := byte_of c in
  if (48 <=? n) && (n <=? 57) then Some (n - 48)
  else if (65 <=? n) && (n <=? 70) then Some (n - 55)
  else if (97 <=? n) && (n <=? 102) then Some (n - 87)
  else None.

Definition byte_str (n : Z) : string := String (ascii_of_N (Z.to_N n)) EmptyString.

(** The UTF-8 form of a code point of the Basic Multilingual Plane. *)
Definition utf8 (cp : Z) : string :=
  if cp <? 128 then byte_str cp
  else if cp <? 2048 then
    byte_str (192 + cp / 64) +:+ byte_str (128 + cp mod 64)
  else
    byte_str (224 + cp / 4096) +:+ byte_str (128 + (cp / 64) mod 64)
    +:+ byte_str (128 + cp mod 64).

(** The byte an escape [\c] stands for. *)
Definition unescape (c : ascii) : option Z :=
  let n := byte_of c in
  if n =? 34 then Some 34          (* quotation mark *)
  else if n =? 92 then Some 92     (* reverse solidus *)
  else if n =? 47 then Some 47     (* solidus *)
  else if n =? 98 then Some 8      (* b *)
  else if n =? 102 then Some 12    (* f *)
  else if n =? 110 then Some 10    (* n *)
  else if n =? 114 then Some 13    (* r *)
  else if n =? 116 then Some 9     (* t *)
  else None.

(** The characters of a string after its opening quotation mark, up to the
    closing one; escapes are resolved, a raw control byte is an error. *)
Fixpoint parse_chars (s : string) (acc : string) : option (string * string) :=
  match s with
  | EmptyString => None
  | String c s' =>
      if byte_of c =? 34 then Some (acc, s')
      else if byte_of c =? 92 then
        match s' with
        | EmptyString => None
        | String e s'' =>
            if byte_of e =? 117 then
              match s'' with
              | String h1 (String h2 (String h3 (String h4 rest))) =>
                  match hex_val h1, hex_val h2, hex_val h3, hex_val h4 with
                  | Some a, Some b, Some c', Some d =>
                      parse_chars rest
                        (acc +:+ utf8 (((a * 16 + b) * 16 + c') * 16 + d))
                  | _, _, _, _ => None
                  end
              | _ => None
              end
            else
              match unescape e with
              | Some b => parse_chars s'' (acc +:+ byte_str b)
              | None => None
              end
        end
      else if byte_of c <? 32 then None
      else parse_chars s' (snoc acc c)
  end.

Fixpoint span_digits (s : string) : string * string :=
  match s with
  | EmptyString => (EmptyString, EmptyString)
  | String c s' =>
      if is_digit c then
        let '(d, r) := span_digits s' in (String c d, r)
      else (EmptyString, s)
  end.

Definition starts_with (n : Z) (s : string) : bool :=
  match s with
  | String c _ => byte_of c =? n
  | EmptyString => false
  end.

Definition str_tail (s : string) : string :=
  match s with
  | String _ s' => s'
  | EmptyString => EmptyString
  end.

(** [-? int frac? exp?] *)
Definition parse_number (s : string) : option (string * string) :=
  let sign := if starts_with 45 s then "-" else EmptyString in
  let s1 := if starts_with 45 s then str_tail s else s in
  let '(ip, s2) := span_digits s1 in
  if str_eqb ip EmptyString then None
  else if starts_with 48 ip && negb (str_eqb ip "0") then None
  else
    let frac :=
      if starts_with 46 s2 then
        let '(d, r) := span_digits (str_tail s2) in
        if str_eqb d EmptyString then None else Some ("." +:+ d, r)
      else Some (EmptyString, s2) in
    match frac with
    | None => None
    | Some (fp, s3) =>
        if starts_with 101 s3 || starts_with 69 s3 then
          let e := String.substring 0 1 s3 in
          let s4 := str_tail s3 in
          let esign :=
            if starts_with 43 s4 || starts_with 45 s4
            then String.substring 0 1 s4 else EmptyString in
          let s5 := if starts_with 43 s4 || starts_with 45 s4 then str_tail s4 else s4 in
          let '(d, r) := span_digits s5 in
          if str_eqb d EmptyString then None
          else Some (sign +:+ ip +:+ fp +:+ e +:+ esign +:+ d, r)
        else Some (sign +:+ ip +:+ fp, s3)
    end.

Fixpoint drop_bytes (n : nat) (s : string) : string :=
  match n, s with
  | S n', String _ s' => drop_bytes n' s'
  | _, _ => s
  end.

(** One value, and what follows it.  [fuel] bounds the nesting depth and
    [width] the number of items of one array or object. *)
Fixpoint parse_value (width fuel : nat) (s : string) : option (JSON * string) :=
  match fuel with
  | O => None
  | S fuel' =>
      let s0 := skip_ws s in
      if starts_with 34 s0 then
        match parse_chars (str_tail s0) EmptyString with
        | Some (str, rest) => Some (JString str, rest)
        | None => None
        end
      else if starts_with 91 s0 then
        if starts_with 93 (skip_ws (str_tail s0))
        then Some (JArray [], str_tail (skip_ws (str_tail s0)))
        else
          match
            (fix items (k : nat) (s : string) : option (list JSON * string) :=
               match k with
               | O => None
               | S k' =>
                   match parse_value width fuel' s with
                   | None => None
                   | Some (v, rest) =>
                       let r := skip_ws rest in
                       if starts_with 44 r then
                         match items k' (str_tail r) with
                         | Some (vs, r') => Some (v :: vs, r')
                         | None => None
                         end
                       else if starts_with 93 r then Some ([v], str_tail r)
                       else None
                   end
               end) width (str_tail s0)
          with
          | Some (vs, rest) => Some (JArray vs, rest)
          | None => None
          end
      else if starts_with 123 s0 then
        if starts_with 125 (skip_ws (str_tail s0))
        then Some (JObject [], str_tail (skip_ws (str_tail s0)))
        else
          match
            (fix members (k : nat) (s : string)
               : option (list (string * JSON) * string) :=
               match k with
               | O => None
               | S k' =>
                   let s1 := skip_ws s in
                   if starts_with 34 s1 then
                     match parse_chars (str_tail s1) EmptyString with
                     | None => None
                     | Some (key, rest) =>
                         let r0 := skip_ws rest in
                         if starts_with 58 r0 then
                           match parse_value width fuel' (str_tail r0) with
                           | None => None
                           | Some (v, rest') =>
                               let r := skip_ws rest' in
                               if starts_with 44 r then
                                 match members k' (str_tail r) with
                                 | Some (ms, r') => Some ((key, v) :: ms, r')
                                 | None => None
                                 end
                               else if starts_with 125 r
                                    then Some ([(key, v)], str_tail r)
                                    else None
                           end
                         else None
                     end
                   else None
               end) width (str_tail s0)
          with
          | Some (ms, rest) => Some (JObject ms, rest)
          | None => None
          end
      else if is_prefix "true" s0 then Some (JTrue, drop_bytes 4 s0)
      else if is_prefix "false" s0 then Some (JFalse, drop_bytes 5 s0)
      else if is_prefix "null" s0 then Some (JNull, drop_bytes 4 s0)
      else
        match parse_number s0 with
        | Some (lit, rest) => Some (JNumber lit, rest)
        | None => None
        end
  end.

(** A text is JSON when it is one value with nothing but blanks around it. *)
Definition json_parse (s : string) : option JSON :=
  match parse_value (S (String.length s)) (S (String.length s)) s with
  | Some (v, rest) =>
      if str_eqb (skip_ws rest) EmptyString then Some v else None
  | None => None
  end.

(** [json_valid(x) = 1] *)
Definition json_valid (s : string) : bool :=
  match json_parse s with Some _ => true | None => false end.

(** [json_type(x) = 'array'] *)
Definition json_type_is_array (s : string) : bool :=
  match json_parse s with Some (JArray _) => true | _ => false end.

(** [json_each(x)]: the elements of a top-level array. *)
Definition json_each (s : string) : list JSON :=
  match json_parse s with Some (JArray items) => items | _ => [] end.

(** The text SQLite gives for the two kinds of element whose rendering is
    not modelled here: a number (printed from its numeric value) and a
    nested array or object (printed as JSON). *)
Class Json1 := {
  json_number_text : string -> string;
  json_nested_text : JSON -> string
}.

(** [CAST(j.value AS TEXT)]; [None] is NULL, the value of a JSON null. *)
Definition value_text `{Json1} (v : JSON) : option string :=
  match v with
  | JNull => None
  | JTrue => Some "1"
  | JFalse => Some "0"
  | JNumber lit => Some (json_number_text lit)
  | JString s => Some s
  | JArray _ | JObject _ => Some (json_nested_text v)
  end.

(** [TRIM(x)]: spaces (0x20, and no other byte) are removed at both ends. *)
Definition is_space (c : ascii) : bool := byte_of c =? 32.

Fixpoint trim_left (s : string) : string :=
  match s with
  | EmptyString => EmptyString
  | String c s' => if is_space c then trim_left s' else s
  end.

Fixpoint trim_right (s : string) : string :=
  match s with
  | EmptyString => EmptyString
  | String c s' =>
      let t := trim_right s' in
      if is_space c && str_eqb t EmptyString then EmptyString else String c t
  end.

Definition sql_TRIM (s : string) : string := trim_right (trim_left s).

(* ===================================================================== *)
(** ** Responses                                                          *)
(* ===================================================================== *)

Definition StatusOK : Z := 200.
Definition StatusCreated : Z := 201.
Definition StatusBadRequest : Z := 400.
Definition StatusNotFound : Z := 404.
Definition StatusInternalServerError : Z := 500.

Record PaginationData := mkPaginationData {
  CurrentPage : Z;
  PerPage : Z;
  Total : Z;
  LastPage : Z
}.

Record TagInfo := mkTagInfo { Tag : string; Count : Z }.

(** The bodies the handlers send.  The data of [JSONTags] is a slice that
    may be nil, which JSON writes as [null]: [None]. *)
Inductive Response :=
  | JSONError (status : Z) (error : string)
  | JSONData (status : Z) (data : Event)
  | PaginatedEventsResponse (Events : list Event) (Pagination : PaginationData)
  | JSONTags (data : option (list TagInfo))
  | JSONBatch (events_added : Z)
  | NoContent.

(** Errors the specification calls ValidationError and NotFoundError. *)
Definition is_validation_error (r : Response) : bool :=
  match r with
  | JSONError st _ => st =? StatusBadRequest
  | _ => false
  end.

Definition is_not_found (r : Response) : bool :=
  match r with
  | JSONError st _ => st =? StatusNotFound
  | _ => false
  end.

(** The page arithmetic shared by the three listing handlers. *)
Definition page_offset (page limit : Z) : Z := int_mul (int_sub page 1) limit.

Definition total_pages (totalEvents limit : Z) : Z :=
  int_div (int_sub (int_add totalEvents limit) 1) limit.

(** [page, err := strconv.Atoi(s); if err != nil || page < 1 { page = dflt }] *)
Definition atoi_or (dflt : Z) (s : string) : Z :=
  match strconv.Atoi s with
  | (n, None) => if n <? 1 then dflt else n
  | (_, Some _) => dflt
  end.

(** [page, _ := strconv.Atoi(s); if page < 1 { page = dflt }] *)
Definition atoi_unchecked_or (dflt : Z) (s : string) : Z :=
  let n := fst (strconv.Atoi s) in
  if n <? 1 then dflt else n.

(** [ORDER BY date desc] compares the text the column holds, byte by byte:
    [a] may stand before [b] when its text is not below that of [b]. *)
Definition date_desc (a b : Event) : bool :=
  negb (str_ltb (t_text (Date a)) (t_text (Date b))).

(* ===================================================================== *)
(** ** Handlers ([main.go])                                               *)
(* ===================================================================== *)

(** [getEventHandler]. *)
Definition getEventHandler (id : string) (db : DB) : Response :=
  if str_eqb id EmptyString then
    JSONError StatusBadRequest "Event ID is required"
  else
    match strconv.ParseUint id 32 with
    | (_, Some _) => JSONError StatusBadRequest "Invalid Event ID format"
    | (eventID, None) =>
        match First (Z.to_N eventID) db with
        | inl _ => JSONError StatusNotFound "Event not found"
        | inr event => JSONData StatusOK event
        end
    end.

(** [createEventHandler]; [body] is what [c.BodyParser(&event)] yields. *)
Definition createEventHandler (now : Time) (body : option Event) (db : DB)
  : Response * DB :=
  match body with
  | None => (JSONError StatusBadRequest "Cannot parse JSON", db)
  | Some event =>
      if str_eqb (Title event) EmptyString || IsZero (Date event) then
        (JSONError StatusBadRequest "Title and Date are required fields", db)
      else
        match Create now event db with
        | inl _ =>
            (JSONError StatusInternalServerError "Failed to create event", db)
        | inr (event', db') => (JSONData StatusCreated event', db')
        end
  end.

(** [updateEventHandler]; [body] is what [c.BodyParser(&updateData)]
    yields. *)
Definition updateEventHandler (now : Time) (id : string)
    (body : option UpdateData) (db : DB) : Response * DB :=
  match strconv.ParseUint id 32 with
  | (_, Some _) => (JSONError StatusBadRequest "Invalid Event ID", db)
  | (eventID, None) =>
      match First (Z.to_N eventID) db with
      | inl _ => (JSONError StatusNotFound "Event not found", db)
      | inr event =>
          match body with
          | None => (JSONError StatusBadRequest "Cannot parse JSON", db)
          | Some updateData =>
              match Updates now event updateData db with
              | inl _ =>
                  (JSONError StatusInternalServerError
                             "Failed to update event", db)
              | inr (event', db') => (JSONData StatusOK event', db')
              end
          end
      end
  end.

(** [deleteEventHandler]. *)
Definition deleteEventHandler (id : string) (db : DB) : Response * DB :=
  match strconv.ParseUint id 32 with
  | (_, Some _) => (JSONError StatusBadRequest "Invalid Event ID", db)
  | (eventID, None) =>
      let '(db', rowsAffected) := Delete (Z.to_N eventID) db in
      if rowsAffected =? 0 then (JSONError StatusNotFound "Event not found", db')
      else (NoContent, db')
  end.

(** [batchCreateEventsHandler]. *)
Definition batchCreateEventsHandler `{Limits}
    (now : Time) (body : option (list Event)) (db : DB) : Response * DB :=
  match body with
  | None => (JSONError StatusBadRequest "Cannot parse JSON", db)
  | Some evs =>
      if Z.of_nat (length evs) =? 0 then
        (JSONError StatusBadRequest "No events provided in the batch", db)
      else
        match CreateSlice now evs db with
        | inl _ =>
            (JSONError StatusInternalServerError
                       "Failed to create events in batch", db)
        | inr (stored, db') => (JSONBatch (Z.of_nat (length stored)), db')
        end
  end.

(** [c.Query(key, defaultValue)]: the default stands in for a parameter that
    is absent or empty. *)
Definition Query (raw dflt : string) : string :=
  if str_eqb raw EmptyString then dflt else raw.

(** The rows selected by a conjunction of WHERE conditions. *)
Definition select_where (conds : list (Event -> bool)) (db : DB) : list Event :=
  List.filter (fun e => forallb (fun c => c e) conds) (rows db).

(** Single-digit month and day values are padded as [main.go] does it. *)
Definition pad1 (s : string) : string :=
  if len s =? 1 then "0" +:+ s else s.

Definition year_cond (yearStr : string) : Event -> bool :=
  fun e => sql_eq (strftime_Y (Date e)) yearStr.
Definition month_cond (monthStr : string) : Event -> bool :=
  fun e => sql_eq (strftime_m (Date e)) monthStr.
Definition day_cond (dayStr : string) : Event -> bool :=
  fun e => sql_eq (strftime_d (Date e)) dayStr.

(** [getAllEventsHandler] of [main.go]. *)
Definition getAllEventsHandler `{OrderBy}
    (pageRaw limitRaw yearStr monthStr dayStr : string) (db : DB) : Response :=
  let pageStr := Query pageRaw "1" in
  let limitStr := Query limitRaw "20" in
  let page := atoi_unchecked_or 1 pageStr in
  let limit := atoi_unchecked_or 20 limitStr in
  let offset := page_offset page limit in
  let conds :=
    ((if str_eqb yearStr EmptyString then [] else [year_cond yearStr]) ++
     (if str_eqb monthStr EmptyString then [] else [month_cond (pad1 monthStr)]) ++
     (if str_eqb dayStr EmptyString then [] else [day_cond (pad1 dayStr)]))%list in
  let matching := select_where conds db in
  let totalEvents := Z.of_nat (length matching) in
  let events :=
    Limit_Offset limit offset (sql_order_by date_desc limit offset matching) in
  let totalPages := total_pages totalEvents limit in
  PaginatedEventsResponse events
    (mkPaginationData page limit totalEvents totalPages).

(** The handler registered inline for [GET /api/events] in the older copy of
    [main.go]; it checks the three date parameters before using them. *)
Definition checked_year (yearStr : string) : list (Event -> bool) :=
  if str_eqb yearStr EmptyString then []
  else match strconv.Atoi yearStr with
       | (_, None) => [year_cond yearStr]
       | (_, Some _) => []
       end.

Definition checked_component (lo hi : Z) (cond : string -> Event -> bool)
    (s : string) : list (Event -> bool) :=
  if str_eqb s EmptyString then []
  else match strconv.Atoi s with
       | (n, None) =>
           if (lo <=? n) && (n <=? hi) then
             let formatted :=
               if (n <? 10) && negb (strings.HasPrefix s "0")
               then "0" +:+ s else s in
             [cond formatted]
           else []
       | (_, Some _) => []
       end.

Definition listEventsInline `{OrderBy}
    (pageRaw limitRaw yearStr monthStr dayStr : string) (db : DB) : Response :=
  let pageStr := Query pageRaw "1" in
  let limitStr := Query limitRaw "20" in
  let page := atoi_or 1 pageStr in
  let limit := atoi_or 20 limitStr in
  let offset := page_offset page limit in
  let conds :=
    (checked_year yearStr ++
     checked_component 1 12 month_cond monthStr ++
     checked_component 1 31 day_cond dayStr)%list in
  let matching := select_where conds db in
  let totalEvents := Z.of_nat (length matching) in
  let events :=
    Limit_Offset limit offset (sql_order_by date_desc limit offset matching) in
  let totalPages := if 0 <? limit then total_pages totalEvents limit else 0 in
  PaginatedEventsResponse events
    (mkPaginationData page limit totalEvents totalPages).

(** [getEventsByTagHandler]. *)
Definition tag_search_term (tagParam : string) : string :=
  "%" +:+ quoted (strings.ToLower tagParam) +:+ "%".

Definition tag_cond (searchTerm : string) : Event -> bool :=
  fun e => sql_LIKE searchTerm (sql_LOWER (Tags e)).

Definition getEventsByTagHandler `{OrderBy}
    (tagParam pageRaw limitRaw : string) (db : DB) : Response :=
  let pageStr := Query pageRaw "1" in
  let limitStr := Query limitRaw "20" in
  if str_eqb tagParam EmptyString then
    JSONError StatusBadRequest "Tag parameter is required"
  else
    let page := atoi_or 1 pageStr in
    let limit := atoi_or 20 limitStr in
    let offset := page_offset page limit in
    let searchTerm := tag_search_term tagParam in
    let matching := select_where [tag_cond searchTerm] db in
    let totalEvents := Z.of_nat (length matching) in
    let events :=
      Limit_Offset limit offset
                   (sql_order_by date_desc limit offset matching) in
    let totalPages := total_pages totalEvents limit in
    PaginatedEventsResponse events
      (mkPaginationData page limit totalEvents totalPages).

(** *** Full-text search *)

(** What the service asks of SQLite's FTS5 module: whether a MATCH argument
    is a well-formed query, which indexed texts it matches, and the [rank]
    column (smaller is better).  The rank of a row may depend on the whole
    index. *)
Class Fts5 := {
  fts5_wellformed : string -> bool;
  fts5_match : string -> FtsDoc -> bool;
  fts5_rank : string -> gmap N (list FtsDoc) -> N -> Z
}.

(** The line under [// Sanitize FTS query]: [strings.ReplaceAll] doubles
    every quotation mark of the query. *)
Definition sanitizedQuery (query : string) : string :=
  strings.ReplaceAll query quote_str (quote_str +:+ quote_str).

(** The names the search statement selects from [events]; it writes each
    of them after [e.] and without quotation marks. *)
Definition searchSQL_columns : list string :=
  ["id"; "date"; "title"; "description"; "tags"; "media"; "references"].

(** REFERENCES is a keyword of SQLite's grammar, in any case of its letters,
    and a keyword that is not quoted is not read as a name.  (None of the
    other names the statements of the service use is one.) *)
Definition is_sqlite_keyword (name : string) : bool :=
  str_eqb (strings.ToLower name) "references".

(** A statement is prepared before it is run; one that has a keyword where
    a column name is due is refused then, as a syntax error. *)
Definition prepares (columns : list string) : bool :=
  forallb (fun name => negb (is_sqlite_keyword name)) columns.

Section Search.
Context `{engine : Fts5} `{O : OrderBy}.

(** [FROM events e JOIN events_fts fts ON e.id = fts.rowid
     WHERE events_fts MATCH ?]: the rows of the table for whose rowid the
    index holds text that the query matches. *)
Definition fts_join (q : string) (db : DB) : list Event :=
  List.filter
    (fun e => existsb (fts5_match q) (indexed (ID e) (events_fts db)))
    (rows db).

Definition by_rank (q : string) (db : DB) (a b : Event) : bool :=
  fts5_rank q (events_fts db) (ID a) <=? fts5_rank q (events_fts db) (ID b).

(** The columns the search statement selects, scanned into [Event]:
    [created_at] and [updated_at] are not among them and [Rank] is not a
    column gorm fills. *)
Definition scan_search_row (e : Event) : Event :=
  mkEvent (ID e) (Date e) (Title e) (Description e) (Tags e) (Media e)
          (References e) zeroTime zeroTime 0.

(** [ftsSearchHandler]: the count statement runs first, then the search
    statement, which has to be prepared before it can return a row. *)
Definition ftsSearchHandler (query pageRaw limitRaw : string) (db : DB)
  : Response :=
  let pageStr := Query pageRaw "1" in
  let limitStr := Query limitRaw "20" in
  if str_eqb query EmptyString then
    JSONError StatusBadRequest "Search query is required"
  else
    let page := atoi_or 1 pageStr in
    let limit := atoi_or 20 limitStr in
    let offset := page_offset page limit in
    let sanitized := sanitizedQuery query in
    if negb (fts5_wellformed sanitized) then
      JSONError StatusInternalServerError "Failed to count search results"
    else
      let matching := fts_join sanitized db in
      let totalEvents := Z.of_nat (length matching) in
      if negb (prepares searchSQL_columns) then
        JSONError StatusInternalServerError "Failed to execute search"
      else
        let events :=
          map scan_search_row
              (Limit_Offset limit offset
                 (sql_order_by (by_rank sanitized db) limit offset matching)) in
        let totalPages := total_pages totalEvents limit in
        PaginatedEventsResponse events
          (mkPaginationData page limit totalEvents totalPages).
End Search.

(** *** [getTagsHandler] *)

(** The WHERE conditions on the row: [e.tags != ''], [e.tags != '[]'],
    [json_valid(e.tags) = 1], [json_type(e.tags) = 'array'].  ([e.tags IS NOT
    NULL] always holds: gorm writes a Go string, never NULL.) *)
Definition tags_row_ok (tags : string) : bool :=
  negb (str_eqb tags EmptyString) && negb (str_eqb tags "[]")
  && json_valid tags && json_type_is_array tags.

(** The conditions on the element, and the selected [LOWER(j.value)]. *)
Definition tag_of_element `{Json1} (v : JSON) : option string :=
  match value_text v with
  | None => None
  | Some t =>
      if str_eqb (sql_TRIM t) EmptyString then None else Some (sql_LOWER t)
  end.

Definition row_tags `{Json1} (tags : string) : list string :=
  if tags_row_ok tags then omap tag_of_element (json_each tags) else [].

Definition tag_entries `{Json1} (db : DB) : list string :=
  flat_map (fun e => row_tags (Tags e)) (rows db).

(** [GROUP BY LOWER(j.value)] with [COUNT( * )], [ORDER BY tag ASC]: the
    groups are kept in ascending order of the tag. *)
Fixpoint count_insert (tag : string) (l : list TagInfo) : list TagInfo :=
  match l with
  | [] => [mkTagInfo tag 1]
  | ti :: l' =>
      if str_eqb tag (Tag ti) then mkTagInfo tag (Count ti + 1) :: l'
      else if str_ltb tag (Tag ti) then mkTagInfo tag 1 :: l
      else ti :: count_insert tag l'
  end.

Definition group_count (entries : list string) : list TagInfo :=
  foldr count_insert [] entries.

(** The text of [sqlQuery] does not end with the semicolon of its SELECT: a
    comment follows it on the same line.  The driver takes what follows the
    semicolon of a statement for the next statement of the text, and [Scan]
    receives the rows of the last one; text that is a comment and nothing
    else holds no statement. *)
Inductive SqlTail := NoTail | CommentTail.

Definition sqlQuery_tail : SqlTail := CommentTail.

(** What the driver in use does with a last statement that is empty: it
    delivers no row and no error, or it does not come back. *)
Class Driver := {
  empty_statement_returns : bool
}.

(** [getTagsHandler].  [None]: the request is not answered.  The rows of
    the SELECT are closed unread when the driver goes on to the text after
    it, and [result] stays the nil slice it was declared as. *)
Definition getTagsHandler `{Json1} `{Driver} (db : DB) : option Response :=
  let selected := group_count (tag_entries db) in
  match sqlQuery_tail with
  | NoTail => Some (JSONTags (Some selected))
  | CommentTail =>
      if empty_statement_returns then Some (JSONTags None) else None
  end.


(* ===================================================================== *)
(** ** Authentication and the API keys ([main.go])                        *)
(* ===================================================================== *)

Definition StatusUnauthorized : Z := 401.

(** The loop of [authMiddleware] over [validAPIKeys]. *)
Fixpoint key_matches (providedKeyBytes : string) (keys : list string) : bool :=
  match keys with
  | [] => false
  | expectedKey :: keys' =>
      if subtle.ConstantTimeCompare providedKeyBytes expectedKey =? 1 then true
      else key_matches providedKeyBytes keys'
  end.

(** [authMiddleware]; [providedKey] is [c.Get("X-API-KEY")], which is empty
    when the request has no such header.  [None] is [c.Next()]: the request
    goes on to its handler. *)
Definition authMiddleware (validAPIKeys : list string) (providedKey : string)
  : option Response :=
  if str_eqb providedKey EmptyString then
    Some (JSONError StatusUnauthorized "API key required")
  else if key_matches providedKey validAPIKeys then None
  else Some (JSONError StatusUnauthorized "Invalid API key").

(** [app.Group("/api", authMiddleware)]: every route of the API runs its
    handler behind the middleware. *)
Definition api (validAPIKeys : list string) (providedKey : string)
    (handler : DB -> Response * DB) (db : DB) : Response * DB :=
  match authMiddleware validAPIKeys providedKey with
  | Some r => (r, db)
  | None => handler db
  end.

(** The API-key set-up of [main]: [apiKeysStr] is [os.Getenv("API_KEYS")];
    [inl] is [log.Fatal] with its message, [inr] the keys [validAPIKeys]
    holds when the server starts. *)
Definition api_keys_setup (apiKeysStr : string) : string + list string :=
  if str_eqb apiKeysStr EmptyString then
    inl "API_KEYS environment variable is not set. Authentication is required."
  else
    let keys := strings.Split apiKeysStr ","%char in
    if (Z.of_nat (length keys) =? 0)
       || ((Z.of_nat (length keys) =? 1)
           && str_eqb (hd EmptyString keys) EmptyString)
    then inl "API_KEYS environment variable is empty or not properly formatted (comma-separated)."
    else
      let validAPIKeys :=
        foldl (fun acc k =>
                 let trimmedKey := strings.TrimSpace k in
                 if negb (str_eqb trimmedKey EmptyString)
                 then (acc ++ [trimmedKey])%list else acc)
              [] keys in
      if Z.of_nat (length validAPIKeys) =? 0 then
        inl "No valid API keys found after parsing API_KEYS. Please check the format."
      else inr validAPIKeys.


(* ===================================================================== *)
(** ** Reference notions the properties are stated with                   *)
(* ===================================================================== *)

(** *** Decimal literals *)

(** The value of a run of decimal digits read after the prefix value [n]. *)
Fixpoint dec_acc (s : string) (n : Z) : Z :=
  match s with
  | EmptyString => n
  | String c s' => dec_acc s' (n * 10 + strconv.digit_val c)
  end.

Definition decimal_value (s : string) : Z := dec_acc s 0.

(** A non-empty run of decimal digits: no sign, no blank, no other byte. *)
Definition is_uint_literal (s : string) : bool :=
  negb (str_eqb s EmptyString) && all_bytes is_digit s.


(** *** Table and index *)

(** The number of ids the table can still assign. *)
Definition ids_left (db : DB) : Z :=
  MaxInt64 - Z.of_N (N.max (sqlite_sequence db) (max_rowid (events db))).

(** Every row is stored under its own primary key. *)
Definition rows_keyed (t : gmap N Event) : Prop :=
  forall k e, t !! k = Some e -> ID e = k.

(** The index that reflects a table: for every row, and for no other rowid,
    the title, description and tags the row has now, and nothing else. *)
Definition index_of (t : gmap N Event) : gmap N (list FtsDoc) :=
  (fun e => [doc_of e]) <$> t.

Definition db_synced (db : DB) : Prop :=
  rows_keyed (events db) /\ events_fts db = index_of (events db).

(** The write requests of the API and their effect on one variant. *)
Inductive Request :=
  | CreateEvent (now : Time) (body : Event)
  | UpdateEvent (now : Time) (id : string) (body : UpdateData)
  | DeleteEvent (id : string)
  | BatchCreateEvents (now : Time) (body : list Event).

Definition serve `{Limits} (r : Request) (db : DB) : Response * DB :=
  match r with
  | CreateEvent now body => createEventHandler now (Some body) db
  | UpdateEvent now id body => updateEventHandler now id (Some body) db
  | DeleteEvent id => deleteEventHandler id db
  | BatchCreateEvents now body => batchCreateEventsHandler now (Some body) db
  end.

Definition serve_all `{Limits} (rs : list Request) (db : DB) : DB :=
  foldl (fun d r => snd (serve r d)) db rs.

(** *** An engine to run examples with *)

(** A query matches a text when it occurs in one of the three indexed
    columns; the rank of a row is minus the number of columns it occurs in. *)
Definition occurs (q s : string) : Z := if is_substring q s then 1 else 0.

Definition score (q : string) (d : FtsDoc) : Z :=
  occurs q (fts_title d) + occurs q (fts_description d) + occurs q (fts_tags d).

Definition example_engine : Fts5 := {|
  fts5_wellformed := fun _ => true;
  fts5_match := fun q d => 0 <? score q d;
  fts5_rank := fun q idx rowid =>
    - foldr Z.add 0 (map (score q) (indexed rowid idx))
|}.

(** *** Data for examples *)

(** Midnight UTC of a calendar day, with the text the driver writes for
    it. *)
Definition day (y m d : Z) : Time :=
  mkTime y m d 0
         (fixed_digits 4 y +:+ "-" +:+ fixed_digits 2 m +:+ "-"
          +:+ fixed_digits 2 d +:+ " 00:00:00+00:00").

Definition now0 : Time :=
  mkTime 2025 5 26 61000000000 "2025-05-26 00:01:01+00:00".

(** A request body that sets the date, the title and the tags. *)
Definition new_event (date : Time) (title tags : string) : Event :=
  mkEvent 0 date title EmptyString tags EmptyString EmptyString
          zeroTime zeroTime 0.

Definition pizza_day : Event :=
  new_event (day 2010 5 22) "Pizza Day"
            ("[" +:+ quoted "first" +:+ "," +:+ quoted "adoption" +:+ "]").

(** Update bodies that name the title, and the id. *)
Definition retitle (title : string) : UpdateData :=
  mkUpdateData None None (Some title) None None None None None None false.

Definition renumber (id : N) : UpdateData :=
  mkUpdateData (Some id) None None None None None None None None false.

(** *** Integer literals *)

(** An optional sign followed by a non-empty run of decimal digits. *)
Definition is_int_literal (s : string) : bool :=
  match s with
  | EmptyString => false
  | String c s' =>
      if bool_decide (c = "+"%char) || bool_decide (c = "-"%char)
      then is_uint_literal s' else is_uint_literal s
  end.

Definition int_value (s : string) : Z :=
  match s with
  | EmptyString => 0
  | String c s' =>
      if bool_decide (c = "-"%char) then - decimal_value s'
      else if bool_decide (c = "+"%char) then decimal_value s'
      else decimal_value s
  end.

(** The unsigned part of a signed literal and its sign. *)
Definition literal_body (s : string) : string :=
  match s with
  | EmptyString => EmptyString
  | String c s' =>
      if bool_decide (c = "+"%char) || bool_decide (c = "-"%char) then s' else s
  end.

Definition literal_neg (s : string) : bool :=
  match s with
  | EmptyString => false
  | String c _ => bool_decide (c = "-"%char)
  end.

(** *** Pagination *)

(** The ceiling of [a / b] for a positive [b]. *)
Definition ceil_div (a b : Z) : Z := - ((- a) / b).

(** The parameters after coercion, as the three listing handlers compute
    them: [checked] is the form that looks at the error of [Atoi]. *)
Definition page_checked (raw : string) : Z := atoi_or 1 (Query raw "1").
Definition limit_checked (raw : string) : Z := atoi_or 20 (Query raw "20").
Definition page_unchecked (raw : string) : Z :=
  atoi_unchecked_or 1 (Query raw "1").
Definition limit_unchecked (raw : string) : Z :=
  atoi_unchecked_or 20 (Query raw "20").

(** The WHERE conditions of the two listing handlers. *)
Definition date_conds (yearStr monthStr dayStr : string) : list (Event -> bool) :=
  ((if str_eqb yearStr EmptyString then [] else [year_cond yearStr]) ++
   (if str_eqb monthStr EmptyString then [] else [month_cond (pad1 monthStr)]) ++
   (if str_eqb dayStr EmptyString then [] else [day_cond (pad1 dayStr)]))%list.


(** A complete ordered result of a listing or tag request that selects the
    rows [selected]: an arrangement of these rows in descending order of the
    date. *)
Definition complete_result (selected full : list Event) : Prop :=
  sql_ordered date_desc selected full.




(** What coercion of a page or page-size parameter amounts to.  [checked]
    tells whether the handler looks at the error of [Atoi]. *)
Definition coerces (f : string -> Z) (dflt : Z) (checked : bool) : Prop :=
  f EmptyString = dflt /\
  (forall raw,
      is_int_literal raw = true ->
      MinInt64 <= int_value raw <= MaxInt64 ->
      f raw = if int_value raw <? 1 then dflt else int_value raw) /\
  (forall raw,
      is_int_literal raw = false -> (String.length raw <= 19)%nat ->
      f raw = dflt) /\
  (forall raw, (strconv.Atoi raw).2 = Some strconv.ErrSyntax -> f raw = dflt) /\
  (checked = true ->
     forall raw, (strconv.Atoi raw).2 <> None -> f raw = dflt) /\
  (forall raw, 1 <= f raw <= MaxInt64).

(** One stored event, for examples. *)
Definition db_pizza : DB := serve_all [CreateEvent now0 pizza_day] empty_db.

(** *** Date filters *)

(** A filter value in the words of the specification: it parses as a number
    and lies in the given range. *)
Definition parses_in (lo hi : Z) (s : string) : Prop :=
  is_int_literal s = true /\ lo <= int_value s <= hi.

(** Three events, two of them of 2021. *)
Definition db_2021 : DB :=
  serve_all [CreateEvent now0 (new_event (day 2021 3 4) "Taproot locked in" "[]");
             CreateEvent now0 (new_event (day 2021 9 7) "Legal tender" "[]");
             CreateEvent now0 (new_event (day 2020 5 11) "Third halving" "[]")]
            empty_db.

(** *** Tag filter *)




(** *** Reference notions for the tag list *)

(** The count the list reports for a tag (0 when the tag is not listed). *)
Definition tag_count (t : string) (l : list TagInfo) : Z :=
  foldr (fun ti acc => if str_eqb (Tag ti) t then Count ti + acc else acc) 0 l.

(** How often a tag occurs among the entries. *)
Definition occurrences (t : string) (entries : list string) : Z :=
  Z.of_nat (length (List.filter (fun x => str_eqb x t) entries)).

Definition tagged (tags : string) : Event := new_event (day 2015 1 1) "e" tags.

(** The tag list ascends strictly in byte order. *)
Definition tag_lt (a b : TagInfo) : Prop := str_ltb (Tag a) (Tag b) = true.

Definition tags_lightning : string :=
  "[" +:+ quoted "Lightning" +:+ "," +:+ quoted "lightning" +:+ "]".

(** *** Reference notions for authentication *)

Definition is_ascii (c : ascii) : bool := byte_of c <? 128.

Definition is_comma (c : ascii) : bool := bool_decide (c = ","%char).

(** A byte that separates keys or is dropped around them. *)
Definition is_key_filler (c : ascii) : bool :=
  strings.is_ascii_space c || is_comma c.

Definition is_error (r : Response) : bool :=
  match r with
  | JSONError _ _ => true
  | _ => false
  end.

(** *** Reference notions for storage *)

(** Every key of the table is covered by the AUTOINCREMENT counter, as it
    is in a table that was filled through [Create] alone. *)
Definition sequence_covers (db : DB) : Prop :=
  forall k, is_Some (events db !! k) -> (k <= sqlite_sequence db)%N.

(** The file a running variant leaves behind. *)
Definition db_file (db : DB) : DBFile :=
  mkDBFile (events db) (sqlite_sequence db) (Some (events_fts db)).

(** The id a text denotes for the three handlers that take one. *)
Definition denotes (id : string) (k : N) : Prop :=
  strconv.ParseUint id 32 = (Z.of_N k, None).

(** A batch whose second element names the id the first one is given in a
    table that holds one event. *)
Definition batch_with_taken_id : list Event :=
  [new_event (day 2011 2 9) "Parity" "[]";
   mkEvent 2 (day 2012 11 28) "First halving" EmptyString "[]" EmptyString
           EmptyString zeroTime zeroTime 0].

(** *** Reference notions for walking through the pages *)

Definition response_events (r : Response) : list Event :=
  match r with
  | PaginatedEventsResponse evs _ => evs
  | _ => []
  end.

Definition response_pagination (r : Response) : PaginationData :=
  match r with
  | PaginatedEventsResponse _ pg => pg
  | _ => mkPaginationData 0 0 0 0
  end.

(** [respond] answers a page parameter with a page of size [limit] of
    [full]; [pnum] is the page number the parameter stands for.  No page
    holds more than [limit] records.  As long as [total + limit - 1] fits an
    [int]: a client that reads [last_page] from the answer to a request
    without page parameter and then asks for the pages 1 to [last_page] in
    turn receives, put end to end, exactly [full]; and a page after the last
    is empty. *)
Definition partitions (respond : string -> Response) (pnum : string -> Z)
    (limit : Z) (full : list Event) : Prop :=
  (forall p, Z.of_nat (length (response_events (respond p))) <= limit) /\
  (Z.of_nat (length full) + limit - 1 <= MaxInt64 ->
   (forall pages,
       map pnum pages
       = seqZ 1 (LastPage (response_pagination (respond EmptyString))) ->
       concat (map (fun p => response_events (respond p)) pages) = full) /\
   (forall p,
       LastPage (response_pagination (respond EmptyString)) < pnum p ->
       (pnum p - 1) * limit <= MaxInt64 ->
       response_events (respond p) = [])).

(** *** Reference notions for the date filters *)





(** A parameter that is absent, or an unsigned decimal literal of a value
    from [lo] to [hi]. *)
Definition uint_param (lo hi : Z) (s : string) : Prop :=
  s = EmptyString \/ (is_uint_literal s = true /\ lo <= decimal_value s <= hi).

(** [Atoi] does not give up on the text as out of range. *)
Definition no_range_error (s : string) : Prop :=
  (strconv.Atoi s).2 <> Some strconv.ErrRange.

(** *** Reference notions for the search query *)

(** A byte the lexer of FTS5 accepts outside a string: a blank, a quotation
    mark, one of the special bytes, a byte of a bareword. *)
Definition is_lexable (c : ascii) : bool :=
  is_fts5_space c || bool_decide (c = dquote) || is_fts5_special c
  || is_bareword_byte c.

(** The lexer is not inside a string. *)
Definition outside_string (st : LexState) : bool :=
  match st with
  | InString _ => false
  | _ => true
  end.

(** *** Tags written as a JSON array of strings *)



(** A record that names an id one above the largest id a request can
    address. *)
Definition far_event : Event :=
  mkEvent 4294967296 (day 2009 1 3) "Genesis block" EmptyString "[]"
          EmptyString EmptyString zeroTime zeroTime 0.



(** *** Reference notions for the number of records *)

(** The total a listing request without filters reports. *)
Definition table_total (db : DB) : Z :=
  Total (response_pagination
           (getAllEventsHandler EmptyString EmptyString EmptyString
                                EmptyString EmptyString db)).

(** The number of records a request adds when it succeeds. *)
Definition records_added (r : Request) : Z :=
  match r with
  | CreateEvent _ _ => 1
  | UpdateEvent _ _ _ => 0
  | DeleteEvent _ => -1
  | BatchCreateEvents _ body => Z.of_nat (length body)
  end.

(** *** Create requests in the words of the specification *)

(** Single create: a request is rejected with a validation error exactly
    when its title is empty or its date is zero, and every other request is
    persisted: it is answered with a record, and the table holds that record
    under its id. *)
Definition create_as_stated : Prop :=
  forall (now : Time) (event : Event) (db : DB),
    (is_validation_error (createEventHandler now (Some event) db).1 = true <->
       Title event = EmptyString \/ IsZero (Date event) = true) /\
    (is_validation_error (createEventHandler now (Some event) db).1 = false ->
       exists row db',
         createEventHandler now (Some event) db
           = (JSONData StatusCreated row, db') /\
         events db' !! ID row = Some row).

(** Batch create: the records of every non-empty batch are persisted, each
    with the title and the date it was submitted with. *)
Definition batch_create_as_stated : Prop :=
  forall (L : Limits) (now : Time) (evs : list Event) (db : DB),
    evs <> [] ->
    exists n db',
      batchCreateEventsHandler now (Some evs) db = (JSONBatch n, db') /\
      forall e, e ∈ evs ->
        exists row, row ∈ rows db' /\ Title row = Title e /\ Date row = Date e.

(** A request with title and date that names the id of the event stored in
    [db_pizza]. *)
Definition event_with_taken_id : Event :=
  mkEvent 1 (day 2011 2 9) "Parity" EmptyString "[]" EmptyString EmptyString
          zeroTime zeroTime 0.

(** A batch of two records without id, the first of them without title and
    date. *)
Definition batch_without_title : list Event :=
  [new_event zeroTime EmptyString EmptyString; pizza_day].

(** *** A table for the tag list *)

(** One event whose tags are the JSON text of the array of the strings
    [Lightning] and [lightning]. *)
Definition db_lightning : DB :=
  serve_all [CreateEvent now0 (tagged tags_lightning)] empty_db.

(** *** Reference notions for the order of a listing *)

(** No two of the events have the same text in their date column, so that
    the sort key decides between any two of them. *)
Definition distinct_dates (l : list Event) : Prop :=
  NoDup (map (fun e => t_text (Date e)) l).


(* ===================================================================== *)
(** * Properties                                                          *)
(* ===================================================================== *)

(** ** [strconv] on examples *)

Example Atoi_13 : strconv.Atoi "13" = (13, None).
Proof. reflexivity. Qed.
Example Atoi_abc : strconv.Atoi "abc" = (0, Some strconv.ErrSyntax).
Proof. reflexivity. Qed.
Example Atoi_neg : strconv.Atoi "-7" = (-7, None).
Proof. reflexivity. Qed.
Example Atoi_big :
  strconv.Atoi "99999999999999999999" = (MaxInt64, Some strconv.ErrRange).
Proof. vm_compute. reflexivity. Qed.
Example Atoi_min : strconv.Atoi "-9223372036854775808" = (MinInt64, None).
Proof. vm_compute. reflexivity. Qed.
Example ParseUint_u32 :
  strconv.ParseUint "4294967296" 32 = (4294967295, Some strconv.ErrRange).
Proof. vm_compute. reflexivity. Qed.
Example ParseUint_plus : strconv.ParseUint "+5" 32 = (0, Some strconv.ErrSyntax).
Proof. reflexivity. Qed.


(** ** Decimal literals and [strconv.ParseUint] *)

Lemma digit_val_range c : is_digit c = true -> 0 <= strconv.digit_val c <= 9.
Proof.
  unfold is_digit, strconv.digit_val. intros H.
  apply andb_true_iff in H as [H1 H2]. lia.
Qed.

Lemma dec_acc_ge s : forall n, 0 <= n -> all_bytes is_digit s = true -> n <= dec_acc s n.
Proof.
  induction s as [|c s IH]; intros n Hn Hd; simpl in *; [lia|].
  apply andb_true_iff in Hd as [Hc Hs].
  pose proof (digit_val_range c Hc).
  etrans; [|apply IH]; [lia|lia|done].
Qed.

Lemma decimal_value_nonneg s : is_uint_literal s = true -> 0 <= decimal_value s.
Proof.
  unfold is_uint_literal. intros H. apply andb_true_iff in H as [_ H].
  by apply (dec_acc_ge s 0).
Qed.

Lemma parseUint_loop_ok maxVal s : forall n m,
  0 <= n <= maxVal -> maxVal <= MaxUint64 ->
  strconv.parseUint_loop maxVal s n = (m, None) <->
  all_bytes is_digit s = true /\ dec_acc s n = m /\ m <= maxVal.
Proof.
  induction s as [|c s IH]; intros n m Hn Hmax; simpl.
  - split; [intros [= <-]; repeat split; lia | intros (_ & -> & _); done].
  - destruct (is_digit c) eqn:Hc; simpl.
    2:{ split; [discriminate | intros [? _]; discriminate]. }
    pose proof (digit_val_range c Hc) as Hd.
    destruct (Z.leb_spec (MaxUint64 / 10 + 1) n) as [Hcut|Hcut].
    { split; [discriminate|]. intros (Hs & Hv & Hm).
      pose proof (dec_acc_ge s (n * 10 + strconv.digit_val c) ltac:(lia) Hs).
      exfalso. unfold MaxUint64 in *. 
      assert (2 ^ 64 - 1 < n * 10) by (change ((2 ^ 64 - 1) / 10 + 1) with 1844674407370955162 in Hcut; change (2 ^ 64 - 1) with 18446744073709551615; lia).
      lia. }
    destruct (Z.ltb_spec maxVal (n * 10 + strconv.digit_val c)) as [Hov|Hov].
    { split; [discriminate|]. intros (Hs & Hv & Hm).
      pose proof (dec_acc_ge s (n * 10 + strconv.digit_val c) ltac:(lia) Hs). lia. }
    rewrite IH by lia. tauto.
Qed.

Lemma ParseUint_ok s bits n :
  0 <= bits <= 64 ->
  strconv.ParseUint s bits = (n, None) <->
  is_uint_literal s = true /\ decimal_value s = n /\ n <= 2 ^ bits - 1.
Proof.
  intros Hb. unfold strconv.ParseUint, is_uint_literal, decimal_value.
  assert (0 <= 2 ^ bits - 1 <= MaxUint64) as Hm.
  { unfold MaxUint64. split.
    - pose proof (Z.pow_pos_nonneg 2 bits); lia.
    - assert (2 ^ bits <= 2 ^ 64) by (apply Z.pow_le_mono_r; lia). lia. }
  destruct s as [|c s].
  - split; [discriminate | intros [? _]; discriminate].
  - rewrite parseUint_loop_ok by lia.
    unfold str_eqb. rewrite bool_decide_eq_false_2 by discriminate. simpl. tauto.
Qed.

(** ** Single-record fetch *)

(** C5 — [get_event]: an id that is not a decimal literal of a value up to
    2^32 - 1 is answered with a validation error (400); an id that is such a
    literal but is the key of no stored record is answered with not-found
    (404); no answer is both.  In particular "abc" is a validation error and
    "999999" on the empty table is not-found. *)
Theorem C5_get_event_invalid_id_vs_not_found (id : string) (db : DB) :
  (is_validation_error (getEventHandler id db) = true <->
     ~ (is_uint_literal id = true /\ decimal_value id <= 2 ^ 32 - 1)) /\
  (is_not_found (getEventHandler id db) = true <->
     is_uint_literal id = true /\ decimal_value id <= 2 ^ 32 - 1 /\
     events db !! Z.to_N (decimal_value id) = None) /\
  is_validation_error (getEventHandler id db)
    && is_not_found (getEventHandler id db) = false /\
  is_validation_error (getEventHandler "abc" db) = true /\
  is_not_found (getEventHandler "999999" empty_db) = true.
Proof.
  assert (Hlit : forall n, strconv.ParseUint id 32 = (n, None) <->
            is_uint_literal id = true /\ decimal_value id = n /\ n <= 2 ^ 32 - 1)
    by (intros n; apply ParseUint_ok; lia).
  unfold getEventHandler, First.
  destruct (str_eqb id EmptyString) eqn:Hempty.
  { apply bool_decide_eq_true in Hempty as ->. simpl.
    repeat split; try done; try (intros [? _]; discriminate).
    intros _ [H _]; discriminate. }
  destruct (strconv.ParseUint id 32) as [n [err|]] eqn:E; simpl.
  - assert (~ (is_uint_literal id = true /\ decimal_value id <= 2 ^ 32 - 1)) as Hno.
    { intros [H1 H2].
      assert ((n, Some err) = (decimal_value id, None)) as E'
        by (apply Hlit; auto).
      discriminate. }
    repeat split; try done.
    intros (H1 & H2 & _). exfalso. apply Hno. auto.
  - destruct (proj1 (Hlit n) eq_refl) as (H1 & <- & H3).
    destruct (events db !! Z.to_N (decimal_value id)) eqn:Hrow; simpl;
      repeat split; try done; try tauto.
    intros (_ & _ & ?); discriminate.
Qed.

(** ** Storage operations *)

Lemma max_rowid_ge (t : gmap N Event) k e :
  t !! k = Some e -> (k <= max_rowid t)%N.
Proof.
  unfold max_rowid. revert k e.
  apply (map_fold_weak_ind
           (fun r (m : gmap N Event) => forall k e, m !! k = Some e -> (k <= r)%N)).
  - intros k e. rewrite lookup_empty. discriminate.
  - intros i x m r Hi IH k e. rewrite lookup_insert.
    case_decide as Hk.
    + subst. intros _. lia.
    + intros Hl. specialize (IH _ _ Hl). lia.
Qed.

Lemma next_rowid_fresh db : events db !! next_rowid db = None.
Proof.
  destruct (events db !! next_rowid db) as [e|] eqn:E; [|done].
  apply max_rowid_ge in E. unfold next_rowid in E. lia.
Qed.

Lemma next_rowid_nonzero db : next_rowid db <> 0%N.
Proof. unfold next_rowid. lia. Qed.

(** What a successful [Create] has done. *)
Lemma Create_inr now e db row db' :
  Create now e db = inr (row, db') ->
  row = stamped now (create_id e db) e /\
  events db !! create_id e db = None /\
  events db' = <[create_id e db := row]> (events db) /\
  events_fts db' = fts_insert (create_id e db) (doc_of row) (events_fts db).
Proof.
  unfold Create. intros H.
  destruct (bool_decide (ID e = 0%N) && _); [discriminate|].
  destruct (MaxInt64 <? _); [discriminate|].
  destruct (events db !! create_id e db) eqn:E; [discriminate|].
  injection H as <- <-. simpl. auto.
Qed.

Lemma Create_inr_more now e db row db' :
  Create now e db = inr (row, db') ->
  sqlite_sequence db' = N.max (sqlite_sequence db) (create_id e db) /\
  Z.of_N (create_id e db) <= MaxInt64 /\
  (ID e = 0%N -> 0 < ids_left db).
Proof.
  unfold Create, ids_left. intros H.
  destruct (bool_decide (ID e = 0%N) && _) eqn:E0; [discriminate|].
  destruct (MaxInt64 <? _) eqn:E1; [discriminate|].
  destruct (events db !! create_id e db) eqn:E; [discriminate|].
  injection H as <- <-. cbn [sqlite_sequence]. apply Z.ltb_ge in E1.
  split_and!; [done|done|].
  intros H0. rewrite bool_decide_eq_true_2 in E0 by done.
  cbn [andb] in E0. apply Z.leb_gt in E0. lia.
Qed.

(** A record that carries no id is stored as long as the table has an id
    left to assign. *)
Lemma Create_unset_id now e db :
  ID e = 0%N -> 0 < ids_left db ->
  exists db', Create now e db = inr (stamped now (next_rowid db) e, db').
Proof.
  intros H0 Hroom. unfold ids_left in Hroom.
  assert (Z.of_N (next_rowid db) <= MaxInt64) by (unfold next_rowid; lia).
  unfold Create, create_id. rewrite bool_decide_eq_true_2 by done.
  replace (MaxInt64 <=? _) with false by (symmetry; apply Z.leb_gt; lia).
  replace (MaxInt64 <? _) with false by (symmetry; apply Z.ltb_ge; lia).
  simpl. rewrite next_rowid_fresh. eauto.
Qed.

(** The three ways in which [Create] fails. *)
Lemma Create_inl now e db err :
  Create now e db = inl err ->
  (ID e = 0%N /\ ids_left db <= 0) \/
  (ID e <> 0%N /\ (MaxInt64 < Z.of_N (ID e) \/ is_Some (events db !! ID e))).
Proof.
  unfold Create, create_id, ids_left. case_bool_decide as H0; simpl.
  - destruct (MaxInt64 <=? _) eqn:E0;
      [apply Z.leb_le in E0; intros _; left; split; [done|lia]|].
    apply Z.leb_gt in E0.
    assert (Z.of_N (next_rowid db) <= MaxInt64) by (unfold next_rowid; lia).
    replace (MaxInt64 <? _) with false by (symmetry; apply Z.ltb_ge; lia).
    rewrite next_rowid_fresh. discriminate.
  - destruct (MaxInt64 <? _) eqn:E1;
      [apply Z.ltb_lt in E1; intros _; right; split; [done|by left]|].
    destruct (events db !! ID e) eqn:E; [eauto | discriminate].
Qed.

Lemma Create_taken now e db :
  ID e <> 0%N -> is_Some (events db !! ID e) ->
  exists err, Create now e db = inl err.
Proof.
  intros H0 [x Hx]. unfold Create, create_id.
  rewrite bool_decide_eq_false_2 by done. simpl.
  destruct (MaxInt64 <? _); [eauto|]. rewrite Hx. eauto.
Qed.

Lemma Create_named_id now e db :
  ID e <> 0%N -> Z.of_N (ID e) <= MaxInt64 -> events db !! ID e = None ->
  exists db', Create now e db = inr (stamped now (ID e) e, db').
Proof.
  intros H0 Hle Hfree. unfold Create, create_id.
  rewrite bool_decide_eq_false_2 by done. simpl.
  replace (MaxInt64 <? _) with false by (symmetry; apply Z.ltb_ge; lia).
  rewrite Hfree. eauto.
Qed.

(** ** The triggers keep the index equal to the table's text *)

(** A first text for a rowid, and the one text of a rowid taken back. *)
Lemma fts_insert_fresh rowid d (idx : gmap N (list FtsDoc)) :
  idx !! rowid = None -> fts_insert rowid d idx = <[rowid := [d]]> idx.
Proof. intros H. unfold fts_insert, indexed. by rewrite H. Qed.

Lemma fts_delete_indexed rowid d (idx : gmap N (list FtsDoc)) :
  idx !! rowid = Some [d] -> fts_delete rowid d idx = delete rowid idx.
Proof.
  intros H. unfold fts_delete, indexed. rewrite H. simpl.
  by rewrite decide_True.
Qed.

Lemma index_of_lookup (t : gmap N Event) k :
  index_of t !! k = (fun e => [doc_of e]) <$> t !! k.
Proof. unfold index_of. apply lookup_fmap. Qed.

Lemma Create_synced now e db row db' :
  db_synced db -> Create now e db = inr (row, db') -> db_synced db'.
Proof.
  intros [Hk Hs] H. apply Create_inr in H as (-> & Hnone & Ht & Hi).
  split.
  - rewrite Ht. intros k r. rewrite lookup_insert. case_decide.
    + intros [= <-]. done.
    + apply Hk.
  - rewrite Hi, Ht, Hs.
    rewrite fts_insert_fresh by (by rewrite index_of_lookup, Hnone).
    unfold index_of. by rewrite fmap_insert.
Qed.

Lemma insert_all_synced now es : forall db stored db',
  db_synced db -> insert_all now es db = inr (stored, db') -> db_synced db'.
Proof.
  induction es as [|e es IH]; intros db stored db' Hs H; simpl in H.
  - by injection H as <- <-.
  - destruct (Create now e db) as [|[row db1]] eqn:E; [discriminate|].
    destruct (insert_all now es db1) as [|[rs db2]] eqn:E2; [discriminate|].
    injection H as <- <-. eapply IH; [|done]. eapply Create_synced; eauto.
Qed.

(** What a successful [Updates] has done: the row addressed is taken out
    and the new row put under its id, which is the old one or one that was
    free. *)
Lemma Updates_inr now event u db ev db' :
  Updates now event u db = inr (ev, db') ->
  ev = apply_update now u event /\
  ID event <> 0%N /\ u_other u = false /\
  match events db !! ID event with
  | None => db' = db
  | Some old =>
      let new := apply_update now u old in
      Z.of_N (ID new) <= MaxInt64 /\
      (ID new = ID event \/ events db !! ID new = None) /\
      events db' = <[ID new := new]> (delete (ID event) (events db)) /\
      sqlite_sequence db' = sqlite_sequence db /\
      events_fts db' = events_after_update old new (events_fts db)
  end.
Proof.
  unfold Updates. case_bool_decide as H0; [discriminate|].
  destruct (u_other u); [discriminate|].
  destruct (events db !! ID event) as [old|] eqn:E.
  - cbv zeta. destruct (MaxInt64 <? _) eqn:Hmax; [discriminate|].
    apply Z.ltb_ge in Hmax.
    case_bool_decide as Hsame.
    + intros [= <- <-]. cbn [events sqlite_sequence events_fts].
      split_and!; try done; [by left|].
      rewrite Hsame. by rewrite insert_delete_eq.
    + destruct (events db !! ID (apply_update now u old)) eqn:Hnew;
        [discriminate|].
      intros [= <- <-]. cbn [events sqlite_sequence events_fts].
      split_and!; try done. by right.
  - intros [= <- <-]. done.
Qed.

(** A batch that was stored was within the limit of its statement. *)
Lemma CreateSlice_inr `{Limits} now es db x :
  CreateSlice now es db = inr x ->
  batch_fits es = true /\ insert_all now es db = inr x.
Proof. unfold CreateSlice. by destruct (batch_fits es). Qed.

Lemma Updates_synced now event u db ev db' :
  db_synced db -> Updates now event u db = inr (ev, db') -> db_synced db'.
Proof.
  intros [Hk Hs] H. apply Updates_inr in H as (_ & _ & _ & H).
  destruct (events db !! ID event) as [old|] eqn:E; [|by subst].
  destruct H as (_ & Hfree & Ht & _ & Hi).
  pose proof (Hk _ _ E) as Hid.
  split.
  - rewrite Ht. intros k r. rewrite lookup_insert. case_decide.
    + intros [= <-]. done.
    + rewrite lookup_delete. case_decide; [discriminate|]. apply Hk.
  - rewrite Hi, Ht. unfold events_after_update. rewrite Hid.
    rewrite fts_delete_indexed by (rewrite Hs, index_of_lookup, E; done).
    rewrite fts_insert_fresh.
    + rewrite Hs. unfold index_of. by rewrite fmap_insert, fmap_delete.
    + rewrite lookup_delete. case_decide; [done|].
      rewrite Hs, index_of_lookup.
      destruct Hfree as [Heq|Hnone]; [congruence|]. by rewrite Hnone.
Qed.

Lemma Delete_synced id db :
  db_synced db -> db_synced (Delete id db).1.
Proof.
  intros [Hk Hs]. unfold Delete.
  destruct (events db !! id) as [old|] eqn:E; [|done]. simpl.
  pose proof (Hk _ _ E) as Hid.
  split; simpl.
  - intros k r. rewrite lookup_delete. case_decide; [discriminate | apply Hk].
  - unfold events_after_delete. rewrite Hid.
    rewrite fts_delete_indexed by (rewrite Hs, index_of_lookup, E; done).
    rewrite Hs. unfold index_of. by rewrite fmap_delete.
Qed.

Lemma serve_synced `{Limits} r db : db_synced db -> db_synced (serve r db).2.
Proof.
  intros Hs. destruct r as [now body|now id body|id|now body]; simpl.
  - unfold createEventHandler.
    destruct (str_eqb (Title body) EmptyString || IsZero (Date body)); [done|].
    destruct (Create now body db) as [|[row db']] eqn:E; [done|].
    simpl. eapply Create_synced; eauto.
  - unfold updateEventHandler.
    destruct (strconv.ParseUint id 32) as [n [err|]]; [done|].
    destruct (First (Z.to_N n) db) as [|event]; [done|].
    destruct (Updates now event body db) as [|[ev db']] eqn:E; [done|].
    simpl. eapply Updates_synced; eauto.
  - unfold deleteEventHandler.
    destruct (strconv.ParseUint id 32) as [n [err|]]; [done|].
    pose proof (Delete_synced (Z.to_N n) db Hs).
    destruct (Delete (Z.to_N n) db) as [db' k]. by destruct (k =? 0).
  - unfold batchCreateEventsHandler.
    destruct (Z.of_nat (length body) =? 0); [done|].
    destruct (CreateSlice now body db) as [|[stored db']] eqn:E; [done|].
    apply CreateSlice_inr in E as [_ E].
    simpl. eapply insert_all_synced; eauto.
Qed.

Lemma serve_all_synced `{Limits} rs :
  forall db, db_synced db -> db_synced (serve_all rs db).
Proof.
  induction rs as [|r rs IH]; intros db Hs; [done|].
  simpl. apply IH. by apply serve_synced.
Qed.

(** The statement that fills the index from the table would bring an empty
    index in step with the table. *)
Lemma backfill_fmap (t : gmap N Event) :
  rows_keyed t -> backfill t ∅ = index_of t.
Proof.
  unfold backfill.
  induction t as [|k e t Hnone Hfold IH] using map_first_key_ind; intros Hk.
  - unfold index_of. by rewrite map_fold_empty, fmap_empty.
  - rewrite map_fold_insert_first_key by done.
    rewrite IH.
    + rewrite (Hk k e) by apply lookup_insert_eq.
      rewrite fts_insert_fresh by (by rewrite index_of_lookup, Hnone).
      unfold index_of. by rewrite fmap_insert.
    + intros k' e' H'. apply Hk. rewrite lookup_insert_ne; [done|].
      intros ->. congruence.
Qed.

(** [InitDB] never runs that statement: it leaves table, counter and index
    as it finds them. *)
Lemma InitDB_unfold f :
  InitDB f = mkDB (file_events f) (file_sequence f) (default ∅ (file_fts f)).
Proof.
  unfold InitDB. cbv zeta.
  destruct (0 <? Z.of_nat (size (file_events f))) eqn:Hc; [|done].
  replace (Z.of_nat (size (file_events f)) =? 0) with false; [done|].
  symmetry. apply Z.eqb_neq. lia.
Qed.


Lemma empty_db_synced : db_synced empty_db.
Proof.
  split; simpl.
  - intros k e. rewrite lookup_empty. discriminate.
  - unfold index_of. by rewrite fmap_empty.
Qed.


(** ** Rows, selections and the search join *)




Section SearchFacts.
Context `{engine : Fts5}.


End SearchFacts.

(** ** The handlers that take an id *)

Lemma ParseUint_nonneg s bits n :
  0 <= bits <= 64 -> strconv.ParseUint s bits = (n, None) -> 0 <= n.
Proof.
  intros Hb H. apply (ParseUint_ok s bits n Hb) in H as (Hlit & <- & _).
  by apply decimal_value_nonneg.
Qed.

(** [getEventHandler] on an id text that denotes [k]. *)
Lemma getEventHandler_denotes id k db :
  denotes id k ->
  getEventHandler id db
  = match events db !! k with
    | Some e => JSONData StatusOK e
    | None => JSONError StatusNotFound "Event not found"
    end.
Proof.
  unfold denotes, getEventHandler, First. intros H.
  destruct id as [|c id]; [discriminate H|].
  unfold str_eqb. rewrite bool_decide_eq_false_2 by discriminate.
  rewrite H, N2Z.id. by destruct (events db !! k).
Qed.

(** The answer of [getEventHandler] depends on the table only through the
    row stored under the id the text denotes. *)
Lemma getEventHandler_other_rows id db db' :
  (forall k, denotes id k -> events db' !! k = events db !! k) ->
  getEventHandler id db' = getEventHandler id db.
Proof.
  intros H. unfold getEventHandler, First.
  destruct (str_eqb id EmptyString); [done|].
  destruct (strconv.ParseUint id 32) as [n [err|]] eqn:E; [done|].
  rewrite (H (Z.to_N n)); [done|].
  unfold denotes. rewrite E, Z2N.id; [done|].
  eapply ParseUint_nonneg; [|exact E]. lia.
Qed.

Lemma denotes_inj id k1 k2 : denotes id k1 -> denotes id k2 -> k1 = k2.
Proof. unfold denotes. intros H1 H2. rewrite H1 in H2. injection H2. lia. Qed.

Lemma deleteEventHandler_denotes id k db :
  denotes id k ->
  deleteEventHandler id db
  = match events db !! k with
    | Some old =>
        (NoContent,
         mkDB (delete k (events db)) (sqlite_sequence db)
              (events_after_delete old (events_fts db)))
    | None => (JSONError StatusNotFound "Event not found", db)
    end.
Proof.
  unfold denotes, deleteEventHandler, Delete. intros ->.
  rewrite N2Z.id. by destruct (events db !! k).
Qed.

(** An id text that denotes no id is a validation error for the three
    handlers, and storage is not consulted. *)
Lemma handlers_reject_id id n err db :
  strconv.ParseUint id 32 = (n, Some err) ->
  is_validation_error (getEventHandler id db) = true /\
  deleteEventHandler id db = (JSONError StatusBadRequest "Invalid Event ID", db) /\
  (forall now body,
      updateEventHandler now id body db
      = (JSONError StatusBadRequest "Invalid Event ID", db)).
Proof.
  intros E. unfold getEventHandler, deleteEventHandler, updateEventHandler.
  rewrite E. by destruct (str_eqb id EmptyString).
Qed.

Lemma denotes_parsed id n :
  strconv.ParseUint id 32 = (n, None) -> denotes id (Z.to_N n).
Proof.
  intros E. unfold denotes. rewrite E, Z2N.id; [done|].
  eapply ParseUint_nonneg; [|exact E]. lia.
Qed.

Lemma denotes_bound id k : denotes id k -> Z.of_N k <= 2 ^ 32 - 1.
Proof.
  unfold denotes. intros H.
  apply (ParseUint_ok id 32 (Z.of_N k) ltac:(lia)) in H. tauto.
Qed.

(** [updateEventHandler] on an id text that denotes [k]. *)
Lemma updateEventHandler_denotes now id k u db :
  denotes id k ->
  updateEventHandler now id (Some u) db
  = match events db !! k with
    | None => (JSONError StatusNotFound "Event not found", db)
    | Some event =>
        match Updates now event u db with
        | inl _ =>
            (JSONError StatusInternalServerError "Failed to update event", db)
        | inr (ev, db') => (JSONData StatusOK ev, db')
        end
    end.
Proof.
  unfold denotes, updateEventHandler, First. intros ->.
  rewrite N2Z.id. by destruct (events db !! k).
Qed.

(** An update that is answered with the record: the id text denotes the key
    of a stored row, and storage has accepted the statement. *)
Lemma updateEventHandler_ok now id u db ev db' :
  updateEventHandler now id (Some u) db = (JSONData StatusOK ev, db') ->
  exists k old,
    denotes id k /\ events db !! k = Some old /\
    Updates now old u db = inr (ev, db').
Proof.
  intros H.
  destruct (strconv.ParseUint id 32) as [n [err|]] eqn:E.
  { destruct (handlers_reject_id id n err db E) as (_ & _ & Hu).
    rewrite Hu in H. discriminate. }
  apply denotes_parsed in E.
  rewrite (updateEventHandler_denotes now id _ u db E) in H.
  destruct (events db !! Z.to_N n) as [old|] eqn:Hrow; [|discriminate].
  destruct (Updates now old u db) as [|[ev' db'']] eqn:Hu; [discriminate|].
  injection H as <- <-. eauto.
Qed.

(** ** The search index follows the table *)



(** The same run, evaluated, and continued by a delete: the event is found
    by its title once created, by its new title and no longer by a word of
    the old one that the update kept out, and by nothing once deleted. *)
Example search_follows_writes :
  let db1 := serve_all [CreateEvent now0 pizza_day] empty_db in
  let db2 := serve_all [UpdateEvent now0 "1" (retitle "Laszlo buys lunch")] db1 in
  let db3 := serve_all [DeleteEvent "1"] db2 in
  map ID (fts_join (engine := example_engine) "Pizza" db1) = [1%N] /\
  map ID (fts_join (engine := example_engine) "Pizza" db2) = [] /\
  map ID (fts_join (engine := example_engine) "lunch" db2) = [1%N] /\
  map ID (fts_join (engine := example_engine) "lunch" db3) = [].
Proof. vm_compute. auto. Qed.

(** An update that gives the row another id moves its text in the index:
    the event is found under the new id alone. *)
Example search_follows_renumbering :
  let db1 := serve_all [CreateEvent now0 pizza_day] empty_db in
  let db2 := serve_all [UpdateEvent now0 "1" (renumber 7)] db1 in
  map ID (fts_join (engine := example_engine) "Pizza" db1) = [1%N] /\
  map ID (fts_join (engine := example_engine) "Pizza" db2) = [7%N] /\
  events_fts db2 = index_of (events db2).
Proof. vm_compute. auto. Qed.

(** A file that was written before the index existed: [InitDB] starts the
    variant with the rows it finds and an empty index, so that no search
    statement selects any of them. *)
Example legacy_rows_are_not_indexed :
  let legacy := mkDBFile (events db_pizza) (sqlite_sequence db_pizza) None in
  map ID (rows (InitDB legacy)) = [1%N] /\
  events_fts (InitDB legacy) = ∅ /\
  fts_join (engine := example_engine) "Pizza" (InitDB legacy) = [].
Proof. vm_compute. auto. Qed.

(** ** Create and batch create *)

Lemma str_eqb_true a b : str_eqb a b = true <-> a = b.
Proof. unfold str_eqb. apply bool_decide_eq_true. Qed.

(** The condition [event.Title == "" || event.Date.IsZero()]. *)
Lemma create_check_true e :
  str_eqb (Title e) EmptyString || IsZero (Date e) = true <->
  Title e = EmptyString \/ IsZero (Date e) = true.
Proof. rewrite orb_true_iff, str_eqb_true. done. Qed.

(** The check of [createEventHandler], as a fact about its answer. *)
Lemma create_validation_iff now event db :
  is_validation_error (createEventHandler now (Some event) db).1 = true <->
  Title event = EmptyString \/ IsZero (Date event) = true.
Proof.
  unfold createEventHandler. rewrite <- create_check_true.
  destruct (str_eqb (Title event) EmptyString || IsZero (Date event)); simpl.
  - done.
  - by destruct (Create now event db) as [err|[row db']].
Qed.

(** [createEventHandler] on a request that passes the check. *)
Lemma createEventHandler_checked now event db :
  Title event <> EmptyString -> IsZero (Date event) = false ->
  createEventHandler now (Some event) db
  = match Create now event db with
    | inl _ => (JSONError StatusInternalServerError "Failed to create event", db)
    | inr (row, db') => (JSONData StatusCreated row, db')
    end.
Proof.
  intros Ht Hd. unfold createEventHandler.
  destruct (str_eqb (Title event) EmptyString || IsZero (Date event)) eqn:Hchk;
    [|done].
  apply create_check_true in Hchk as [?|?]; [done|congruence].
Qed.

(** The id the table assigns is above every id in use and above the
    counter. *)
Lemma next_rowid_above db :
  (sqlite_sequence db < next_rowid db)%N /\
  (forall k, is_Some (events db !! k) -> (k < next_rowid db)%N).
Proof.
  unfold next_rowid. split; [lia|].
  intros k [e He]. apply max_rowid_ge in He. lia.
Qed.

(** C8 (amended) — single-event create.  A parsed request is rejected with
    a validation error (400) exactly when its title is empty or its date is
    the zero instant, and then nothing is stored.  A request that passes
    this check and carries no id is stored, and answered 201 with the stored
    record, as long as the table has an id left: under the next id of the
    AUTOINCREMENT counter, which is above the counter and above every id in
    use.  One that carries an id is stored under that id if the id is free
    and not above 2^63 - 1.  Either way a time stamp the request leaves zero
    becomes the current time and one it sets is kept, and the index receives
    the text of the record.  In every other case (the id is taken, the id is
    above 2^63 - 1, the table has no id left) the answer is the storage
    error (500) and nothing is stored. *)
Theorem C8_create_rejects_exactly_missing_title_or_date
    (now : Time) (event : Event) (db : DB) :
  let answer := createEventHandler now (Some event) db in
  let accepted :=
    (ID event = 0%N /\ 0 < ids_left db) \/
    (ID event <> 0%N /\ Z.of_N (ID event) <= MaxInt64 /\
     events db !! ID event = None) in
  (is_validation_error answer.1 = true <->
     Title event = EmptyString \/ IsZero (Date event) = true) /\
  (is_validation_error answer.1 = true -> answer.2 = db) /\
  (is_validation_error answer.1 = false -> accepted ->
     let row := stamped now (create_id event db) event in
     answer = (JSONData StatusCreated row,
               mkDB (<[ID row := row]> (events db))
                    (N.max (sqlite_sequence db) (ID row))
                    (fts_insert (ID row) (doc_of row) (events_fts db))) /\
     events db !! ID row = None /\
     (ID event = 0%N ->
        ID row = next_rowid db /\ (sqlite_sequence db < ID row)%N /\
        forall k, is_Some (events db !! k) -> (k < ID row)%N) /\
     (ID event <> 0%N -> ID row = ID event) /\
     CreatedAt row
       = (if IsZero (CreatedAt event) then now else CreatedAt event) /\
     UpdatedAt row
       = (if IsZero (UpdatedAt event) then now else UpdatedAt event)) /\
  (is_validation_error answer.1 = false -> ~ accepted ->
     answer
     = (JSONError StatusInternalServerError "Failed to create event", db)).
Proof.
  intros answer accepted. subst answer.
  split; [apply create_validation_iff|].
  destruct (str_eqb (Title event) EmptyString || IsZero (Date event)) eqn:Hchk.
  { unfold createEventHandler. rewrite Hchk. cbn. done. }
  assert (Title event <> EmptyString /\ IsZero (Date event) = false) as [Ht Hd].
  { apply orb_false_iff in Hchk as [H1 H2]. split; [|done].
    intros H. apply str_eqb_true in H. congruence. }
  rewrite (createEventHandler_checked now event db Ht Hd).
  destruct (Create now event db) as [err|[row db']] eqn:E; cbn [fst snd].
  - split; [discriminate|]. split; [|done].
    intros _ Hacc. exfalso. apply Create_inl in E.
    destruct Hacc as [[H0 Hroom]|(H0 & Hle & Hfree)];
      destruct E as [[H0' Hfull]|[H0' [Hbig|[x Hx]]]]; try done; try lia.
    congruence.
  - split; [discriminate|]. split; [|intros _ Hno; exfalso; apply Hno].
    + intros _ _. pose proof E as E'.
      apply Create_inr in E' as (Hrow & Hnone & Hev & Hi).
      apply Create_inr_more in E as (Hseq & _ & _).
      assert (ID (stamped now (create_id event db) event) = create_id event db)
        as Hid by done.
      cbv zeta. rewrite Hid. rewrite <- Hrow. split_and!.
      * f_equal. destruct db'. cbn in *. by subst.
      * done.
      * intros H0. unfold create_id. rewrite bool_decide_eq_true_2 by done.
        split; [done|]. apply next_rowid_above.
      * intros H0. unfold create_id. by rewrite bool_decide_eq_false_2.
      * by rewrite Hrow.
      * by rewrite Hrow.
    + pose proof E as E'. apply Create_inr in E' as (_ & Hnone & _).
      apply Create_inr_more in E as (_ & Hle & Hroom).
      unfold accepted, create_id in *. case_bool_decide as H0.
      * left. auto.
      * right. auto.
Qed.

(** C8 as it is stated fails for a request that names an id: it passes the
    check of title and date, and it is not stored when the id is taken. *)
Lemma C8_create_as_stated_fails : ~ create_as_stated.
Proof.
  intros H. destruct (H now0 event_with_taken_id db_pizza) as [_ H2].
  destruct (H2 eq_refl) as (row & db' & Hr & _). vm_compute in Hr.
  discriminate Hr.
Qed.

(** The same request on the same table, evaluated, beside one that names a
    free id and one that names none. *)
Example create_with_an_id :
  createEventHandler now0 (Some event_with_taken_id) db_pizza
    = (JSONError StatusInternalServerError "Failed to create event", db_pizza)
  /\
  (createEventHandler now0 (Some far_event) db_pizza).1
    = JSONData StatusCreated (stamped now0 4294967296 far_event) /\
  (createEventHandler now0 (Some pizza_day) db_pizza).1
    = JSONData StatusCreated (stamped now0 2 pizza_day).
Proof. vm_compute. auto. Qed.

(** A request that carries no id and passes the check is stored as long as
    the table has an id left. *)
Lemma create_unset_id_stored now event db :
  ID event = 0%N -> 0 < ids_left db ->
  Title event <> EmptyString -> IsZero (Date event) = false ->
  exists db',
    createEventHandler now (Some event) db
      = (JSONData StatusCreated (stamped now (next_rowid db) event), db') /\
    events db' !! next_rowid db = Some (stamped now (next_rowid db) event).
Proof.
  intros H0 Hroom Ht Hd. rewrite (createEventHandler_checked now event db Ht Hd).
  destruct (Create_unset_id now event db H0 Hroom) as [db' E]. rewrite E.
  exists db'. split; [done|].
  apply Create_inr in E as (_ & _ & -> & _).
  unfold create_id. rewrite bool_decide_eq_true_2 by done.
  apply lookup_insert_eq.
Qed.

Lemma Create_keeps now e db row db' k r :
  Create now e db = inr (row, db') ->
  events db !! k = Some r -> events db' !! k = Some r.
Proof.
  intros H Hk. apply Create_inr in H as (_ & Hnone & -> & _).
  rewrite lookup_insert_ne; [done|]. intros <-. congruence.
Qed.

Lemma insert_all_keeps now es : forall db stored db' k r,
  insert_all now es db = inr (stored, db') ->
  events db !! k = Some r -> events db' !! k = Some r.
Proof.
  induction es as [|e es IH]; intros db stored db' k r H Hk; simpl in H.
  - by injection H as <- <-.
  - destruct (Create now e db) as [|[row db1]] eqn:E; [discriminate|].
    destruct (insert_all now es db1) as [|[rs db2]] eqn:E2; [discriminate|].
    injection H as <- <-. eapply IH; [done|]. eapply Create_keeps; eauto.
Qed.

(** Every element of a batch that was stored is in the table afterwards,
    with the content it was submitted with, under a key that was free. *)
Lemma insert_all_stored now es : forall db stored db',
  insert_all now es db = inr (stored, db') ->
  length stored = length es /\
  forall e, e ∈ es ->
    exists row, events db' !! ID row = Some row /\
                events db !! ID row = None /\
                row = stamped now (ID row) e.
Proof.
  induction es as [|e es IH]; intros db stored db' H; simpl in H.
  - injection H as <- <-. split; [done|]. intros e He. inversion He.
  - destruct (Create now e db) as [|[row db1]] eqn:E; [discriminate|].
    destruct (insert_all now es db1) as [|[rs db2]] eqn:E2; [discriminate|].
    injection H as <- <-.
    destruct (IH _ _ _ E2) as [Hlen Hall].
    split; [simpl; by rewrite Hlen|].
    intros e' He'. apply elem_of_cons in He' as [->|He'].
    + exists row. pose proof E as E'.
      apply Create_inr in E' as (Hrow & Hnone & Ht & _).
      assert (ID row = create_id e db) as Hid by (rewrite Hrow; done).
      repeat split.
      * eapply insert_all_keeps; [done|].
        rewrite Ht, Hid. apply lookup_insert_eq.
      * by rewrite Hid.
      * by rewrite Hid.
    + destruct (Hall e' He') as (row' & H1 & H2 & H3).
      exists row'. repeat split; try done.
      destruct (events db !! ID row') as [r|] eqn:Hr; [|done].
      eapply Create_keeps in Hr; [|done]. congruence.
Qed.

(** An upper bound on the keys of a table bounds its largest rowid. *)
Lemma max_rowid_le (t : gmap N Event) (b : N) :
  (forall k e, t !! k = Some e -> (k <= b)%N) -> (max_rowid t <= b)%N.
Proof.
  unfold max_rowid.
  apply (map_fold_weak_ind
           (fun r (m : gmap N Event) =>
              (forall k e, m !! k = Some e -> (k <= b)%N) -> (r <= b)%N)).
  - intros _. lia.
  - intros k e m r Hnone IH Hall.
    assert (k <= b)%N by (apply (Hall k e), lookup_insert_eq).
    assert (r <= b)%N.
    { apply IH. intros k' e' H'. apply (Hall k' e').
      rewrite lookup_insert_ne; [done|]. intros ->. congruence. }
    lia.
Qed.

(** Each record the table gives an id to takes one of the ids left. *)
Lemma Create_ids_left now e db row db' :
  ID e = 0%N -> Create now e db = inr (row, db') ->
  ids_left db' = ids_left db - 1.
Proof.
  intros H0 E. pose proof E as E'.
  apply Create_inr in E' as (_ & _ & Ht & _).
  apply Create_inr_more in E as (Hseq & _ & _).
  unfold create_id in *. rewrite bool_decide_eq_true_2 in * by done.
  unfold ids_left. rewrite Hseq, Ht.
  assert (max_rowid (<[next_rowid db := row]> (events db)) <= next_rowid db)%N.
  { apply max_rowid_le. intros k r. rewrite lookup_insert. case_decide.
    - intros _. lia.
    - intros Hk. apply max_rowid_ge in Hk. unfold next_rowid. lia. }
  unfold next_rowid in *. lia.
Qed.

Lemma insert_all_unset_ids now es : forall db,
  Forall (fun e => ID e = 0%N) es ->
  Z.of_nat (length es) <= ids_left db ->
  exists stored db', insert_all now es db = inr (stored, db').
Proof.
  induction es as [|e es IH]; intros db Hall Hroom; simpl; [eauto|].
  apply Forall_cons in Hall as [H0 Hall]. simpl length in Hroom.
  destruct (Create_unset_id now e db H0 ltac:(lia)) as [db1 E]. rewrite E.
  apply Create_ids_left in E; [|done].
  destruct (IH db1 Hall ltac:(lia)) as (stored & db' & ->). eauto.
Qed.

(** A batch with an element that names an id in use, or an id above
    2^63 - 1, is not stored. *)
Lemma insert_all_refused now es : forall db e,
  e ∈ es -> ID e <> 0%N ->
  is_Some (events db !! ID e) \/ MaxInt64 < Z.of_N (ID e) ->
  exists err, insert_all now es db = inl err.
Proof.
  induction es as [|e' es IH]; intros db e He H0 Hbad; [inversion He|].
  simpl. destruct (Create now e' db) as [err|[row db1]] eqn:E; [eauto|].
  apply elem_of_cons in He as [<-|He].
  - exfalso. pose proof E as E'. apply Create_inr in E' as (_ & Hnone & _).
    apply Create_inr_more in E as (_ & Hle & _).
    unfold create_id in *. rewrite bool_decide_eq_false_2 in * by done.
    destruct Hbad as [[x Hx]|Hbig]; [congruence|lia].
  - destruct (IH db1 e He H0) as [err ->]; [|eauto].
    destruct Hbad as [[x Hx]|Hbig]; [left|by right].
    exists x. eapply Create_keeps; eauto.
Qed.

(** C10 (amended) — batch create performs no check of title or date.  For
    a non-empty batch the answer is never a validation error: it is either
    the number of elements, and then every element is in the table under a
    key that was free, with the content it was submitted with, also an
    element whose title is empty or whose date is zero, which single-event
    create rejects; or it is the storage error (500), and then nothing of
    the batch is stored.  A batch whose elements carry no id is stored as
    long as its INSERT stays within the limit on the parameters of a
    statement and the table has an id left for each element; a batch that
    is too large for its statement, or has an element that names an id in
    use or an id above 2^63 - 1, is not. *)
Theorem C10_batch_create_skips_validation
    (L : Limits) (now : Time) (evs : list Event) (db : DB) :
  evs <> [] ->
  let answer := batchCreateEventsHandler now (Some evs) db in
  is_validation_error answer.1 = false /\
  (answer.1 = JSONBatch (Z.of_nat (length evs)) \/
   answer = (JSONError StatusInternalServerError
                       "Failed to create events in batch", db)) /\
  (forall n,
      answer.1 = JSONBatch n ->
      forall e, e ∈ evs ->
        exists row,
          events answer.2 !! ID row = Some row /\
          events db !! ID row = None /\
          row = stamped now (ID row) e) /\
  (Forall (fun e => ID e = 0%N) evs ->
   batch_fits evs = true ->
   Z.of_nat (length evs) <= ids_left db ->
      answer.1 = JSONBatch (Z.of_nat (length evs))) /\
  ((batch_fits evs = false \/
    exists e, e ∈ evs /\ ID e <> 0%N /\
              (is_Some (events db !! ID e) \/ MaxInt64 < Z.of_N (ID e))) ->
      answer = (JSONError StatusInternalServerError
                          "Failed to create events in batch", db)) /\
  (forall e, e ∈ evs ->
      Title e = EmptyString \/ IsZero (Date e) = true ->
      is_validation_error (createEventHandler now (Some e) db).1 = true).
Proof.
  intros Hne answer. subst answer. unfold batchCreateEventsHandler.
  assert ((Z.of_nat (length evs) =? 0) = false) as ->.
  { destruct evs; [done|]. simpl. lia. }
  split_and!.
  - by destruct (CreateSlice now evs db) as [|[stored db']].
  - destruct (CreateSlice now evs db) as [|[stored db']] eqn:E; [by right|].
    left. apply CreateSlice_inr in E as [_ E].
    apply insert_all_stored in E as [Hlen _]. cbn. by rewrite Hlen.
  - intros n Hn.
    destruct (CreateSlice now evs db) as [|[stored db']] eqn:E;
      cbn in *; [discriminate|].
    apply CreateSlice_inr in E as [_ E].
    apply insert_all_stored in E as [_ Hall]. exact Hall.
  - intros Hall Hfits Hroom.
    destruct (insert_all_unset_ids now evs db Hall Hroom)
      as (stored & db' & E).
    unfold CreateSlice. rewrite Hfits, E. cbn.
    apply insert_all_stored in E as [-> _]. done.
  - unfold CreateSlice. intros [Hfits|(e & He & H0 & Hbad)].
    + by rewrite Hfits.
    + destruct (batch_fits evs); [|done].
      destruct (insert_all_refused now evs db e He H0 Hbad) as [err ->]. done.
  - intros e _ Hbad. by apply create_validation_iff.
Qed.

(** A batch of two records, the first without title and date: both are in
    the table afterwards, under the ids 1 and 2. *)
Lemma C10_batch_create_skips_validation_witness :
  batch_without_title <> [] /\
  (batchCreateEventsHandler now0 (Some batch_without_title) empty_db).1
    = JSONBatch 2 /\
  forall e, e ∈ batch_without_title ->
    exists row,
      events (batchCreateEventsHandler now0 (Some batch_without_title)
                                       empty_db).2 !! ID row = Some row /\
      row = stamped now0 (ID row) e.
Proof.
  assert (batch_without_title <> []) as Hne by discriminate.
  destruct (C10_batch_create_skips_validation default_limits now0
              batch_without_title empty_db Hne)
    as (_ & _ & Hstored & Hall & _).
  split; [exact Hne|]. split.
  - apply Hall; [repeat constructor | reflexivity | vm_compute; discriminate].
  - intros e He. destruct (Hstored 2 eq_refl e He) as (row & H1 & _ & H3).
    exists row. by split.
Defined.

(** C10 as it is stated fails for a batch that names an id: the second
    element of this batch names the id the first one is given, and nothing
    of the batch is stored. *)
Lemma C10_batch_create_as_stated_fails : ~ batch_create_as_stated.
Proof.
  intros H.
  destruct (H default_limits now0 batch_with_taken_id db_pizza
              ltac:(discriminate))
    as (n & db' & Hr & _).
  vm_compute in Hr. discriminate Hr.
Qed.

(** The record without title and date, sent both ways. *)
Example batch_stores_what_create_rejects :
  let e := new_event zeroTime EmptyString EmptyString in
  (batchCreateEventsHandler now0 (Some [e]) empty_db).1 = JSONBatch 1 /\
  map Title (rows (batchCreateEventsHandler now0 (Some [e]) empty_db).2)
    = [EmptyString] /\
  createEventHandler now0 (Some e) empty_db
    = (JSONError StatusBadRequest "Title and Date are required fields", empty_db).
Proof. vm_compute. auto. Qed.

(** A batch of 4096 records without ids needs more parameters than the
    limit examples are run with allows: nothing of it is stored. *)
Example batch_too_large :
  batchCreateEventsHandler now0 (Some (repeat pizza_day 4096)) empty_db
    = (JSONError StatusInternalServerError
                 "Failed to create events in batch", empty_db) /\
  (batchCreateEventsHandler now0 (Some (repeat pizza_day 3)) empty_db).1
    = JSONBatch 3.
Proof. vm_compute. auto. Qed.

(** The table that has used the rowid 2^63 - 1 assigns no further id: a
    record without id is answered with the storage error, by create and by
    batch create. *)
Example no_id_left :
  let full := mkDB ∅ (Z.to_N MaxInt64) ∅ in
  ids_left full = 0 /\
  createEventHandler now0 (Some pizza_day) full
    = (JSONError StatusInternalServerError "Failed to create event", full) /\
  batchCreateEventsHandler now0 (Some [pizza_day]) full
    = (JSONError StatusInternalServerError
                 "Failed to create events in batch", full).
Proof. vm_compute. auto. Qed.

(** ** [strconv.Atoi] *)

Lemma parseUint_loop_range maxVal s : forall n m,
  strconv.parseUint_loop maxVal s n = (m, Some strconv.ErrRange) -> m = maxVal.
Proof.
  induction s as [|c s IH]; intros n m; simpl; [discriminate|].
  destruct (is_digit c); simpl; [|discriminate].
  destruct (MaxUint64 / 10 + 1 <=? n); [by intros [= <-]|].
  destruct (maxVal <? n * 10 + strconv.digit_val c); [by intros [= <-]|].
  apply IH.
Qed.

Lemma ParseUint_range s bits m :
  strconv.ParseUint s bits = (m, Some strconv.ErrRange) -> m = 2 ^ bits - 1.
Proof.
  unfold strconv.ParseUint. destruct s; [discriminate|].
  apply parseUint_loop_range.
Qed.

Lemma is_int_literal_body s :
  is_int_literal s = is_uint_literal (literal_body s).
Proof.
  destruct s as [|c s]; [done|]. simpl.
  by destruct (bool_decide (c = "+"%char) || bool_decide (c = "-"%char)).
Qed.

Lemma int_value_body s :
  int_value s = if literal_neg s then - decimal_value (literal_body s)
                else decimal_value (literal_body s).
Proof.
  destruct s as [|c s]; [done|]. simpl.
  case_bool_decide as Hm; [by rewrite orb_true_r|].
  by case_bool_decide.
Qed.

Lemma ParseInt_unfold s :
  strconv.ParseInt s =
  match strconv.ParseUint (literal_body s) 64 with
  | (_, Some strconv.ErrSyntax) => (0, Some strconv.ErrSyntax)
  | (un, _) =>
      if negb (literal_neg s) && (2 ^ 63 <=? un)
      then (MaxInt64, Some strconv.ErrRange)
      else if literal_neg s && (2 ^ 63 <? un)
           then (MinInt64, Some strconv.ErrRange)
           else (if literal_neg s then - un else un, None)
  end.
Proof. destruct s as [|c s]; reflexivity. Qed.

(** [Atoi] accepts exactly the integer literals of the signed 64-bit range
    and returns their value. *)
Lemma Atoi_ok s n :
  strconv.Atoi s = (n, None) <->
  is_int_literal s = true /\ int_value s = n /\ MinInt64 <= n <= MaxInt64.
Proof.
  unfold strconv.Atoi. rewrite ParseInt_unfold, is_int_literal_body, int_value_body.
  pose proof (ParseUint_ok (literal_body s) 64) as Hok.
  destruct (strconv.ParseUint (literal_body s) 64) as [un [[]|]] eqn:E.
  - split; [discriminate|]. intros (Hl & Hv & Hr).
    assert ((un, Some strconv.ErrSyntax) = (decimal_value (literal_body s), None));
      [|discriminate].
    apply Hok; [lia|]. split_and!; [done..|].
    unfold MinInt64, MaxInt64 in Hr. destruct (literal_neg s); lia.
  - apply ParseUint_range in E as ->.
    destruct (literal_neg s); simpl.
    + split; [discriminate|]. intros (Hl & Hv & Hr).
      assert ((2 ^ 64 - 1, Some strconv.ErrRange)
              = (decimal_value (literal_body s), None)); [|discriminate].
      apply Hok; [lia|]. unfold MinInt64 in Hr. split_and!; [done..|lia].
    + split; [discriminate|]. intros (Hl & Hv & Hr).
      assert ((2 ^ 64 - 1, Some strconv.ErrRange)
              = (decimal_value (literal_body s), None)); [|discriminate].
      apply Hok; [lia|]. unfold MaxInt64 in Hr. split_and!; [done..|lia].
  - destruct (proj1 (Hok un ltac:(lia)) eq_refl) as (Hl & Hv & Hr).
    pose proof (decimal_value_nonneg _ Hl) as Hnn.
    rewrite Hl, Hv. unfold MinInt64, MaxInt64.
    destruct (literal_neg s); simpl.
    + destruct (Z.ltb_spec (2 ^ 63) un).
      * split; [discriminate|]. intros (_ & <- & ?). lia.
      * split; [intros [= <-]; split_and!; [done..|lia|lia]|].
        by intros (_ & <- & _).
    + destruct (Z.leb_spec (2 ^ 63) un).
      * split; [discriminate|]. intros (_ & <- & ?). lia.
      * split; [intros [= <-]; split_and!; [done..|lia|lia]|].
        by intros (_ & <- & _).
Qed.

(** Whatever [Atoi] returns lies in the range of [int]. *)
Lemma Atoi_in_range s : MinInt64 <= (strconv.Atoi s).1 <= MaxInt64.
Proof.
  destruct (strconv.Atoi s) as [n [err|]] eqn:E; simpl.
  - revert E. unfold strconv.Atoi. rewrite ParseInt_unfold.
    destruct (strconv.ParseUint (literal_body s) 64) as [un [[]|]];
      repeat (match goal with |- context [if ?b then _ else _] => destruct b end);
      intros [= <- <-]; unfold MinInt64, MaxInt64; lia.
  - apply Atoi_ok in E. tauto.
Qed.

(** A syntax error comes with the value 0. *)
Lemma Atoi_syntax_value s n :
  strconv.Atoi s = (n, Some strconv.ErrSyntax) -> n = 0.
Proof.
  unfold strconv.Atoi. rewrite ParseInt_unfold.
  destruct (strconv.ParseUint (literal_body s) 64) as [un [[]|]];
    repeat (match goal with |- context [if ?b then _ else _] => destruct b end);
    by intros [= <-].
Qed.

(** Text that is not an integer literal is never accepted. *)
Lemma Atoi_not_literal s :
  is_int_literal s = false -> (strconv.Atoi s).2 <> None.
Proof.
  intros Hl. destruct (strconv.Atoi s) as [n [err|]] eqn:E; [done|].
  apply Atoi_ok in E as (Hl' & _). congruence.
Qed.

(** Within its first 19 bytes the digit loop cannot overflow: text of that
    length that is not a literal is a syntax error. *)
Lemma parseUint_loop_short s : forall n k,
  0 <= k -> 0 <= n < 10 ^ k -> k + Z.of_nat (String.length s) <= 19 ->
  all_bytes is_digit s = false ->
  strconv.parseUint_loop (2 ^ 64 - 1) s n = (0, Some strconv.ErrSyntax).
Proof.
  induction s as [|c s IH]; intros n k Hk Hn Hlen Hd; simpl in *; [discriminate|].
  destruct (is_digit c) eqn:Hc; simpl in *; [|done].
  pose proof (digit_val_range c Hc) as Hdv.
  assert (10 ^ k <= 10 ^ 18) as Hp18 by (apply Z.pow_le_mono_r; lia).
  assert (10 ^ (k + 1) = 10 * 10 ^ k) as Hp1 by (rewrite Z.pow_add_r; lia).
  change (10 ^ 18) with 1000000000000000000 in Hp18.
  destruct (Z.leb_spec (MaxUint64 / 10 + 1) n) as [Hcut|Hcut].
  { change (MaxUint64 / 10 + 1) with 1844674407370955162 in Hcut. lia. }
  destruct (Z.ltb_spec (2 ^ 64 - 1) (n * 10 + strconv.digit_val c)) as [Hov|Hov].
  { change (2 ^ 64 - 1) with 18446744073709551615 in Hov. lia. }
  apply (IH _ (k + 1)); [lia|lia|lia|done].
Qed.

Lemma Atoi_short_not_literal s :
  is_int_literal s = false -> (String.length s <= 19)%nat ->
  (strconv.Atoi s).2 = Some strconv.ErrSyntax.
Proof.
  intros Hl Hlen. unfold strconv.Atoi. rewrite ParseInt_unfold.
  rewrite is_int_literal_body in Hl.
  assert (String.length (literal_body s) <= 19)%nat as Hlen'.
  { destruct s as [|c s]; simpl in *; [lia|].
    destruct (bool_decide (c = "+"%char) || bool_decide (c = "-"%char));
      simpl; lia. }
  assert (strconv.ParseUint (literal_body s) 64 = (0, Some strconv.ErrSyntax))
    as ->; [|done].
  unfold strconv.ParseUint, is_uint_literal in *.
  destruct (literal_body s) as [|c b] eqn:Hb; [done|].
  unfold str_eqb in Hl. rewrite bool_decide_eq_false_2 in Hl by discriminate.
  simpl negb in Hl. rewrite andb_true_l in Hl.
  apply (parseUint_loop_short _ 0 0); [lia|lia|lia|done].
Qed.

(** ** Page arithmetic *)

Lemma wrap64_id z : MinInt64 <= z <= MaxInt64 -> wrap64 z = z.
Proof.
  unfold wrap64, MinInt64, MaxInt64. intros H.
  rewrite Z.mod_small; lia.
Qed.

(** An intermediate result that wraps does no harm when the final one fits:
    [wrap64] is a congruence modulo 2^64. *)
Lemma wrap64_sub_l a b : wrap64 (wrap64 a - b) = wrap64 (a - b).
Proof.
  unfold wrap64. f_equal.
  replace ((a + 2 ^ 63) mod 2 ^ 64 - 2 ^ 63 - b + 2 ^ 63)
    with ((a + 2 ^ 63) mod 2 ^ 64 - b) by lia.
  rewrite Zminus_mod_idemp_l. f_equal. lia.
Qed.

Lemma skip_rows_drop {A} (l : list A) : forall n,
  skip_rows n l = drop (Z.to_nat n) l.
Proof.
  induction l as [|x l IH]; intros n; simpl; [by rewrite drop_nil|].
  destruct (Z.leb_spec n 0).
  - by replace (Z.to_nat n) with 0%nat by lia.
  - rewrite IH. replace (Z.to_nat n) with (S (Z.to_nat (n - 1))) by lia. done.
Qed.

Lemma first_rows_take {A} (l : list A) : forall n,
  first_rows n l = take (Z.to_nat n) l.
Proof.
  induction l as [|x l IH]; intros n; simpl; [by rewrite take_nil|].
  destruct (Z.leb_spec n 0).
  - by replace (Z.to_nat n) with 0%nat by lia.
  - rewrite IH. replace (Z.to_nat n) with (S (Z.to_nat (n - 1))) by lia. done.
Qed.

Lemma Limit_Offset_take_drop {A} limit offset (l : list A) :
  0 <= limit ->
  Limit_Offset limit offset l = take (Z.to_nat limit) (drop (Z.to_nat offset) l).
Proof.
  intros H. unfold Limit_Offset.
  destruct (Z.ltb_spec limit 0); [lia|].
  by rewrite first_rows_take, skip_rows_drop.
Qed.

Lemma page_offset_exact page limit :
  1 <= page <= MaxInt64 -> 1 <= limit ->
  (page - 1) * limit <= MaxInt64 ->
  page_offset page limit = (page - 1) * limit.
Proof.
  intros Hp Hl Hfit. unfold page_offset, int_mul, int_sub.
  rewrite (wrap64_id (page - 1)) by (unfold MinInt64, MaxInt64 in *; lia).
  apply wrap64_id. unfold MinInt64 in *. nia.
Qed.

Lemma ceil_div_add a b :
  0 < b -> (a + b - 1) / b = ceil_div a b.
Proof.
  intros Hb. unfold ceil_div.
  pose proof (Z.div_mod (- a) b ltac:(lia)) as Hdm.
  pose proof (Z.mod_pos_bound (- a) b Hb) as Hr.
  symmetry. apply (Z.div_unique _ _ _ (b - 1 - (- a) mod b)); lia.
Qed.

Lemma total_pages_exact total limit :
  0 <= total -> 1 <= limit <= MaxInt64 ->
  total + limit - 1 <= MaxInt64 ->
  total_pages total limit = ceil_div total limit.
Proof.
  intros Ht Hl Hfit. unfold total_pages, int_div, int_sub, int_add.
  rewrite wrap64_sub_l.
  rewrite (wrap64_id (total + limit - 1)) by (unfold MinInt64, MaxInt64 in *; lia).
  rewrite Z.quot_div_nonneg by lia.
  rewrite ceil_div_add by lia.
  apply wrap64_id.
  rewrite <- ceil_div_add by lia.
  assert (0 <= (total + limit - 1) / limit) by (apply Z.div_pos; lia).
  assert ((total + limit - 1) / limit <= total + limit - 1)
    by (apply Z.div_le_upper_bound; nia).
  unfold MinInt64, MaxInt64 in *. lia.
Qed.

(** ** Coercion of the page and page-size parameters *)

Lemma Query_nonempty raw dflt : raw <> EmptyString -> Query raw dflt = raw.
Proof. intros H. unfold Query, str_eqb. by rewrite bool_decide_eq_false_2. Qed.

Lemma not_literal_nonempty s : is_int_literal s = true -> s <> EmptyString.
Proof. by destruct s. Qed.

Lemma atoi_or_coerces dflt dstr :
  1 <= dflt <= MaxInt64 -> atoi_or dflt dstr = dflt ->
  coerces (fun raw => atoi_or dflt (Query raw dstr)) dflt true.
Proof.
  intros Hd Hdef. unfold coerces. split_and!.
  - done.
  - intros raw Hl Hr. rewrite Query_nonempty by by apply not_literal_nonempty.
    unfold atoi_or.
    by rewrite (proj2 (Atoi_ok raw (int_value raw)) (conj Hl (conj eq_refl Hr))).
  - intros raw Hl _. destruct (decide (raw = EmptyString)) as [->|Hne]; [done|].
    rewrite Query_nonempty by done. unfold atoi_or.
    pose proof (Atoi_not_literal raw Hl).
    by destruct (strconv.Atoi raw) as [n [err|]].
  - intros raw He. destruct (decide (raw = EmptyString)) as [->|Hne]; [done|].
    rewrite Query_nonempty by done. unfold atoi_or.
    by destruct (strconv.Atoi raw) as [n [err|]].
  - intros _ raw He. destruct (decide (raw = EmptyString)) as [->|Hne]; [done|].
    rewrite Query_nonempty by done. unfold atoi_or.
    by destruct (strconv.Atoi raw) as [n [err|]].
  - intros raw. unfold atoi_or.
    pose proof (Atoi_in_range (Query raw dstr)).
    destruct (strconv.Atoi (Query raw dstr)) as [n [err|]]; simpl in *; [lia|].
    destruct (Z.ltb_spec n 1); lia.
Qed.

Lemma atoi_unchecked_or_coerces dflt dstr :
  1 <= dflt <= MaxInt64 -> atoi_unchecked_or dflt dstr = dflt ->
  coerces (fun raw => atoi_unchecked_or dflt (Query raw dstr)) dflt false.
Proof.
  intros Hd Hdef.
  assert (Hsyn : forall raw, (strconv.Atoi raw).2 = Some strconv.ErrSyntax ->
                   atoi_unchecked_or dflt (Query raw dstr) = dflt).
  { intros raw He. destruct (decide (raw = EmptyString)) as [->|Hne]; [done|].
    rewrite Query_nonempty by done. unfold atoi_unchecked_or.
    destruct (strconv.Atoi raw) as [n err] eqn:E. simpl in *. subst err.
    by rewrite (Atoi_syntax_value _ _ E). }
  unfold coerces. split_and!.
  - done.
  - intros raw Hl Hr. rewrite Query_nonempty by by apply not_literal_nonempty.
    unfold atoi_unchecked_or.
    by rewrite (proj2 (Atoi_ok raw (int_value raw)) (conj Hl (conj eq_refl Hr))).
  - intros raw Hl Hlen. apply Hsyn. by apply Atoi_short_not_literal.
  - apply Hsyn.
  - discriminate.
  - intros raw. unfold atoi_unchecked_or.
    pose proof (Atoi_in_range (Query raw dstr)).
    destruct (Z.ltb_spec (strconv.Atoi (Query raw dstr)).1 1); lia.
Qed.

(** ** The byte order of strings *)

Lemma byte_of_inj x y : byte_of x = byte_of y -> x = y.
Proof.
  unfold byte_of. intros H. apply N2Z.inj in H.
  rewrite <- (ascii_N_embedding x), <- (ascii_N_embedding y). by rewrite H.
Qed.

Lemma str_ltb_irrefl a : str_ltb a a = false.
Proof.
  induction a as [|x a IH]; simpl; [done|].
  rewrite IH, Z.ltb_irrefl. by rewrite andb_false_r.
Qed.

Lemma str_ltb_trans a : forall b c,
  str_ltb a b = true -> str_ltb b c = true -> str_ltb a c = true.
Proof.
  induction a as [|x a IH]; intros [|y b] [|z c]; simpl; try done.
  rewrite !orb_true_iff, !andb_true_iff, !Z.ltb_lt, !Z.eqb_eq.
  intros [Hxy|[Hxy Hab]] [Hyz|[Hyz Hbc]]; try (left; lia).
  right. split; [lia|]. eapply IH; eauto.
Qed.

Lemma str_ltb_trichotomy a : forall b,
  a <> b -> str_ltb a b = false -> str_ltb b a = true.
Proof.
  induction a as [|x a IH]; intros [|y b] Hne; simpl; try done.
  rewrite orb_false_iff, andb_false_iff, orb_true_iff, andb_true_iff,
          !Z.ltb_ge, !Z.ltb_lt, !Z.eqb_neq, Z.eqb_eq.
  intros [Hge [Hneq|Hab]]; [left; lia|].
  destruct (decide (byte_of x = byte_of y)) as [Heq|Hneq]; [|left; lia].
  right. split; [done|]. apply IH; [|done].
  intros ->. apply byte_of_inj in Heq. congruence.
Qed.

Lemma str_ltb_asym a b : str_ltb a b = true -> str_ltb b a = false.
Proof.
  intros H. destruct (str_ltb b a) eqn:E; [|done].
  pose proof (str_ltb_trans _ _ _ H E) as Hc. by rewrite str_ltb_irrefl in Hc.
Qed.

(** ** [ORDER BY] *)

Section OrderByFacts.
Context {A : Type} (leb : A -> A -> bool).

Lemma insert_sorted_perm x l : Permutation (x :: l) (insert_sorted leb x l).
Proof.
  induction l as [|y l IH]; simpl; [done|].
  destruct (leb x y); [done|].
  rewrite <- IH. apply perm_swap.
Qed.

Lemma order_by_perm l : Permutation l (order_by leb l).
Proof.
  induction l as [|x l IH]; simpl; [done|].
  rewrite <- insert_sorted_perm. by constructor.
Qed.

Lemma order_by_length l : length (order_by leb l) = length l.
Proof. symmetry. apply Permutation_length, order_by_perm. Qed.

Lemma elem_of_order_by x l : x ∈ order_by leb l <-> x ∈ l.
Proof. by rewrite <- (order_by_perm l). Qed.

Hypothesis leb_total : forall a b, leb a b = true \/ leb b a = true.

Lemma insert_sorted_sorted x l :
  Sorted (fun a b => leb a b = true) l ->
  Sorted (fun a b => leb a b = true) (insert_sorted leb x l).
Proof.
  induction l as [|y l IH]; intros Hs; simpl.
  - repeat constructor.
  - destruct (leb x y) eqn:Hxy.
    + constructor; [done|]. by constructor.
    + apply Sorted_inv in Hs as [Hs Hhd].
      constructor; [by apply IH|].
      destruct l as [|z l]; simpl.
      * constructor. destruct (leb_total x y); congruence.
      * destruct (leb x z).
        -- constructor. destruct (leb_total x y); congruence.
        -- constructor. by inversion Hhd.
Qed.

Lemma order_by_sorted l : Sorted (fun a b => leb a b = true) (order_by leb l).
Proof.
  induction l as [|x l IH]; simpl; [constructor|].
  by apply insert_sorted_sorted.
Qed.

(** The executable order is one of the answers SQL allows. *)
Lemma order_by_sql_ordered l : sql_ordered leb l (order_by leb l).
Proof. split; [apply order_by_perm | apply order_by_sorted]. Qed.
End OrderByFacts.

Lemma date_desc_total a b : date_desc a b = true \/ date_desc b a = true.
Proof.
  unfold date_desc.
  destruct (str_ltb (t_text (Date a)) (t_text (Date b))) eqn:E; [|by left].
  right. by rewrite (str_ltb_asym _ _ E).
Qed.

(** The arrangement examples are run with is one SQL allows. *)
Lemma insertion_order_respects : respects_order insertion_order.
Proof. intros A leb limit offset l Ht. by apply order_by_sql_ordered. Qed.

(** Whatever arrangement SQLite takes, it holds the selected rows. *)
Section ArrangementFacts.
Context (O : OrderBy) (HO : respects_order O).
Context {A : Type} (leb : A -> A -> bool).
Hypothesis leb_total : forall a b, leb a b = true \/ leb b a = true.

Lemma sql_order_by_perm limit offset l :
  Permutation l (sql_order_by leb limit offset l).
Proof. by apply HO. Qed.

Lemma sql_order_by_length limit offset l :
  length (sql_order_by leb limit offset l) = length l.
Proof. symmetry. apply Permutation_length, sql_order_by_perm. Qed.

Lemma elem_of_sql_order_by limit offset x l :
  x ∈ sql_order_by leb limit offset l <-> x ∈ l.
Proof. by rewrite <- (sql_order_by_perm limit offset l). Qed.

End ArrangementFacts.

(** ** Pages *)

Lemma Limit_Offset_map {A B} (f : A -> B) limit offset (l : list A) :
  map f (Limit_Offset limit offset l) = Limit_Offset limit offset (map f l).
Proof.
  unfold Limit_Offset. rewrite !first_rows_take, !skip_rows_drop.
  change (map f) with (fmap (M := list) f).
  destruct (limit <? 0); by rewrite ?fmap_take, fmap_drop.
Qed.


Lemma page_checked_range raw : 1 <= page_checked raw <= MaxInt64.
Proof. apply (atoi_or_coerces 1 "1"); [unfold MaxInt64; lia | done]. Qed.
Lemma limit_checked_range raw : 1 <= limit_checked raw <= MaxInt64.
Proof. apply (atoi_or_coerces 20 "20"); [unfold MaxInt64; lia | done]. Qed.
Lemma page_unchecked_range raw : 1 <= page_unchecked raw <= MaxInt64.
Proof. apply (atoi_unchecked_or_coerces 1 "1"); [unfold MaxInt64; lia | done]. Qed.
Lemma limit_unchecked_range raw : 1 <= limit_unchecked raw <= MaxInt64.
Proof. apply (atoi_unchecked_or_coerces 20 "20"); [unfold MaxInt64; lia | done]. Qed.

Section PageFacts.
Context (O : OrderBy) (HO : respects_order O).

(** The rows a statement with ORDER BY date desc takes its window from are a
    complete ordered result. *)
Lemma sql_order_by_complete limit offset selected :
  complete_result selected (sql_order_by date_desc limit offset selected).
Proof. apply HO, date_desc_total. Qed.



End PageFacts.





(** The total-pages value wraps as well: two events at page size 2^63 - 1
    are reported as -1 pages. *)
Example last_page_wraps :
  total_pages 2 MaxInt64 = -1 /\ ceil_div 2 MaxInt64 = 1.
Proof. vm_compute. auto. Qed.

(** In [getAllEventsHandler] the error of [Atoi] is dropped, so text that
    the parser gives up on as out of range before reaching a byte that is no
    digit is not coerced: it stands for page 2^63 - 1. *)
Example unchecked_page_out_of_range :
  page_unchecked "99999999999999999999x" = MaxInt64 /\
  page_checked "99999999999999999999x" = 1.
Proof. vm_compute. auto. Qed.

(** ** Date filters of the listing *)

Lemma checked_year_applied y :
  parses_in MinInt64 MaxInt64 y -> checked_year y = [year_cond y].
Proof.
  intros [Hl Hr]. unfold checked_year, str_eqb.
  rewrite bool_decide_eq_false_2 by by apply not_literal_nonempty.
  by rewrite (proj2 (Atoi_ok y (int_value y)) (conj Hl (conj eq_refl Hr))).
Qed.

Lemma checked_year_ignored y :
  ~ parses_in MinInt64 MaxInt64 y -> checked_year y = checked_year EmptyString.
Proof.
  intros Hno. unfold checked_year.
  destruct (str_eqb y EmptyString); [done|].
  destruct (strconv.Atoi y) as [n [err|]] eqn:E; [done|].
  apply Atoi_ok in E as (Hl & <- & Hr). destruct Hno. by split.
Qed.

Lemma checked_component_applied lo hi cond s :
  parses_in lo hi s -> MinInt64 <= lo -> hi <= MaxInt64 ->
  exists formatted, checked_component lo hi cond s = [cond formatted].
Proof.
  intros [Hl Hr] Hlo Hhi. unfold checked_component, str_eqb.
  rewrite bool_decide_eq_false_2 by by apply not_literal_nonempty.
  assert (MinInt64 <= int_value s <= MaxInt64) as Hr64 by lia.
  rewrite (proj2 (Atoi_ok s (int_value s)) (conj Hl (conj eq_refl Hr64))).
  destruct (Z.leb_spec lo (int_value s)); [|lia].
  destruct (Z.leb_spec (int_value s) hi); [|lia].
  simpl. eauto.
Qed.

Lemma checked_component_ignored lo hi cond s :
  ~ parses_in lo hi s ->
  checked_component lo hi cond s = checked_component lo hi cond EmptyString.
Proof.
  intros Hno. unfold checked_component.
  destruct (str_eqb s EmptyString); [done|].
  destruct (strconv.Atoi s) as [n [err|]] eqn:E; [done|].
  apply Atoi_ok in E as (Hl & <- & Hr).
  destruct (Z.leb_spec lo (int_value s)); [|done].
  destruct (Z.leb_spec (int_value s) hi); [|done].
  destruct Hno. split; [done|lia].
Qed.

(** The older listing handler does what the specification says of the date
    filters: a value that does not parse, or is out of range, changes nothing
    about the answer, and a value that parses and is in range contributes a
    condition. *)
Lemma listEventsInline_ignores_invalid pageRaw limitRaw y m d db :
  (~ parses_in MinInt64 MaxInt64 y ->
     listEventsInline pageRaw limitRaw y m d db
     = listEventsInline pageRaw limitRaw EmptyString m d db) /\
  (~ parses_in 1 12 m ->
     listEventsInline pageRaw limitRaw y m d db
     = listEventsInline pageRaw limitRaw y EmptyString d db) /\
  (~ parses_in 1 31 d ->
     listEventsInline pageRaw limitRaw y m d db
     = listEventsInline pageRaw limitRaw y m EmptyString db).
Proof.
  unfold listEventsInline. split_and!; intros Hno.
  - by rewrite (checked_year_ignored y Hno).
  - by rewrite (checked_component_ignored 1 12 month_cond m Hno).
  - by rewrite (checked_component_ignored 1 31 day_cond d Hno).
Qed.

(** C1 — date filters that do not parse or are out of range.
    [getAllEventsHandler] of [main.go] uses every non-empty filter value as
    it is: for year 2021 and month 13 it selects no event at all, whereas
    with the month absent it returns the two events of 2021; the same holds
    for a month that is not a number.  The older handler for the same route
    returns the two events of 2021 for that request, and ignores such a
    value in every request. *)
Theorem C1_invalid_month_filter_is_applied :
  getAllEventsHandler EmptyString EmptyString "2021" "13" EmptyString db_2021
    = PaginatedEventsResponse [] (mkPaginationData 1 20 0 0) /\
  getAllEventsHandler EmptyString EmptyString "2021" "xx" EmptyString db_2021
    = PaginatedEventsResponse [] (mkPaginationData 1 20 0 0) /\
  (exists e1 e2,
      getAllEventsHandler EmptyString EmptyString "2021" EmptyString EmptyString
                          db_2021
        = PaginatedEventsResponse [e1; e2] (mkPaginationData 1 20 2 1) /\
      listEventsInline EmptyString EmptyString "2021" "13" EmptyString db_2021
        = PaginatedEventsResponse [e1; e2] (mkPaginationData 1 20 2 1) /\
      Title e1 = "Legal tender" /\ Title e2 = "Taproot locked in") /\
  ~ parses_in 1 12 "13" /\ ~ parses_in 1 12 "xx" /\
  (forall pageRaw limitRaw y m d db,
      ~ parses_in 1 12 m ->
      listEventsInline pageRaw limitRaw y m d db
      = listEventsInline pageRaw limitRaw y EmptyString d db).
Proof.
  split_and!.
  - vm_compute. reflexivity.
  - vm_compute. reflexivity.
  - eexists _, _. vm_compute. split_and!; reflexivity.
  - intros [_ H]. vm_compute in H. destruct H as [_ H]. by apply H.
  - intros [H _]. vm_compute in H. discriminate.
  - intros. by apply listEventsInline_ignores_invalid.
Qed.

(** ** The tag filter *)

















(** [getEventsByTagHandler] on a tag that is not empty. *)
Lemma getEventsByTagHandler_unfold (O : OrderBy) tag pageRaw limitRaw db :
  tag <> EmptyString ->
  getEventsByTagHandler tag pageRaw limitRaw db
  = let limit := limit_checked limitRaw in
    let offset := page_offset (page_checked pageRaw) limit in
    let matching := select_where [tag_cond (tag_search_term tag)] db in
    PaginatedEventsResponse
      (Limit_Offset limit offset (sql_order_by date_desc limit offset matching))
      (mkPaginationData (page_checked pageRaw) limit
         (Z.of_nat (length matching))
         (total_pages (Z.of_nat (length matching)) limit)).
Proof.
  intros Ht. unfold getEventsByTagHandler, str_eqb.
  by rewrite bool_decide_eq_false_2 by done.
Qed.



(** ** Search requests *)


(** A search for a word of the one stored title. *)
Example search_is_refused :
  ftsSearchHandler (engine := example_engine) "Pizza" EmptyString EmptyString
                   db_pizza
    = JSONError StatusInternalServerError "Failed to execute search" /\
  map ID (fts_join (engine := example_engine) (sanitizedQuery "Pizza") db_pizza)
    = [1%N] /\
  prepares searchSQL_columns = false /\
  prepares ["id"; "date"; "title"; "description"; "tags"; "media"] = true.
Proof. vm_compute. auto. Qed.

(** ** What reaches the index as a query *)

Lemma replace_quote_unfold c s :
  strings.replace_from quote_str (quote_str +:+ quote_str) 0 (String c s) =
  if bool_decide (dquote = c)
  then String dquote (String dquote
         (strings.replace_from quote_str (quote_str +:+ quote_str) 0 s))
  else String c (strings.replace_from quote_str (quote_str +:+ quote_str) 0 s).
Proof.
  simpl. destruct (bool_decide (dquote = c)); reflexivity.
Qed.

(** A query without quotation marks is passed on unchanged. *)
Lemma sanitizedQuery_no_quote q :
  has_byte (fun c => bool_decide (dquote = c)) q = false -> sanitizedQuery q = q.
Proof.
  unfold sanitizedQuery, strings.ReplaceAll.
  induction q as [|c q IH]; intros H; [done|].
  simpl in H. apply orb_false_iff in H as [Hc Hq].
  rewrite replace_quote_unfold, Hc. by rewrite IH.
Qed.

Lemma append_cons a s1 s2 : String a s1 +:+ s2 = String a (s1 +:+ s2).
Proof. reflexivity. Qed.

Lemma snoc_app acc c s : snoc acc c +:+ s = acc +:+ String c s.
Proof.
  unfold snoc. induction acc as [|a acc IH]; [done|].
  by rewrite !append_cons, IH.
Qed.

Lemma append_empty_r s : s +:+ EmptyString = s.
Proof. induction s as [|c s IH]; [done|]. by rewrite append_cons, IH. Qed.

(** Text in quotation marks with its quotation marks doubled is one string
    token, whatever the text. *)
Lemma lex_string_literal text : forall acc,
  lex_from (InString acc)
    (strings.replace_from quote_str (quote_str +:+ quote_str) 0 text +:+ quote_str)
  = Some [TString (acc +:+ text)].
Proof.
  induction text as [|c text IH]; intros acc.
  - simpl. by rewrite append_empty_r.
  - rewrite replace_quote_unfold. case_bool_decide as Hc.
    + subst c. rewrite !append_cons. simpl.
      rewrite IH. simpl. by rewrite snoc_app.
    + rewrite append_cons. simpl.
      rewrite bool_decide_eq_false_2 by congruence. simpl.
      rewrite IH. simpl. by rewrite snoc_app.
Qed.

Lemma fts5_string_literal_tokens text :
  fts5_tokens (fts5_string_literal text) = Some [TString text].
Proof.
  unfold fts5_tokens, fts5_string_literal, quoted, strings.ReplaceAll.
  change (quote_str +:+ ?s) with (String dquote s).
  simpl. by rewrite (lex_string_literal text EmptyString).
Qed.

(** C6 — what the search handler passes to MATCH.  The handler doubles the
    quotation marks of the query and changes nothing else, and it does not
    put the result in quotation marks: a query without quotation marks
    reaches the index unchanged, so that [*], [:], [-], parentheses and the
    words AND, OR and NOT are read as operators of the query language
    ([bitcoin*] is a prefix query, [a OR b] a disjunction), and a byte the
    language does not know is a syntax error ([what?]); a doubled quotation
    mark outside a string is read as an empty string, not as a quotation
    mark.  Put in quotation marks, the same text would be read as one
    string, for every text. *)
Theorem C6_query_operators_reach_the_index :
  sanitizedQuery "bitcoin*" = "bitcoin*" /\
  fts5_tokens (sanitizedQuery "bitcoin*")
    = Some [TBareword "bitcoin"; TSpecial "*"%char] /\
  fts5_tokens (sanitizedQuery "a OR b") = Some [TBareword "a"; TOr; TBareword "b"] /\
  fts5_tokens (sanitizedQuery "title:x - (y)")
    = Some [TBareword "title"; TSpecial ":"%char; TBareword "x";
            TSpecial "-"%char; TSpecial "("%char; TBareword "y";
            TSpecial ")"%char] /\
  fts5_tokens (sanitizedQuery "what?") = None /\
  fts5_tokens (sanitizedQuery ("say " +:+ quoted "hi"))
    = Some [TBareword "say"; TString EmptyString; TBareword "hi";
            TString EmptyString] /\
  reads_as_text (sanitizedQuery "bitcoin*") = false /\
  (forall q,
      has_byte (fun c => bool_decide (dquote = c)) q = false ->
      sanitizedQuery q = q) /\
  (forall text, fts5_tokens (fts5_string_literal text) = Some [TString text]).
Proof.
  split_and!; try (vm_compute; reflexivity).
  - apply sanitizedQuery_no_quote.
  - apply fts5_string_literal_tokens.
Qed.

(** ** Grouping and counting the tags *)

#[local] Instance tag_lt_trans : Transitive tag_lt.
Proof. intros a b c. unfold tag_lt. apply str_ltb_trans. Qed.

Lemma count_insert_head x l ti :
  Sorted tag_lt l -> HdRel tag_lt ti l -> str_ltb (Tag ti) x = true ->
  HdRel tag_lt ti (count_insert x l).
Proof.
  intros Hs Hhd Hlt. destruct l as [|tj l]; simpl.
  - by constructor.
  - destruct (str_eqb x (Tag tj)); [by constructor|].
    destruct (str_ltb x (Tag tj)); [by constructor|].
    constructor. by inversion Hhd.
Qed.

Lemma count_insert_sorted x l :
  Sorted tag_lt l -> Sorted tag_lt (count_insert x l).
Proof.
  induction l as [|ti l IH]; intros Hs; simpl.
  - repeat constructor.
  - apply Sorted_inv in Hs as [Hs Hhd].
    destruct (str_eqb x (Tag ti)) eqn:Heq.
    + apply str_eqb_true in Heq as ->. constructor; [done|].
      destruct Hhd; constructor. done.
    + destruct (str_ltb x (Tag ti)) eqn:Hlt.
      * constructor; [by constructor|]. by constructor.
      * constructor; [by apply IH|].
        apply count_insert_head; [done..|].
        apply str_ltb_trichotomy; [|done].
        intros ->. unfold str_eqb in Heq.
        by rewrite bool_decide_eq_true_2 in Heq.
Qed.

Lemma group_count_sorted entries : Sorted tag_lt (group_count entries).
Proof.
  induction entries as [|x es IH]; simpl; [constructor|].
  by apply count_insert_sorted.
Qed.

Lemma sorted_tags_NoDup l : Sorted tag_lt l -> NoDup (map Tag l).
Proof.
  intros Hs. apply Sorted_StronglySorted in Hs; [|apply _].
  induction Hs as [|ti l Hs IH Hall]; simpl; constructor; [|done].
  rewrite list_elem_of_fmap. intros (tj & Heq & Hin).
  rewrite Forall_forall in Hall. specialize (Hall tj Hin).
  unfold tag_lt in Hall. rewrite Heq, str_ltb_irrefl in Hall. done.
Qed.

Lemma tag_count_insert t x l :
  tag_count t (count_insert x l)
  = tag_count t l + (if str_eqb x t then 1 else 0).
Proof.
  induction l as [|ti l IH]; simpl.
  - destruct (str_eqb x t); lia.
  - destruct (str_eqb x (Tag ti)) eqn:Heq.
    + apply str_eqb_true in Heq as <-. simpl.
      destruct (str_eqb x t); lia.
    + destruct (str_ltb x (Tag ti)); simpl.
      * destruct (str_eqb x t), (str_eqb (Tag ti) t); lia.
      * rewrite IH. destruct (str_eqb (Tag ti) t); lia.
Qed.

Lemma tag_count_group t entries :
  tag_count t (group_count entries) = occurrences t entries.
Proof.
  unfold occurrences.
  induction entries as [|x es IH]; simpl; [done|].
  rewrite tag_count_insert, IH. destruct (str_eqb x t); simpl; lia.
Qed.

Lemma count_insert_positive x l :
  Forall (fun ti => 1 <= Count ti) l ->
  Forall (fun ti => 1 <= Count ti) (count_insert x l).
Proof.
  induction l as [|ti l IH]; intros Hall; simpl.
  - repeat constructor. simpl. lia.
  - apply Forall_cons in Hall as [Hti Hl].
    destruct (str_eqb x (Tag ti)); [constructor; [simpl; lia|done]|].
    destruct (str_ltb x (Tag ti)); repeat constructor; simpl; auto; lia.
Qed.

Lemma group_count_positive entries :
  Forall (fun ti => 1 <= Count ti) (group_count entries).
Proof.
  induction entries as [|x es IH]; simpl; [constructor|].
  by apply count_insert_positive.
Qed.

(** In a list without repeated tags the count of a listed pair is the count
    the list reports for its tag. *)
Lemma tag_count_listed l ti :
  NoDup (map Tag l) -> ti ∈ l -> tag_count (Tag ti) l = Count ti.
Proof.
  induction l as [|tj l IH]; intros Hnd Hin; [inversion Hin|].
  simpl in Hnd. apply NoDup_cons in Hnd as [Hnot Hnd].
  assert (forall t, t ∉ map Tag l -> tag_count t l = 0) as Hzero.
  { clear. intros t. induction l as [|a l IH]; simpl; [done|].
    intros Hn. apply not_elem_of_cons in Hn as [Hne Hn].
    unfold str_eqb. rewrite bool_decide_eq_false_2 by congruence. auto. }
  apply elem_of_cons in Hin as [->|Hin]; simpl.
  - unfold str_eqb. rewrite bool_decide_eq_true_2 by done.
    rewrite Hzero by done. lia.
  - unfold str_eqb. rewrite bool_decide_eq_false_2.
    + by apply IH.
    + intros Heq. apply Hnot. rewrite Heq.
      apply list_elem_of_fmap. eauto.
Qed.

(** ** Rows and elements that contribute no tag *)

Lemma trim_left_empty s : trim_left s = EmptyString <-> all_bytes is_space s = true.
Proof.
  induction s as [|c s IH]; simpl; [done|].
  destruct (is_space c); simpl; [done|]. split; discriminate.
Qed.

Lemma trim_right_empty s : trim_right s = EmptyString <-> all_bytes is_space s = true.
Proof.
  induction s as [|c s IH]; simpl; [done|].
  destruct (is_space c); simpl.
  - destruct (str_eqb (trim_right s) EmptyString) eqn:E.
    + apply str_eqb_true in E. rewrite <- IH. done.
    + rewrite <- IH. split; [discriminate|].
      intros H. rewrite H in E. done.
  - split; discriminate.
Qed.

Lemma all_space_trim_left s :
  all_bytes is_space (trim_left s) = all_bytes is_space s.
Proof.
  induction s as [|c s IH]; simpl; [done|].
  destruct (is_space c) eqn:E; simpl; [done|]. by rewrite E.
Qed.

(** [TRIM(x) != ''] holds unless [x] is empty or made of spaces only. *)
Lemma sql_TRIM_empty s :
  str_eqb (sql_TRIM s) EmptyString = all_bytes is_space s.
Proof.
  unfold sql_TRIM.
  destruct (all_bytes is_space s) eqn:E.
  - apply str_eqb_true, trim_right_empty. by rewrite all_space_trim_left.
  - unfold str_eqb. apply bool_decide_eq_false_2.
    rewrite trim_right_empty, all_space_trim_left, E. done.
Qed.

Lemma row_tags_skipped `{Json1} tags :
  tags = EmptyString \/ tags = "[]" \/ json_valid tags = false
  \/ json_type_is_array tags = false ->
  row_tags tags = [].
Proof.
  unfold row_tags, tags_row_ok.
  intros [->|[->|[Hv|Ha]]]; [done|done| |].
  - by rewrite Hv, andb_false_r.
  - by rewrite Ha, andb_false_r.
Qed.

Lemma tag_of_string `{Json1} s :
  tag_of_element (JString s)
  = if all_bytes is_space s then None else Some (sql_LOWER s).
Proof. unfold tag_of_element. simpl. by rewrite sql_TRIM_empty. Qed.

(** What the SELECT of the tag list gives for a table: one pair for each
    lowercased tag, in ascending order, with the number of its occurrences. *)
Lemma tags_select_spec `{Json1} db :
  Sorted tag_lt (group_count (tag_entries db)) /\
  NoDup (map Tag (group_count (tag_entries db))) /\
  (forall t,
      tag_count t (group_count (tag_entries db))
      = occurrences t (tag_entries db)).
Proof.
  pose proof (group_count_sorted (tag_entries db)) as Hs.
  pose proof (sorted_tags_NoDup _ Hs) as Hnd.
  split_and!; [done|done|intros t; apply tag_count_group].
Qed.

(** C4 — the tag list.  The statement text of [getTagsHandler] goes on
    after the semicolon of its SELECT, with a comment.  The driver runs what
    follows the semicolon as a further statement and hands on the rows of
    the last one: the rows of the SELECT never reach the handler.  Whatever
    the table holds, the answer carries no pair of tag and count: its data
    is null, or the request is not answered at all.  For a table with one
    event whose tags are [Lightning] and [lightning] the SELECT gives the
    pair of [lightning] and 2, and the handler does not return it. *)
Theorem C4_tag_list_is_not_returned (J : Json1) (D : Driver) (db : DB) :
  (getTagsHandler db = Some (JSONTags None) \/ getTagsHandler db = None) /\
  (forall pairs, getTagsHandler db <> Some (JSONTags (Some pairs))) /\
  group_count (tag_entries db_lightning) = [mkTagInfo "lightning" 2] /\
  getTagsHandler db_lightning
    <> Some (JSONTags (Some [mkTagInfo "lightning" 2])).
Proof.
  unfold getTagsHandler. cbn [sqlQuery_tail].
  split_and!.
  - destruct empty_statement_returns; auto.
  - intros pairs. by destruct empty_statement_returns.
  - vm_compute. reflexivity.
  - by destruct empty_statement_returns.
Qed.

(* ===================================================================== *)
(** * Further properties of the code                                      *)
(* ===================================================================== *)

(** ** Selection of the language variant *)

Lemma lower_byte_is_r c :
  lower_byte c = "r"%char <-> c = "r"%char \/ c = "R"%char.
Proof.
  destruct c as [[] [] [] [] [] [] [] []]; vm_compute;
    (split; [intros H; try discriminate H; auto
            | intros [H|H]; try discriminate H; reflexivity]).
Qed.

Lemma lower_byte_is_u c :
  lower_byte c = "u"%char <-> c = "u"%char \/ c = "U"%char.
Proof.
  destruct c as [[] [] [] [] [] [] [] []]; vm_compute;
    (split; [intros H; try discriminate H; auto
            | intros [H|H]; try discriminate H; reflexivity]).
Qed.

Lemma ToLower_is_ru s :
  strings.ToLower s = "ru" <-> s ∈ ["ru"; "Ru"; "rU"; "RU"].
Proof.
  unfold strings.ToLower. rewrite !elem_of_cons, elem_of_nil.
  destruct s as [|c1 [|c2 [|c3 s]]]; simpl.
  - split; [discriminate | intros [H|[H|[H|[H|[]]]]]; discriminate].
  - split; [discriminate | intros [H|[H|[H|[H|[]]]]]; discriminate].
  - split.
    + intros [= H1 H2]. apply lower_byte_is_r in H1. apply lower_byte_is_u in H2.
      destruct H1 as [-> | ->], H2 as [-> | ->]; auto.
    + intros [H|[H|[H|[H|[]]]]]; injection H as -> ->; reflexivity.
  - split; [discriminate | intros [H|[H|[H|[H|[]]]]]; discriminate].
Qed.

(** X1 — [getDBInstance]: the Russian variant is selected by the language
    code [ru] written in any mix of upper and lower case, and by nothing
    else; every other code (also the empty one, and longer codes such as
    [ru-RU]) selects the English variant. *)
Theorem X1_getDBInstance_ru_in_any_case (h : Handles) (langCode : string) :
  getDBInstance h langCode
  = if bool_decide (langCode ∈ ["ru"; "Ru"; "rU"; "RU"])
    then DB_RU h else DB_EN h.
Proof.
  unfold getDBInstance, str_eqb.
  pose proof (ToLower_is_ru langCode) as H.
  repeat case_bool_decide; tauto.
Qed.

(** ** Authentication *)

Lemma byte_of_range c : 0 <= byte_of c < 256.
Proof.
  unfold byte_of. pose proof (N_ascii_bounded c). lia.
Qed.

Lemma lor_byte a b : 0 <= a < 256 -> 0 <= b < 256 -> 0 <= Z.lor a b < 256.
Proof.
  intros Ha Hb.
  assert (0 <= Z.lor a b) as H0 by (apply Z.lor_nonneg; lia).
  split; [done|].
  destruct (decide (Z.lor a b = 0)) as [->|Hne]; [lia|].
  change 256 with (2 ^ 8). apply Z.log2_lt_pow2; [lia|].
  rewrite Z.log2_lor by lia.
  assert (forall z, 0 <= z < 256 -> Z.log2 z < 8) as Hlog.
  { intros z Hz. destruct (decide (z = 0)) as [->|]; [done|].
    apply Z.log2_lt_pow2; [lia|]. change (2 ^ 8) with 256. lia. }
  pose proof (Hlog a Ha). pose proof (Hlog b Hb). lia.
Qed.

Lemma lxor_byte a b : 0 <= a < 256 -> 0 <= b < 256 -> 0 <= Z.lxor a b < 256.
Proof.
  intros Ha Hb.
  assert (0 <= Z.lxor a b) as H0 by (apply Z.lxor_nonneg; lia).
  split; [done|].
  destruct (decide (Z.lxor a b = 0)) as [->|Hne]; [lia|].
  change 256 with (2 ^ 8). apply Z.log2_lt_pow2; [lia|].
  pose proof (Z.log2_lxor a b ltac:(lia) ltac:(lia)) as Hx.
  assert (forall z, 0 <= z < 256 -> Z.log2 z < 8) as Hlog.
  { intros z Hz. destruct (decide (z = 0)) as [->|]; [done|].
    apply Z.log2_lt_pow2; [lia|]. change (2 ^ 8) with 256. lia. }
  pose proof (Hlog a Ha). pose proof (Hlog b Hb). lia.
Qed.

Lemma or_of_xors_range x : forall y v,
  0 <= v < 256 -> 0 <= subtle.or_of_xors x y v < 256.
Proof.
  induction x as [|a x IH]; intros y v Hv; simpl; [done|].
  destruct y as [|b y]; [done|].
  apply IH, lor_byte; [done|].
  apply lxor_byte; apply byte_of_range.
Qed.

Lemma or_of_xors_zero x : forall y v,
  0 <= v -> String.length x = String.length y ->
  subtle.or_of_xors x y v = 0 <-> v = 0 /\ x = y.
Proof.
  induction x as [|a x IH]; intros y v Hv Hlen; destruct y as [|b y];
    simpl in *; try discriminate.
  - tauto.
  - injection Hlen as Hlen.
    pose proof (byte_of_range a). pose proof (byte_of_range b).
    rewrite IH; [|apply Z.lor_nonneg; split; [lia|apply Z.lxor_nonneg; lia]|done].
    rewrite Z.lor_eq_0_iff, Z.lxor_eq_0_iff. split.
    + intros [[-> Hab] ->]. apply byte_of_inj in Hab as ->. done.
    + intros [-> [= -> ->]]. done.
Qed.

Lemma ConstantTimeByteEq_zero v :
  0 <= v < 256 -> subtle.ConstantTimeByteEq v 0 = if v =? 0 then 1 else 0.
Proof.
  intros Hv. unfold subtle.ConstantTimeByteEq.
  rewrite Z.lxor_0_r, Z.shiftr_div_pow2 by lia.
  destruct (v =? 0) eqn:E.
  - apply Z.eqb_eq in E as ->. reflexivity.
  - apply Z.eqb_neq in E. rewrite Z.mod_small by lia.
    apply Z.div_small. lia.
Qed.

(** [ConstantTimeCompare] tells whether the two byte strings are equal. *)
Lemma ConstantTimeCompare_eq x y :
  subtle.ConstantTimeCompare x y = if bool_decide (x = y) then 1 else 0.
Proof.
  unfold subtle.ConstantTimeCompare, len.
  destruct (Z.of_nat (String.length x) =? Z.of_nat (String.length y)) eqn:Hlen;
    simpl.
  - apply Z.eqb_eq in Hlen. apply Nat2Z.inj in Hlen.
    rewrite ConstantTimeByteEq_zero by (apply or_of_xors_range; lia).
    pose proof (or_of_xors_zero x y 0 ltac:(lia) Hlen) as Hz.
    destruct (subtle.or_of_xors x y 0 =? 0) eqn:E; case_bool_decide; try done.
    + apply Z.eqb_eq in E. tauto.
    + apply Z.eqb_neq in E. tauto.
  - apply Z.eqb_neq in Hlen. rewrite bool_decide_eq_false_2; [done|].
    intros ->. done.
Qed.

Lemma key_matches_elem_of key keys :
  key_matches key keys = bool_decide (key ∈ keys).
Proof.
  induction keys as [|k keys IH]; cbn [key_matches].
  - symmetry. apply bool_decide_eq_false_2, not_elem_of_nil.
  - rewrite ConstantTimeCompare_eq, IH.
    destruct (decide (key = k)) as [->|Hne].
    + rewrite (bool_decide_eq_true_2 (k = k)) by done. simpl.
      symmetry. apply bool_decide_eq_true_2, list_elem_of_here.
    + rewrite (bool_decide_eq_false_2 (key = k)) by done. simpl.
      apply bool_decide_ext. rewrite elem_of_cons. tauto.
Qed.

Lemma authMiddleware_spec validAPIKeys providedKey :
  authMiddleware validAPIKeys providedKey
  = if bool_decide (providedKey = EmptyString)
    then Some (JSONError StatusUnauthorized "API key required")
    else if bool_decide (providedKey ∈ validAPIKeys) then None
    else Some (JSONError StatusUnauthorized "Invalid API key").
Proof.
  unfold authMiddleware, str_eqb. by rewrite key_matches_elem_of.
Qed.

(** X2 — [authMiddleware]: a request without the header [X-API-KEY] (or
    with an empty one) is answered 401 [API key required]; a request whose
    key is, byte for byte, one of the configured keys goes on to its
    handler; every other request is answered 401 [Invalid API key].  On the
    routes of the API a request that is turned away leaves the variant as
    it was, whatever its handler would have done. *)
Theorem X2_authMiddleware_admits_configured_keys
    (validAPIKeys : list string) (providedKey : string) :
  authMiddleware validAPIKeys providedKey
  = (if bool_decide (providedKey = EmptyString)
     then Some (JSONError StatusUnauthorized "API key required")
     else if bool_decide (providedKey ∈ validAPIKeys) then None
     else Some (JSONError StatusUnauthorized "Invalid API key")) /\
  (forall handler db,
      api validAPIKeys providedKey handler db
      = if bool_decide (providedKey <> EmptyString /\ providedKey ∈ validAPIKeys)
        then handler db
        else (JSONError StatusUnauthorized
                (if bool_decide (providedKey = EmptyString)
                 then "API key required" else "Invalid API key"), db)).
Proof.
  split; [apply authMiddleware_spec|].
  intros handler db. unfold api. rewrite authMiddleware_spec.
  repeat case_bool_decide; try done; tauto.
Qed.

(** ** The API keys read at start-up *)

Lemma Split_cons s sep : exists p ps, strings.Split s sep = p :: ps.
Proof.
  destruct s as [|c s]; simpl; [eauto|].
  case_bool_decide; [eauto|].
  destruct (strings.Split s sep); eauto.
Qed.

(** All pieces satisfy [q] exactly when every byte satisfies [q] or is the
    separator. *)
Lemma Split_all_bytes q sep s :
  Forall (fun p => all_bytes q p = true) (strings.Split s sep) <->
  all_bytes (fun c => q c || bool_decide (c = sep)) s = true.
Proof.
  induction s as [|c s IH]; simpl.
  - split; [done|]. intros _. by constructor.
  - case_bool_decide as Hc.
    + rewrite orb_true_r, Forall_cons. simpl. tauto.
    + rewrite orb_false_r.
      destruct (Split_cons s sep) as (p & ps & E). rewrite E in *.
      rewrite Forall_cons in *. simpl.
      rewrite !andb_true_iff. tauto.
Qed.

Lemma Split_no_separator sep s :
  Forall (fun p => has_byte (fun c => bool_decide (c = sep)) p = false)
         (strings.Split s sep).
Proof.
  induction s as [|c s IH]; simpl.
  - by constructor.
  - case_bool_decide as Hc.
    + by constructor.
    + destruct (Split_cons s sep) as (p & ps & E). rewrite E in *.
      apply Forall_cons in IH as [Hp Hps]. constructor; [|done].
      simpl. rewrite Hp. by rewrite bool_decide_eq_false_2.
Qed.

Lemma trim_space_right_empty s :
  strings.trim_space_right s = EmptyString <->
  all_bytes strings.is_ascii_space s = true.
Proof.
  induction s as [|c s IH]; simpl; [done|].
  destruct (strings.trim_space_right s) eqn:E.
  - destruct (strings.is_ascii_space c); simpl; [tauto|].
    split; discriminate.
  - split; [discriminate|].
    intros H. apply andb_true_iff in H as [_ H]. apply IH in H. discriminate.
Qed.

Lemma trim_space_left_all s :
  all_bytes strings.is_ascii_space (strings.trim_space_left s)
  = all_bytes strings.is_ascii_space s.
Proof.
  induction s as [|c s IH]; simpl; [done|].
  destruct (strings.is_ascii_space c) eqn:E; simpl; [done|]. by rewrite E.
Qed.

Lemma TrimSpace_empty s :
  strings.TrimSpace s = EmptyString <->
  all_bytes strings.is_ascii_space s = true.
Proof.
  unfold strings.TrimSpace.
  by rewrite trim_space_right_empty, trim_space_left_all.
Qed.

Lemma trim_space_right_idemp s :
  strings.trim_space_right (strings.trim_space_right s)
  = strings.trim_space_right s.
Proof.
  induction s as [|c s IH]; simpl; [done|].
  destruct (strings.trim_space_right s) as [|d t] eqn:E.
  - destruct (strings.is_ascii_space c) eqn:Hc; simpl; [done|]. by rewrite Hc.
  - change (strings.trim_space_right (String c (String d t)))
      with (match strings.trim_space_right (String d t) with
            | EmptyString => if strings.is_ascii_space c then EmptyString
                             else String c EmptyString
            | t' => String c t'
            end).
    by rewrite IH.
Qed.

Lemma trim_space_left_idemp s :
  strings.trim_space_left (strings.trim_space_left s)
  = strings.trim_space_left s.
Proof.
  induction s as [|c s IH]; simpl; [done|].
  destruct (strings.is_ascii_space c) eqn:E; [done|]. simpl. by rewrite E.
Qed.

Lemma trim_space_left_right s :
  strings.trim_space_left s = s ->
  strings.trim_space_left (strings.trim_space_right s)
  = strings.trim_space_right s.
Proof.
  destruct s as [|c s]; [done|]. simpl.
  destruct (strings.is_ascii_space c) eqn:Hc.
  - intros H. exfalso.
    assert (String.length (strings.trim_space_left s) <= String.length s)%nat
      as Hle.
    { clear. induction s as [|d s IH]; simpl; [lia|].
      destruct (strings.is_ascii_space d); simpl; lia. }
    rewrite H in Hle. simpl in Hle. lia.
  - intros _. destruct (strings.trim_space_right s); simpl; by rewrite Hc.
Qed.

Lemma TrimSpace_idemp s :
  strings.TrimSpace (strings.TrimSpace s) = strings.TrimSpace s.
Proof.
  unfold strings.TrimSpace.
  rewrite trim_space_left_right by apply trim_space_left_idemp.
  apply trim_space_right_idemp.
Qed.

Lemma trim_space_left_has_byte p s :
  has_byte p s = false -> has_byte p (strings.trim_space_left s) = false.
Proof.
  induction s as [|c s IH]; simpl; [done|].
  intros H. apply orb_false_iff in H as [Hc Hs].
  destruct (strings.is_ascii_space c); [auto|]. simpl. by rewrite Hc, Hs.
Qed.

Lemma trim_space_right_has_byte p s :
  has_byte p s = false -> has_byte p (strings.trim_space_right s) = false.
Proof.
  induction s as [|c s IH]; simpl; [done|].
  intros H. apply orb_false_iff in H as [Hc Hs]. specialize (IH Hs).
  destruct (strings.trim_space_right s).
  - destruct (strings.is_ascii_space c); simpl; [done|]. by rewrite Hc.
  - simpl in *. by rewrite Hc, IH.
Qed.

Lemma TrimSpace_has_byte p s :
  has_byte p s = false -> has_byte p (strings.TrimSpace s) = false.
Proof.
  intros H. by apply trim_space_right_has_byte, trim_space_left_has_byte.
Qed.

(** The loop that fills [validAPIKeys]. *)
Lemma valid_keys_loop keys : forall acc,
  foldl (fun acc k =>
           if negb (str_eqb (strings.TrimSpace k) EmptyString)
           then (acc ++ [strings.TrimSpace k])%list else acc) acc keys
  = (acc ++ List.filter (fun k => negb (str_eqb k EmptyString))
                        (map strings.TrimSpace keys))%list.
Proof.
  induction keys as [|k keys IH]; intros acc; simpl.
  - by rewrite app_nil_r.
  - rewrite IH.
    destruct (negb (str_eqb (strings.TrimSpace k) EmptyString)); [|done].
    by rewrite <- app_assoc.
Qed.

Lemma api_keys_setup_unfold s :
  api_keys_setup s
  = if str_eqb s EmptyString then
      inl "API_KEYS environment variable is not set. Authentication is required."
    else
      match List.filter (fun k => negb (str_eqb k EmptyString))
                        (map strings.TrimSpace (strings.Split s ","%char)) with
      | [] => inl "No valid API keys found after parsing API_KEYS. Please check the format."
      | ks => inr ks
      end.
Proof.
  unfold api_keys_setup. destruct (str_eqb s EmptyString) eqn:Hs; [done|].
  destruct (Split_cons s ","%char) as (p & ps & E). rewrite E.
  assert ((Z.of_nat (length (p :: ps)) =? 0)
          || (Z.of_nat (length (p :: ps)) =? 1)
             && str_eqb (hd EmptyString (p :: ps)) EmptyString = false) as ->.
  { apply orb_false_iff. split; [apply Z.eqb_neq; simpl length; lia|].
    destruct ps as [|p' ps].
    - apply andb_false_iff. right. cbn [hd].
      destruct s as [|c s]; [done|]. simpl in E.
      destruct (Split_cons s ","%char) as (q & qs & E'). rewrite E' in E.
      case_bool_decide; [discriminate E|]. injection E as <- _.
      unfold str_eqb. by rewrite bool_decide_eq_false_2.
    - apply andb_false_iff. left. apply Z.eqb_neq. simpl length. lia. }
  rewrite (valid_keys_loop (p :: ps) []), app_nil_l.
  destruct (List.filter _ _); reflexivity.
Qed.

Lemma valid_keys_empty s :
  List.filter (fun k => negb (str_eqb k EmptyString))
              (map strings.TrimSpace (strings.Split s ","%char)) = []
  <-> all_bytes is_key_filler s = true.
Proof.
  unfold is_key_filler, is_comma.
  rewrite <- (Split_all_bytes strings.is_ascii_space ","%char s).
  induction (strings.Split s ","%char) as [|p ps IH]; simpl.
  - split; [by constructor|done].
  - rewrite Forall_cons, <- IH, <- TrimSpace_empty. unfold str_eqb.
    case_bool_decide as Hp; simpl; [tauto|].
    split; [discriminate|tauto].
Qed.

Lemma elem_of_valid_keys s k :
  k ∈ List.filter (fun k => negb (str_eqb k EmptyString))
                  (map strings.TrimSpace (strings.Split s ","%char))
  <-> k <> EmptyString /\
      exists piece, piece ∈ strings.Split s ","%char /\
                    strings.TrimSpace piece = k.
Proof.
  rewrite list_elem_of_In, filter_In, <- list_elem_of_In.
  change (map strings.TrimSpace) with (fmap (M := list) strings.TrimSpace).
  rewrite list_elem_of_fmap. unfold str_eqb. split.
  - intros [(piece & -> & Hp) Hne]. split; [|eauto].
    intros Heq. rewrite Heq in Hne. by rewrite bool_decide_eq_true_2 in Hne.
  - intros [Hne (piece & Hp & <-)]. split; [eauto|].
    by rewrite bool_decide_eq_false_2.
Qed.

(** X3 — the API keys [main] reads from [API_KEYS] (ASCII text): the value
    is cut at its commas, white space around each piece is dropped, and the
    pieces that are not empty then are the valid keys, in their order.  The
    server refuses to start ([log.Fatal]) exactly when the value holds
    nothing but commas and white space.  A key that is loaded is never
    empty, holds no comma and has no white space at either end; hence the
    requests [authMiddleware] admits are exactly those whose key is a
    trimmed, non-empty piece of [API_KEYS]. *)
Theorem X3_api_keys_are_the_trimmed_pieces (apiKeysStr : string) :
  all_bytes is_ascii apiKeysStr = true ->
  match api_keys_setup apiKeysStr with
  | inl _ => all_bytes is_key_filler apiKeysStr = true
  | inr validAPIKeys =>
      all_bytes is_key_filler apiKeysStr = false /\
      validAPIKeys
      = List.filter (fun k => negb (str_eqb k EmptyString))
                    (map strings.TrimSpace (strings.Split apiKeysStr ","%char)) /\
      validAPIKeys <> [] /\
      Forall (fun k => k <> EmptyString /\ strings.TrimSpace k = k /\
                       has_byte is_comma k = false) validAPIKeys /\
      (forall providedKey,
          authMiddleware validAPIKeys providedKey = None <->
          providedKey <> EmptyString /\
          exists piece, piece ∈ strings.Split apiKeysStr ","%char /\
                        strings.TrimSpace piece = providedKey)
  end.
Proof.
  intros _. rewrite api_keys_setup_unfold.
  destruct (str_eqb apiKeysStr EmptyString) eqn:Hs.
  { by apply str_eqb_true in Hs as ->. }
  pose proof (valid_keys_empty apiKeysStr) as Hempty.
  pose proof (elem_of_valid_keys apiKeysStr) as Hin.
  destruct (List.filter _ _) as [|k ks] eqn:E.
  { by apply Hempty. }
  split_and!.
  - destruct (all_bytes is_key_filler apiKeysStr); [|done].
    by destruct Hempty as [_ Hempty]; specialize (Hempty eq_refl).
  - done.
  - done.
  - rewrite Forall_forall. intros k' Hk'. apply Hin in Hk' as (Hne & piece & Hp & <-).
    split_and!; [done | apply TrimSpace_idemp |].
    apply TrimSpace_has_byte.
    pose proof (Split_no_separator ","%char apiKeysStr) as Hall.
    rewrite Forall_forall in Hall. by apply Hall.
  - intros providedKey. rewrite authMiddleware_spec, <- Hin.
    repeat case_bool_decide; split; try done; try tauto.
    intros Hk. apply Hin in Hk as [Hne _]. done.
Qed.

Lemma X3_api_keys_are_the_trimmed_pieces_witness :
  all_bytes is_ascii " alpha,,beta gamma , " = true /\
  match api_keys_setup " alpha,,beta gamma , " with
  | inl _ => False
  | inr validAPIKeys =>
      validAPIKeys = ["alpha"; "beta gamma"] /\
      authMiddleware validAPIKeys "alpha" = None /\
      authMiddleware validAPIKeys " alpha"
      = Some (JSONError StatusUnauthorized "Invalid API key")
  end.
Proof.
  split; [reflexivity|].
  pose proof (X3_api_keys_are_the_trimmed_pieces " alpha,,beta gamma , "
                eq_refl) as H.
  destruct (api_keys_setup " alpha,,beta gamma , ") as [msg|keys] eqn:E.
  - discriminate H.
  - destruct H as (_ & -> & _). vm_compute. auto.
Defined.

(** ** Writes and the reads that follow them *)

(** X4 — a write request that is answered with an error leaves the variant
    as it was: whatever the reason (a body that does not parse, a missing
    title or date, a malformed id, an id that is not stored, an id that is
    taken, an empty batch, a batch that is too large for its statement or
    of which one element cannot be stored),
    neither the table nor its counter nor the search index changes.  In
    particular a batch is stored as a whole or not at all. *)
Theorem X4_failed_write_changes_nothing (L : Limits) (db : DB) :
  (forall now body,
      is_error (createEventHandler now body db).1 = true ->
      (createEventHandler now body db).2 = db) /\
  (forall now id body,
      is_error (updateEventHandler now id body db).1 = true ->
      (updateEventHandler now id body db).2 = db) /\
  (forall id,
      is_error (deleteEventHandler id db).1 = true ->
      (deleteEventHandler id db).2 = db) /\
  (forall now body,
      is_error (batchCreateEventsHandler now body db).1 = true ->
      (batchCreateEventsHandler now body db).2 = db).
Proof.
  split_and!.
  - intros now [event|]; [|done]. unfold createEventHandler.
    destruct (str_eqb (Title event) EmptyString || IsZero (Date event));
      [done|].
    destruct (Create now event db) as [|[row db']]; [done|discriminate].
  - intros now id body. unfold updateEventHandler.
    destruct (strconv.ParseUint id 32) as [n [err|]]; [done|].
    destruct (First (Z.to_N n) db) as [|event]; [done|].
    destruct body as [u|]; [|done].
    destruct (Updates now event u db) as [|[ev db']]; [done|discriminate].
  - intros id. unfold deleteEventHandler.
    destruct (strconv.ParseUint id 32) as [n [err|]]; [done|].
    unfold Delete.
    destruct (events db !! Z.to_N n); simpl; [discriminate|done].
  - intros now [evs|]; [|done]. unfold batchCreateEventsHandler.
    destruct (Z.of_nat (length evs) =? 0); [done|].
    destruct (CreateSlice now evs db) as [|[stored db']]; [done|discriminate].
Qed.

Lemma X4_failed_write_changes_nothing_witness :
  (batchCreateEventsHandler now0 (Some batch_with_taken_id) db_pizza).1
  = JSONError StatusInternalServerError "Failed to create events in batch" /\
  (batchCreateEventsHandler now0 (Some batch_with_taken_id) db_pizza).2
  = db_pizza.
Proof.
  split; [reflexivity|].
  exact (proj2 (proj2 (proj2
           (X4_failed_write_changes_nothing default_limits db_pizza)))
           now0 (Some batch_with_taken_id) eq_refl).
Defined.

(** X5 — create, then get: the record a create request returns (status 201)
    is what [getEventHandler] returns afterwards for a text that denotes
    its id, where before the same request was answered not-found; requests
    for every other id are answered as before. *)
Theorem X5_created_event_can_be_fetched
    (now : Time) (body : Event) (db db' : DB) (row : Event) (id : string) :
  createEventHandler now (Some body) db = (JSONData StatusCreated row, db') ->
  denotes id (ID row) ->
  getEventHandler id db' = JSONData StatusOK row /\
  getEventHandler id db = JSONError StatusNotFound "Event not found" /\
  (forall id2, ~ denotes id2 (ID row) ->
      getEventHandler id2 db' = getEventHandler id2 db).
Proof.
  intros Hc Hid. unfold createEventHandler in Hc.
  destruct (str_eqb (Title body) EmptyString || IsZero (Date body));
    [discriminate|].
  destruct (Create now body db) as [|[row' db'']] eqn:E; [discriminate|].
  injection Hc as -> ->.
  apply Create_inr in E as (Hrow & Hnone & Ht & _).
  assert (ID row = create_id body db) as Hk by (by rewrite Hrow).
  rewrite <- Hk in *. split_and!.
  - rewrite (getEventHandler_denotes id (ID row)) by done.
    by rewrite Ht, lookup_insert_eq.
  - rewrite (getEventHandler_denotes id (ID row)) by done. by rewrite Hnone.
  - intros id2 Hno. apply getEventHandler_other_rows.
    intros k Hk2. rewrite Ht. apply lookup_insert_ne. by intros <-.
Qed.

Lemma X5_created_event_can_be_fetched_witness :
  exists row db',
    createEventHandler now0 (Some pizza_day) empty_db
      = (JSONData StatusCreated row, db') /\
    denotes "1" (ID row) /\
    getEventHandler "1" db' = JSONData StatusOK row.
Proof.
  eexists _, _. split; [reflexivity|]. split; [reflexivity|].
  exact (proj1 (X5_created_event_can_be_fetched now0 pizza_day empty_db _ _ "1"
                  eq_refl eq_refl)).
Defined.

(** X6 — delete: the request succeeds (204) exactly for an id under which
    [getEventHandler] finds a record; afterwards that id is answered
    not-found by get and by a second delete, which changes nothing; every
    other id is answered as before, and the AUTOINCREMENT counter is kept. *)
Theorem X6_deleted_event_is_gone (id : string) (db : DB) :
  ((deleteEventHandler id db).1 = NoContent <->
     exists e, getEventHandler id db = JSONData StatusOK e) /\
  ((deleteEventHandler id db).1 = NoContent ->
     getEventHandler id (deleteEventHandler id db).2
       = JSONError StatusNotFound "Event not found" /\
     deleteEventHandler id (deleteEventHandler id db).2
       = (JSONError StatusNotFound "Event not found",
          (deleteEventHandler id db).2) /\
     sqlite_sequence (deleteEventHandler id db).2 = sqlite_sequence db /\
     (forall id2, (forall k, denotes id k -> ~ denotes id2 k) ->
         getEventHandler id2 (deleteEventHandler id db).2
         = getEventHandler id2 db)).
Proof.
  destruct (strconv.ParseUint id 32) as [n [err|]] eqn:E.
  { destruct (handlers_reject_id id n err db E) as (Hget & -> & _). simpl.
    split; [|discriminate]. split; [discriminate|].
    intros [e He]. rewrite He in Hget. discriminate. }
  apply denotes_parsed in E.
  rewrite (deleteEventHandler_denotes id _ db E).
  rewrite (getEventHandler_denotes id _ db E).
  destruct (events db !! Z.to_N n) as [old|] eqn:Hrow; simpl.
  - split; [split; eauto|]. intros _.
    rewrite (deleteEventHandler_denotes id _ _ E).
    rewrite (getEventHandler_denotes id _ _ E). simpl.
    rewrite lookup_delete_eq. split_and!; try done.
    intros id2 Hne. apply getEventHandler_other_rows. simpl.
    intros k2 Hk2. apply lookup_delete_ne. intros <-. by apply (Hne _ E).
  - split; [split; [discriminate | intros [e He]; discriminate]|discriminate].
Qed.

Lemma X6_deleted_event_is_gone_witness :
  (deleteEventHandler "1" db_pizza).1 = NoContent /\
  getEventHandler "1" (deleteEventHandler "1" db_pizza).2
  = JSONError StatusNotFound "Event not found".
Proof.
  split; [reflexivity|].
  exact (proj1 (proj2 (X6_deleted_event_is_gone "1" db_pizza) eq_refl)).
Defined.

(** X7 — update, then get: an update that succeeds (200) was addressed to a
    record [old] that get returned before; what it returns is [old] with
    the columns of the body replaced, among them the id and the two time
    stamps if the body names them: the id and the creation time are those
    of [old] unless the body names them, and the time of the last update is
    the current time unless the body names it.  Afterwards get returns
    exactly that record under the id the record has now, and not-found
    under the old id if the update has changed the id; every id that is
    neither of the two is answered as before, and the AUTOINCREMENT counter
    is kept. *)
Theorem X7_updated_event_can_be_fetched
    (now : Time) (id : string) (u : UpdateData) (db db' : DB) (ev : Event) :
  rows_keyed (events db) ->
  updateEventHandler now id (Some u) db = (JSONData StatusOK ev, db') ->
  exists old,
    getEventHandler id db = JSONData StatusOK old /\
    ev = apply_update now u old /\
    (u_id u = None -> ID ev = ID old) /\
    (u_created_at u = None -> CreatedAt ev = CreatedAt old) /\
    (u_updated_at u = None -> UpdatedAt ev = now) /\
    (forall id', denotes id' (ID ev) ->
        getEventHandler id' db' = JSONData StatusOK ev) /\
    (ID ev <> ID old ->
        getEventHandler id db'
        = JSONError StatusNotFound "Event not found") /\
    (forall id2, (forall k, denotes id2 k -> k <> ID old /\ k <> ID ev) ->
        getEventHandler id2 db' = getEventHandler id2 db) /\
    sqlite_sequence db' = sqlite_sequence db /\
    rows_keyed (events db').
Proof.
  intros Hkeyed H.
  apply updateEventHandler_ok in H as (k & old & Hid & Hrow & Hu).
  pose proof (Hkeyed _ _ Hrow) as Hk.
  apply Updates_inr in Hu as (Hev & _ & _ & Hu).
  rewrite Hk, Hrow in Hu. cbv zeta in Hu. rewrite <- Hev in Hu.
  destruct Hu as (_ & _ & Ht & Hseq & _).
  exists old. split_and!; try done.
  - rewrite (getEventHandler_denotes id k db Hid). by rewrite Hrow.
  - intros Hn. rewrite Hev. cbn. by rewrite Hn.
  - intros Hn. rewrite Hev. cbn. by rewrite Hn.
  - intros Hn. rewrite Hev. cbn. by rewrite Hn.
  - intros id' Hid'. rewrite (getEventHandler_denotes id' _ db' Hid').
    by rewrite Ht, lookup_insert_eq.
  - intros Hne. rewrite (getEventHandler_denotes id k db' Hid).
    rewrite Ht, lookup_insert_ne by congruence.
    by rewrite lookup_delete_eq.
  - intros id2 Hne. apply getEventHandler_other_rows.
    intros k2 Hk2. destruct (Hne k2 Hk2) as [H1 H2].
    rewrite Ht, lookup_insert_ne by done. apply lookup_delete_ne. congruence.
  - rewrite Ht. intros k2 r. rewrite lookup_insert. case_decide.
    + by intros [= <-].
    + rewrite lookup_delete. case_decide; [discriminate|]. apply Hkeyed.
Qed.

Lemma X7_updated_event_can_be_fetched_witness :
  exists ev db',
    rows_keyed (events db_pizza) /\
    updateEventHandler now0 "1" (Some (renumber 7)) db_pizza
      = (JSONData StatusOK ev, db') /\
    ID ev = 7%N /\ Title ev = Title pizza_day /\
    getEventHandler "7" db' = JSONData StatusOK ev /\
    getEventHandler "1" db' = JSONError StatusNotFound "Event not found".
Proof.
  assert (rows_keyed (events db_pizza)) as Hk.
  { apply (serve_all_synced [CreateEvent now0 pizza_day] empty_db).
    exact empty_db_synced. }
  eexists _, _. split; [exact Hk|]. split; [reflexivity|].
  split; [reflexivity|]. split; [reflexivity|].
  destruct (X7_updated_event_can_be_fetched now0 "1" (renumber 7) db_pizza
              _ _ Hk eq_refl)
    as (old & Hold & _ & _ & _ & _ & Hget & Hgone & _).
  split; [exact (Hget "7" eq_refl)|].
  apply Hgone. injection Hold as <-. discriminate.
Defined.

(** ** The AUTOINCREMENT counter *)

Lemma Create_sequence now e db row db' :
  Create now e db = inr (row, db') ->
  (sqlite_sequence db <= sqlite_sequence db')%N /\
  (sequence_covers db -> sequence_covers db').
Proof.
  intros H. pose proof H as H'.
  apply Create_inr in H' as (_ & _ & Ht & _).
  apply Create_inr_more in H as (Hseq & _). split; [lia|].
  intros Hc k. rewrite Ht, Hseq, lookup_insert. case_decide as Hk.
  - subst k. lia.
  - intros Hs. specialize (Hc k Hs). lia.
Qed.

Lemma insert_all_sequence now es : forall db stored db',
  insert_all now es db = inr (stored, db') ->
  (sqlite_sequence db <= sqlite_sequence db')%N /\
  (sequence_covers db -> sequence_covers db').
Proof.
  induction es as [|e es IH]; intros db stored db' H; simpl in H.
  - injection H as <- <-. split; [lia|done].
  - destruct (Create now e db) as [|[row db1]] eqn:E; [discriminate|].
    destruct (insert_all now es db1) as [|[rs db2]] eqn:E2; [discriminate|].
    injection H as <- <-.
    destruct (Create_sequence _ _ _ _ _ E) as [Hle1 Hc1].
    destruct (IH _ _ _ E2) as [Hle2 Hc2]. split; [lia|auto].
Qed.

(** Create requests keep the keys covered by the counter. *)
Lemma createEventHandler_covers now body db :
  sequence_covers db -> sequence_covers (createEventHandler now body db).2.
Proof.
  intros Hc. destruct body as [event|]; [|done]. unfold createEventHandler.
  destruct (str_eqb (Title event) EmptyString || IsZero (Date event)); [done|].
  destruct (Create now event db) as [|[row db']] eqn:E; [done|].
  cbn. by apply Create_sequence in E as [_ ?]; auto.
Qed.

Lemma empty_db_covers : sequence_covers empty_db.
Proof. intros k [e He]. cbn in He. by rewrite lookup_empty in He. Qed.

(** No request lowers the counter. *)
Lemma serve_sequence `{Limits} r db :
  (sqlite_sequence db <= sqlite_sequence (serve r db).2)%N.
Proof.
  destruct r as [now body|now id body|id|now body]; cbn [serve].
  - unfold createEventHandler.
    destruct (str_eqb (Title body) EmptyString || IsZero (Date body));
      [cbn; lia|].
    destruct (Create now body db) as [|[row db']] eqn:E; [cbn; lia|].
    cbn. by apply Create_sequence in E as [? _].
  - unfold updateEventHandler.
    destruct (strconv.ParseUint id 32) as [n [err|]]; [cbn; lia|].
    destruct (First (Z.to_N n) db) as [|event]; [cbn; lia|].
    destruct (Updates now event body db) as [|[ev db']] eqn:E; [cbn; lia|].
    cbn. apply Updates_inr in E as (_ & _ & _ & E).
    destruct (events db !! ID event); [|subst; lia].
    destruct E as (_ & _ & _ & -> & _). lia.
  - unfold deleteEventHandler.
    destruct (strconv.ParseUint id 32) as [n [err|]]; [cbn; lia|].
    unfold Delete.
    destruct (events db !! Z.to_N n) as [old|]; cbn; lia.
  - unfold batchCreateEventsHandler.
    destruct (Z.of_nat (length body) =? 0); [cbn; lia|].
    destruct (CreateSlice now body db) as [|[stored db']] eqn:E; [cbn; lia|].
    apply CreateSlice_inr in E as [_ E].
    cbn. by apply insert_all_sequence in E as [? _].
Qed.

Lemma serve_all_sequence `{Limits} rs : forall db,
  (sqlite_sequence db <= sqlite_sequence (serve_all rs db))%N.
Proof.
  induction rs as [|r rs IH]; intros db; [cbn; lia|].
  cbn. pose proof (serve_sequence r db). specialize (IH (serve r db).2).
  unfold serve_all in *. lia.
Qed.

(** X8 — ids are not handed out twice.  In a variant whose counter covers
    its keys (as after [InitDB] on a new file), take an id [k] that is in
    use and let any requests follow, among them possibly the deletion of
    [k]: a record that is created without an id afterwards is given an id
    above [k], and the counter covers the keys again once it is stored. *)
Theorem X8_deleted_id_is_not_reused
    (L : Limits) (db0 : DB) (k : N) (reqs : list Request)
    (now : Time) (body : Event) (row : Event) (db' : DB) :
  sequence_covers db0 ->
  is_Some (events db0 !! k) ->
  ID body = 0%N ->
  createEventHandler now (Some body) (serve_all reqs db0)
    = (JSONData StatusCreated row, db') ->
  (k < ID row)%N /\ sequence_covers db'.
Proof.
  intros Hc Hk H0 H.
  pose proof (serve_all_sequence reqs db0) as Hle.
  unfold createEventHandler in H.
  destruct (str_eqb (Title body) EmptyString || IsZero (Date body));
    [discriminate|].
  destruct (Create now body (serve_all reqs db0)) as [|[row' db'']] eqn:E;
    [discriminate|].
  injection H as -> ->. pose proof E as E'.
  apply Create_inr in E as (Hrow & _ & Ht & _).
  apply Create_inr_more in E' as (Hseq & _).
  unfold create_id in *. rewrite bool_decide_eq_true_2 in * by done.
  split.
  - rewrite Hrow. cbn [ID stamped]. unfold next_rowid.
    specialize (Hc k Hk). lia.
  - intros k' [e He]. rewrite Hseq. rewrite Ht, lookup_insert in He.
    case_decide as Hk'; [subst k'; lia|].
    apply max_rowid_ge in He. unfold next_rowid. lia.
Qed.

Lemma X8_deleted_id_is_not_reused_witness :
  exists row db',
    sequence_covers db_pizza /\
    is_Some (events db_pizza !! 1%N) /\
    createEventHandler now0 (Some pizza_day)
                       (serve_all [DeleteEvent "1"] db_pizza)
      = (JSONData StatusCreated row, db') /\
    ID row = 2%N /\ (1 < ID row)%N.
Proof.
  assert (sequence_covers db_pizza) as Hc
    by exact (createEventHandler_covers now0 (Some pizza_day) empty_db
                empty_db_covers).
  assert (is_Some (events db_pizza !! 1%N)) as Hk by (vm_compute; eauto).
  eexists _, _. split; [exact Hc|]. split; [exact Hk|].
  split; [reflexivity|]. split; [reflexivity|].
  exact (proj1 (X8_deleted_id_is_not_reused default_limits db_pizza 1
                  [DeleteEvent "1"] now0 pizza_day _ _ Hc Hk eq_refl eq_refl)).
Defined.

(** An update that gives a row an id above the counter leaves a key the
    counter does not cover; the next id the table assigns is above that key
    all the same. *)
Example renumbering_passes_the_counter :
  let db := serve_all [UpdateEvent now0 "1" (renumber 7)] db_pizza in
  sqlite_sequence db = 1%N /\ is_Some (events db !! 7%N) /\
  ~ sequence_covers db /\
  (createEventHandler now0 (Some pizza_day) db).1
    = JSONData StatusCreated (stamped now0 8 pizza_day).
Proof.
  split_and!; try (vm_compute; eauto; reflexivity).
  intros H. specialize (H 7%N ltac:(vm_compute; eauto)).
  vm_compute in H. by apply H.
Qed.

(** ** Restart *)

(** X9 — [InitDB] never fills the index from the table.  The count it
    compares with zero before it does so is the number of rows of the
    table, whatever the index holds, so the condition for filling is never
    met: table, counter and index are left as the file has them.  So a
    restart changes nothing in a variant; and a variant whose file has rows
    but no index starts with an empty index, with which no search statement
    selects any of its rows. *)
Theorem X9_restart_keeps_the_index (f : DBFile) (db : DB) :
  InitDB f = mkDB (file_events f) (file_sequence f) (default ∅ (file_fts f)) /\
  InitDB (db_file db) = db /\
  (file_fts f = None ->
   forall (engine : Fts5) q, fts_join q (InitDB f) = []).
Proof.
  split; [apply InitDB_unfold|]. split.
  - rewrite InitDB_unfold. by destruct db.
  - intros Hnone engine q. rewrite InitDB_unfold, Hnone. unfold fts_join.
    cbn [events_fts default]. unfold indexed.
    induction (rows _) as [|e l IH]; [done|].
    cbn [List.filter]. rewrite lookup_empty. cbn. exact IH.
Qed.

(** ** Walking through the pages *)

Lemma chunks_concat {A} (L : nat) : forall (k : nat) (l : list A),
  (length l <= k * L)%nat ->
  concat (map (fun i => take L (drop (i * L) l)) (seq 0 k)) = l.
Proof.
  induction k as [|k IH]; intros l Hlen.
  - simpl in *. destruct l; [done|simpl in Hlen; lia].
  - rewrite <- cons_seq. cbn [map concat]. rewrite <- fmap_S_seq.
    change (map ?f (S <$> ?l)) with (map f (map S l)).
    rewrite map_map. simpl drop at 1.
    rewrite (map_ext _ (fun i => take L (drop (i * L) (drop L l)))).
    + rewrite IH by (rewrite length_drop; lia). apply take_drop.
    + intros i. rewrite drop_drop. do 2 f_equal; lia.
Qed.

Lemma ceil_div_bounds a b :
  0 <= a -> 0 < b ->
  0 <= ceil_div a b /\ a <= ceil_div a b * b /\ (ceil_div a b - 1) * b < a.
Proof.
  intros Ha Hb. unfold ceil_div.
  pose proof (Z.div_mod (- a) b ltac:(lia)) as Hdm.
  pose proof (Z.mod_pos_bound (- a) b Hb) as Hr.
  nia.
Qed.

Lemma first_rows_length {A} (l : list A) : forall n,
  0 <= n -> Z.of_nat (length (first_rows n l)) <= n.
Proof.
  induction l as [|x l IH]; intros n Hn; simpl; [lia|].
  destruct (Z.leb_spec n 0); simpl; [lia|].
  specialize (IH (n - 1) ltac:(lia)). lia.
Qed.

Lemma Limit_Offset_length {A} limit offset (l : list A) :
  0 <= limit -> Z.of_nat (length (Limit_Offset limit offset l)) <= limit.
Proof.
  intros H. unfold Limit_Offset.
  destruct (Z.ltb_spec limit 0); [lia|]. by apply first_rows_length.
Qed.

(** A handler that returns [LIMIT limit OFFSET (page - 1) * limit] of
    [full] and reports the total-pages value of the source partitions
    [full]. *)
Lemma partitions_intro respond pnum limit (full : list Event) :
  1 <= limit <= MaxInt64 ->
  (forall p, 1 <= pnum p <= MaxInt64) ->
  (forall p, response_events (respond p)
             = Limit_Offset limit (page_offset (pnum p) limit) full) ->
  LastPage (response_pagination (respond EmptyString))
  = total_pages (Z.of_nat (length full)) limit ->
  partitions respond pnum limit full.
Proof.
  intros Hl Hp Hev Hlast. split.
  { intros p. rewrite Hev. apply Limit_Offset_length. lia. }
  intros Hfit. rewrite Hlast, total_pages_exact by lia.
  pose proof (ceil_div_bounds (Z.of_nat (length full)) limit
                ltac:(lia) ltac:(lia)) as (Hc0 & Hc1 & Hc2).
  set (last := ceil_div (Z.of_nat (length full)) limit) in *.
  split.
  - intros pages Hpages.
    set (g := fun i => Limit_Offset limit (page_offset i limit) full).
    assert (map (fun p => response_events (respond p)) pages
            = map g (map pnum pages)) as ->.
    { rewrite map_map. apply map_ext. intros p. apply Hev. }
    rewrite Hpages. unfold seqZ, g.
    change (map ?f (?g <$> ?l)) with (map f (map g l)). rewrite map_map.
    etrans; [|apply (chunks_concat (Z.to_nat limit) (Z.to_nat last) full); nia].
    f_equal. apply map_ext_in. intros i Hi. apply in_seq in Hi.
    assert (Z.of_nat i <= last - 1) as Hi1 by lia.
    assert (Z.of_nat i * limit <= (last - 1) * limit) as Hi2 by nia.
    assert (Z.of_nat i <= Z.of_nat i * limit) as Hi3 by nia.
    rewrite Limit_Offset_take_drop by lia.
    rewrite page_offset_exact by lia.
    do 2 f_equal. nia.
  - intros p Hafter Hfit2. rewrite Hev.
    rewrite Limit_Offset_take_drop by lia.
    rewrite page_offset_exact; [|apply Hp|lia|done].
    rewrite drop_ge; [apply take_nil|]. nia.
Qed.

(** When the sort key decides between any two of the selected rows there
    is one complete ordered result, and every arrangement SQL allows is
    it. *)
#[local] Instance date_desc_trans :
  Transitive (fun a b => date_desc a b = true).
Proof.
  intros a b c. unfold date_desc. rewrite !negb_true_iff. intros Hab Hbc.
  destruct (str_ltb (t_text (Date a)) (t_text (Date c))) eqn:Hac; [|done].
  destruct (decide (t_text (Date b) = t_text (Date a))) as [Heq|Hne].
  - rewrite Heq in Hbc. congruence.
  - apply str_ltb_trichotomy in Hab; [|congruence].
    pose proof (str_ltb_trans _ _ _ Hab Hac). congruence.
Qed.

Lemma date_desc_antisym a b :
  date_desc a b = true -> date_desc b a = true ->
  t_text (Date a) = t_text (Date b).
Proof.
  unfold date_desc. rewrite !negb_true_iff. intros Hab Hba.
  destruct (decide (t_text (Date a) = t_text (Date b))) as [|Hne]; [done|].
  apply str_ltb_trichotomy in Hab; [congruence|done].
Qed.

Lemma distinct_dates_inj l a b :
  distinct_dates l -> a ∈ l -> b ∈ l ->
  t_text (Date a) = t_text (Date b) -> a = b.
Proof.
  unfold distinct_dates. induction l as [|x l IH]; intros Hnd Ha Hb Heq.
  - inversion Ha.
  - cbn [map] in Hnd. apply NoDup_cons in Hnd as [Hx Hnd].
    assert (forall y, y ∈ l -> t_text (Date x) <> t_text (Date y)) as Hfresh.
    { intros y Hy Hxy. apply Hx. rewrite Hxy.
      change (map ?f l) with (f <$> l). apply list_elem_of_fmap. eauto. }
    apply elem_of_cons in Ha as [->|Ha]; apply elem_of_cons in Hb as [->|Hb].
    + done.
    + by destruct (Hfresh b Hb).
    + by destruct (Hfresh a Ha).
    + by apply IH.
Qed.

Lemma complete_result_unique selected full1 full2 :
  distinct_dates selected ->
  complete_result selected full1 -> complete_result selected full2 ->
  full1 = full2.
Proof.
  intros Hnd [Hp1 Hs1] [Hp2 Hs2].
  apply (Sorted_unique_strong (fun a b => date_desc a b = true)); try done.
  - intros x1 x2 H1 H2 H12 H21.
    apply (distinct_dates_inj selected x1 x2 Hnd).
    + by rewrite Hp1.
    + by rewrite Hp2.
    + by apply date_desc_antisym.
  - by rewrite <- Hp1, <- Hp2.
Qed.

Section Partitions.
Context (O : OrderBy) (HO : respects_order O).

Lemma getAllEventsHandler_partitions limitRaw y m d db full :
  distinct_dates (select_where (date_conds y m d) db) ->
  complete_result (select_where (date_conds y m d) db) full ->
  partitions (fun p => getAllEventsHandler p limitRaw y m d db)
             page_unchecked (limit_unchecked limitRaw) full.
Proof.
  intros Hnd Hfull.
  assert (forall limit offset,
            sql_order_by date_desc limit offset
                         (select_where (date_conds y m d) db) = full) as Harr.
  { intros. eapply complete_result_unique; [done| |done].
    by apply sql_order_by_complete. }
  apply partitions_intro.
  - apply limit_unchecked_range.
  - apply page_unchecked_range.
  - intros p. unfold getAllEventsHandler. cbn [response_events].
    fold (date_conds y m d). by rewrite Harr.
  - unfold getAllEventsHandler. cbn [response_pagination LastPage].
    fold (date_conds y m d).
    by rewrite (Permutation_length (proj1 Hfull)).
Qed.

Lemma getEventsByTagHandler_partitions tag limitRaw db full :
  tag <> EmptyString ->
  distinct_dates (select_where [tag_cond (tag_search_term tag)] db) ->
  complete_result (select_where [tag_cond (tag_search_term tag)] db) full ->
  partitions (fun p => getEventsByTagHandler tag p limitRaw db)
             page_checked (limit_checked limitRaw) full.
Proof.
  intros Ht Hnd Hfull.
  assert (forall limit offset,
            sql_order_by date_desc limit offset
              (select_where [tag_cond (tag_search_term tag)] db) = full)
    as Harr.
  { intros. eapply complete_result_unique; [done| |done].
    by apply sql_order_by_complete. }
  apply partitions_intro.
  - apply limit_checked_range.
  - apply page_checked_range.
  - intros p. rewrite (getEventsByTagHandler_unfold O tag p limitRaw db Ht).
    cbn [response_events]. by rewrite Harr.
  - rewrite (getEventsByTagHandler_unfold O tag EmptyString limitRaw db Ht).
    cbn [response_pagination LastPage].
    by rewrite (Permutation_length (proj1 Hfull)).
Qed.
End Partitions.

(** X10 — the pages partition the result.  For the listing and the tag
    request (the tag in ASCII) with any page-size parameter, when no two of
    the events the request selects have the same text in their date column,
    so that the order of the result is fixed by the dates: no page holds
    more records than the page size; and, as long as
    [total + page_size - 1] fits an [int], the pages 1 to [last_page] (the
    value every answer reports), put end to end, are exactly the complete
    ordered result — every selected record once, none twice — and a page
    after the last is empty.  This holds for every arrangement SQLite may
    take among rows of equal key, since here no two keys are equal. *)
Theorem X10_pages_partition_the_result
    (O : OrderBy) (limitRaw : string) (db : DB) :
  respects_order O ->
  (forall y m d full,
      distinct_dates (select_where (date_conds y m d) db) ->
      complete_result (select_where (date_conds y m d) db) full ->
      partitions (fun p => getAllEventsHandler p limitRaw y m d db)
                 page_unchecked (limit_unchecked limitRaw) full) /\
  (forall tag full,
      tag <> EmptyString -> all_bytes is_ascii tag = true ->
      distinct_dates (select_where [tag_cond (tag_search_term tag)] db) ->
      complete_result (select_where [tag_cond (tag_search_term tag)] db) full ->
      partitions (fun p => getEventsByTagHandler tag p limitRaw db)
                 page_checked (limit_checked limitRaw) full).
Proof.
  intros HO. split.
  - intros. by apply getAllEventsHandler_partitions.
  - intros. by apply getEventsByTagHandler_partitions.
Qed.

Lemma X10_pages_partition_the_result_witness :
  respects_order insertion_order /\
  distinct_dates (select_where [] db_2021) /\
  LastPage (response_pagination
              (getAllEventsHandler EmptyString "2" EmptyString EmptyString
                                   EmptyString db_2021)) = 2 /\
  map Title
    (response_events (getAllEventsHandler "1" "2" EmptyString EmptyString
                                          EmptyString db_2021) ++
     response_events (getAllEventsHandler "2" "2" EmptyString EmptyString
                                          EmptyString db_2021))%list
  = ["Legal tender"; "Taproot locked in"; "Third halving"].
Proof.
  assert (distinct_dates (select_where [] db_2021)) as Hnd.
  { unfold distinct_dates.
    remember (map _ (select_where [] db_2021)) as l eqn:E.
    vm_compute in E. subst l.
    repeat (apply NoDup_cons; split;
            [rewrite ?not_elem_of_cons, ?elem_of_nil; intuition discriminate|]).
    apply NoDup_nil_2. }
  split; [exact insertion_order_respects|]. split; [exact Hnd|].
  split; [reflexivity|].
  destruct (X10_pages_partition_the_result insertion_order "2" db_2021
              insertion_order_respects) as [Hlist _].
  destruct (Hlist EmptyString EmptyString EmptyString
              (order_by date_desc (select_where [] db_2021)) Hnd
              (order_by_sql_ordered date_desc date_desc_total _))
    as [_ Hwalk].
  destruct Hwalk as [Hcat _]; [vm_compute; discriminate|].
  specialize (Hcat ["1"; "2"] eq_refl).
  cbn [map concat] in Hcat. rewrite app_nil_r in Hcat. rewrite Hcat.
  vm_compute. reflexivity.
Defined.

(** ** The date filters, read as numbers *)


Lemma append_length (a b : string) :
  String.length (a +:+ b) = (String.length a + String.length b)%nat.
Proof. induction a as [|x a IH]; [done|]. rewrite append_cons. simpl. lia. Qed.

Lemma all_bytes_app p (a b : string) :
  all_bytes p (a +:+ b) = all_bytes p a && all_bytes p b.
Proof.
  induction a as [|x a IH]; [done|].
  rewrite append_cons. simpl. by rewrite IH, andb_assoc.
Qed.


(** The digit that prints [k]. *)
Lemma digit_val_of_digit k :
  0 <= k <= 9 ->
  is_digit (ascii_of_N (Z.to_N (48 + k))) = true /\
  strconv.digit_val (ascii_of_N (Z.to_N (48 + k))) = k.
Proof.
  intros Hk. unfold is_digit, strconv.digit_val, byte_of.
  rewrite N_ascii_embedding by lia. rewrite Z2N.id by lia.
  split; [apply andb_true_iff; split; lia | lia].
Qed.


Lemma fixed_digits_length w : forall n, String.length (fixed_digits w n) = w.
Proof.
  induction w as [|w IH]; intros n; simpl; [done|].
  rewrite append_length, IH. simpl. lia.
Qed.

Lemma fixed_digits_digits w : forall n,
  all_bytes is_digit (fixed_digits w n) = true.
Proof.
  induction w as [|w IH]; intros n; simpl; [done|].
  rewrite all_bytes_app, IH. simpl.
  pose proof (Z.mod_pos_bound n 10 ltac:(lia)).
  by rewrite (proj1 (digit_val_of_digit (n mod 10) ltac:(lia))).
Qed.










(** ** The two copies of the listing handler *)

Lemma uint_literal_int_literal s :
  is_uint_literal s = true ->
  is_int_literal s = true /\ int_value s = decimal_value s.
Proof.
  intros H. destruct s as [|c s]; [done|].
  unfold is_uint_literal in H. apply andb_true_iff in H as [_ H].
  simpl in H. apply andb_true_iff in H as [Hc Hs].
  assert (c <> "+"%char /\ c <> "-"%char) as [Hp Hm].
  { split; intros ->; discriminate Hc. }
  unfold is_int_literal, int_value.
  rewrite !bool_decide_eq_false_2 by done. simpl.
  split; [|done]. unfold is_uint_literal. simpl. by rewrite Hc, Hs.
Qed.

Lemma Atoi_uint_literal s :
  is_uint_literal s = true -> decimal_value s <= MaxInt64 ->
  strconv.Atoi s = (decimal_value s, None).
Proof.
  intros Hl Hr. destruct (uint_literal_int_literal s Hl) as [Hi Hv].
  apply Atoi_ok. rewrite Hv. split_and!; try done.
  pose proof (decimal_value_nonneg s Hl). unfold MinInt64. lia.
Qed.

Lemma atoi_or_unchecked dflt s :
  1 <= dflt -> no_range_error s -> atoi_or dflt s = atoi_unchecked_or dflt s.
Proof.
  intros Hd Hno. unfold atoi_or, atoi_unchecked_or, no_range_error in *.
  destruct (strconv.Atoi s) as [n [[]|]] eqn:E; simpl in *; try done.
  apply Atoi_syntax_value in E as ->. done.
Qed.

Lemma checked_year_uint y :
  uint_param 0 MaxInt64 y ->
  checked_year y = if str_eqb y EmptyString then [] else [year_cond y].
Proof.
  intros [->|[Hl [_ Hr]]]; [done|]. unfold checked_year.
  destruct (str_eqb y EmptyString); [done|].
  by rewrite Atoi_uint_literal.
Qed.

Lemma digit_val_zero c : strconv.digit_val c = 0 -> c = "0"%char.
Proof.
  unfold strconv.digit_val. intros H. apply byte_of_inj.
  change (byte_of "0") with 48. lia.
Qed.

(** For an unsigned literal in range the older handler pads as the newer
    one does. *)
Lemma checked_component_uint lo hi cond s :
  1 <= lo -> hi <= MaxInt64 -> uint_param lo hi s ->
  checked_component lo hi cond s
  = if str_eqb s EmptyString then [] else [cond (pad1 s)].
Proof.
  intros Hlo Hhi [->|[Hl Hr]]; [done|]. unfold checked_component.
  destruct (str_eqb s EmptyString); [done|].
  rewrite Atoi_uint_literal by (try done; lia).
  destruct (Z.leb_spec lo (decimal_value s)); [|lia].
  destruct (Z.leb_spec (decimal_value s) hi); [|lia]. simpl.
  do 2 f_equal. unfold pad1, len, strings.HasPrefix.
  unfold is_uint_literal in Hl. apply andb_true_iff in Hl as [_ Hd].
  destruct s as [|c [|c2 s]].
  - unfold decimal_value in Hr. simpl in Hr. lia.
  - unfold decimal_value in *. simpl in *.
    apply andb_true_iff in Hd as [Hc _].
    pose proof (digit_val_range c Hc).
    assert ((0 * 10 + strconv.digit_val c <? 10) = true) as ->
      by (apply Z.ltb_lt; lia).
    rewrite bool_decide_eq_false_2; [done|].
    intros <-. assert (strconv.digit_val "0" = 0) as Hz by reflexivity.
    rewrite Hz in Hr. lia.
  - assert ((Z.of_nat (String.length (String c (String c2 s))) =? 1) = false)
      as -> by (apply Z.eqb_neq; simpl; lia).
    destruct (Z.ltb_spec (decimal_value (String c (String c2 s))) 10)
      as [Hlt|]; [|done].
    unfold decimal_value in Hlt. simpl in Hlt, Hd.
    apply andb_true_iff in Hd as [Hc Hd].
    apply andb_true_iff in Hd as [Hc2 Hd].
    pose proof (digit_val_range c Hc). pose proof (digit_val_range c2 Hc2).
    pose proof (dec_acc_ge s ((0 * 10 + strconv.digit_val c) * 10
                              + strconv.digit_val c2) ltac:(lia) Hd).
    assert (strconv.digit_val c = 0) as Hz by lia.
    apply digit_val_zero in Hz as ->. done.
Qed.

(** X12 — the two copies of the listing handler agree on well-formed
    requests: when the page and page-size parameters are not text that
    [Atoi] gives up on as out of range, and each date filter is absent or
    an unsigned decimal literal in its range (any year, month 1 to 12, day
    1 to 31), the handler of [main.go] and the older inline handler return
    the same answer, whatever arrangement SQLite takes among rows of equal
    date. *)
Theorem X12_listing_versions_agree
    (O : OrderBy) (pageRaw limitRaw y m d : string) (db : DB) :
  no_range_error (Query pageRaw "1") ->
  no_range_error (Query limitRaw "20") ->
  uint_param 0 MaxInt64 y -> uint_param 1 12 m -> uint_param 1 31 d ->
  listEventsInline pageRaw limitRaw y m d db
  = getAllEventsHandler pageRaw limitRaw y m d db.
Proof.
  intros Hp Hl Hy Hm Hd. unfold listEventsInline, getAllEventsHandler.
  rewrite (atoi_or_unchecked 1 _ ltac:(lia) Hp).
  rewrite (atoi_or_unchecked 20 _ ltac:(lia) Hl).
  rewrite (checked_year_uint y Hy).
  rewrite (checked_component_uint 1 12 month_cond m ltac:(lia)
             ltac:(unfold MaxInt64; lia) Hm).
  rewrite (checked_component_uint 1 31 day_cond d ltac:(lia)
             ltac:(unfold MaxInt64; lia) Hd).
  pose proof (limit_unchecked_range limitRaw) as Hr.
  unfold limit_unchecked in Hr.
  destruct (Z.ltb_spec 0 (atoi_unchecked_or 20 (Query limitRaw "20")));
    [done|lia].
Qed.

Lemma X12_listing_versions_agree_witness :
  no_range_error (Query "2" "1") /\ no_range_error (Query "1" "20") /\
  uint_param 0 MaxInt64 "2021" /\ uint_param 1 12 "9" /\
  uint_param 1 31 EmptyString /\
  listEventsInline "2" "1" "2021" "9" EmptyString db_2021
  = getAllEventsHandler "2" "1" "2021" "9" EmptyString db_2021.
Proof.
  assert (no_range_error (Query "2" "1")) as Hp by (vm_compute; discriminate).
  assert (no_range_error (Query "1" "20")) as Hl by (vm_compute; discriminate).
  assert (uint_param 0 MaxInt64 "2021") as Hy
    by (right; split; [reflexivity|vm_compute; split; discriminate]).
  assert (uint_param 1 12 "9") as Hm
    by (right; split; [reflexivity|vm_compute; split; discriminate]).
  assert (uint_param 1 31 EmptyString) as Hd by (by left).
  split; [exact Hp|]. split; [exact Hl|]. split; [exact Hy|].
  split; [exact Hm|]. split; [exact Hd|].
  exact (X12_listing_versions_agree insertion_order "2" "1" "2021" "9"
           EmptyString db_2021 Hp Hl Hy Hm Hd).
Defined.

(** ** The sanitized query and the lexer *)

Lemma lex_step_quote st :
  outside_string st = true ->
  exists ts acc, lex_step st dquote = Some (ts, InString acc).
Proof.
  destruct st as [|w|acc|acc]; intros H; try discriminate H; simpl.
  - unfold lex_idle. simpl. eauto.
  - unfold lex_idle. simpl. eauto.
  - eauto.
Qed.

Lemma lex_idle_other c :
  c <> dquote ->
  match lex_idle c with
  | Some (_, st') => is_lexable c = true /\ outside_string st' = true
  | None => is_lexable c = false
  end.
Proof.
  intros Hc. unfold lex_idle, is_lexable.
  rewrite (bool_decide_eq_false_2 (c = dquote)) by done.
  destruct (is_fts5_space c); [done|].
  destruct (is_fts5_special c); [done|].
  by destruct (is_bareword_byte c).
Qed.

Lemma lex_step_other st c :
  outside_string st = true -> c <> dquote ->
  match lex_step st c with
  | Some (_, st') => is_lexable c = true /\ outside_string st' = true
  | None => is_lexable c = false
  end.
Proof.
  intros Hst Hc. pose proof (lex_idle_other c Hc) as Hidle.
  destruct st as [|w|acc|acc]; try discriminate Hst; simpl.
  - done.
  - destruct (is_bareword_byte c) eqn:Hb.
    + split; [|done]. unfold is_lexable. rewrite Hb. by rewrite !orb_true_r.
    + by destruct (lex_idle c) as [[ts st']|].
  - rewrite bool_decide_eq_false_2 by done.
    by destruct (lex_idle c) as [[ts st']|].
Qed.

Lemma lex_sanitized q : forall st,
  outside_string st = true ->
  is_Some (lex_from st (strings.replace_from quote_str (quote_str +:+ quote_str)
                                             0 q))
  <-> all_bytes is_lexable q = true.
Proof.
  induction q as [|c q IH]; intros st Hst.
  - simpl. split; [done|]. intros _. destruct st; try discriminate Hst; eauto.
  - rewrite replace_quote_unfold. case_bool_decide as Hc.
    + subst c. destruct (lex_step_quote st Hst) as (ts & acc & E).
      cbn [lex_from]. rewrite E. cbn [lex_step].
      rewrite bool_decide_eq_true_2 by done.
      specialize (IH (InStringQuote acc) eq_refl).
      cbn [all_bytes]. unfold is_lexable at 1.
      rewrite bool_decide_eq_true_2 by done. rewrite orb_true_r. simpl.
      rewrite <- IH.
      destruct (lex_from (InStringQuote acc) _); simpl; split;
        intros [x Hx]; try discriminate Hx; eauto.
    + pose proof (lex_step_other st c Hst ltac:(congruence)) as Hstep.
      cbn [lex_from all_bytes].
      destruct (lex_step st c) as [[ts st']|].
      * destruct Hstep as [-> Hst']. simpl. rewrite <- (IH st' Hst').
        destruct (lex_from st' _); simpl; split;
          intros [x Hx]; try discriminate Hx; eauto.
      * rewrite Hstep. simpl. split; [intros [x Hx]|]; discriminate.
Qed.

(** Doubling the quotation marks and cutting at the first NUL byte can be
    done in either order. *)
Lemma c_string_sanitized q :
  c_string (sanitizedQuery q) = sanitizedQuery (c_string q).
Proof.
  unfold sanitizedQuery, strings.ReplaceAll.
  induction q as [|c q IH]; [done|].
  rewrite replace_quote_unfold. cbn [c_string].
  case_bool_decide as Hc.
  - subst c. cbn [c_string].
    change (byte_of dquote =? 0) with false. cbv iota.
    rewrite replace_quote_unfold, bool_decide_eq_true_2 by done.
    by rewrite IH.
  - cbn [c_string]. destruct (byte_of c =? 0); [done|].
    rewrite replace_quote_unfold, bool_decide_eq_false_2 by done.
    by rewrite IH.
Qed.

(** X13 — what doubling the quotation marks achieves.  FTS5 reads the
    argument of MATCH up to its first NUL byte.  What it reads of the query
    [ftsSearchHandler] hands to it passes its lexer exactly when every byte
    of the request's query, up to the first NUL byte, is a blank, a
    quotation mark, a special byte or a byte of a bareword: whatever
    quotation marks the request holds, balanced or not, no string is left
    open — whereas a lone quotation mark, handed on as it is, would be the
    error of an unterminated string. *)
Theorem X13_sanitized_query_leaves_no_string_open (query : string) :
  (is_Some (fts5_reads (sanitizedQuery query))
   <-> all_bytes is_lexable (c_string query) = true) /\
  fts5_reads quote_str = None /\
  fts5_reads (sanitizedQuery quote_str) = Some [TString EmptyString].
Proof.
  split; [|split; reflexivity].
  unfold fts5_reads. rewrite c_string_sanitized.
  unfold fts5_tokens, sanitizedQuery, strings.ReplaceAll.
  by apply lex_sanitized.
Qed.

(** A query with a NUL byte: what follows the byte is not read, so the
    question mark after it is no syntax error. *)
Example query_is_cut_at_NUL :
  fts5_reads (sanitizedQuery ("a" +:+ byte_str 0 +:+ "?"))
    = Some [TBareword "a"] /\
  fts5_reads (sanitizedQuery "a?") = None.
Proof. vm_compute. auto. Qed.

(** ** Tags written as a JSON array of strings *)


Lemma quoted_length t : String.length (quoted t) = S (S (String.length t)).
Proof.
  unfold quoted, quote_str. rewrite !append_length. simpl. lia.
Qed.


(** ** Tags and the tag filter *)









(** ** Ids a request can address *)


(** X16 — the id of a request is read as a 32-bit number, the id of a
    record is 64 bits wide.  A record stored under an id above 2^32 - 1 (a
    create request may name such an id) is out of reach of the requests
    that address a record by id: whatever the id text, get does not return
    it, and delete and update leave it as it is. *)
Theorem X16_ids_above_32_bits_are_out_of_reach
    (db : DB) (k : N) (e : Event) (id : string) :
  rows_keyed (events db) ->
  events db !! k = Some e ->
  2 ^ 32 <= Z.of_N k ->
  getEventHandler id db <> JSONData StatusOK e /\
  events (deleteEventHandler id db).2 !! k = Some e /\
  (forall now body,
      events (updateEventHandler now id body db).2 !! k = Some e).
Proof.
  intros Hkeyed Hk Hbig.
  destruct (strconv.ParseUint id 32) as [n [err|]] eqn:E.
  { destruct (handlers_reject_id id n err db E) as (Hget & Hdel & Hupd).
    rewrite Hdel. split_and!; [|done|].
    - intros Heq. rewrite Heq in Hget. discriminate.
    - intros now body. by rewrite Hupd. }
  apply denotes_parsed in E. pose proof (denotes_bound _ _ E) as Hle.
  assert (Z.to_N n <> k) as Hne by lia.
  split_and!.
  - rewrite (getEventHandler_denotes id _ db E).
    destruct (events db !! Z.to_N n) as [e'|] eqn:Hrow; [|done].
    intros [= ->]. pose proof (Hkeyed _ _ Hrow). pose proof (Hkeyed _ _ Hk).
    congruence.
  - rewrite (deleteEventHandler_denotes id _ db E).
    destruct (events db !! Z.to_N n) as [e'|] eqn:Hrow; [|done].
    simpl. by rewrite lookup_delete_ne.
  - intros now [u|].
    2:{ unfold updateEventHandler. unfold denotes in E.
        rewrite E, N2Z.id. unfold First.
        by destruct (events db !! Z.to_N n). }
    rewrite (updateEventHandler_denotes now id _ u db E).
    destruct (events db !! Z.to_N n) as [e'|] eqn:Hrow; [|done].
    destruct (Updates now e' u db) as [|[ev db']] eqn:Hu; [done|].
    cbn [snd]. apply Updates_inr in Hu as (_ & _ & _ & Hu).
    pose proof (Hkeyed _ _ Hrow) as Hid. rewrite Hid, Hrow in Hu.
    destruct Hu as (_ & Hfree & -> & _).
    rewrite lookup_insert_ne; [by rewrite lookup_delete_ne|].
    destruct Hfree as [Heq|Hnone]; congruence.
Qed.

Lemma X16_ids_above_32_bits_are_out_of_reach_witness :
  exists row db',
    createEventHandler now0 (Some far_event) empty_db
      = (JSONData StatusCreated row, db') /\
    ID row = 4294967296%N /\
    getEventHandler "4294967296" db'
      = JSONError StatusBadRequest "Invalid Event ID format" /\
    events (deleteEventHandler "4294967296" db').2 !! 4294967296%N = Some row.
Proof.
  eexists _, _. split; [reflexivity|]. split; [reflexivity|].
  split; [reflexivity|].
  refine (proj1 (proj2 (X16_ids_above_32_bits_are_out_of_reach _ 4294967296 _
                          "4294967296" _ _ _))).
  - apply (serve_all_synced [CreateEvent now0 far_event] empty_db).
    exact empty_db_synced.
  - reflexivity.
  - vm_compute. discriminate.
Defined.

(** ** The tag filter on arrays of strings *)
















(** ** The number of records *)

Lemma table_total_size db : table_total db = Z.of_nat (size (events db)).
Proof.
  unfold table_total, getAllEventsHandler, select_where, rows. simpl.
  assert (forall l : list Event, List.filter (fun _ => true) l = l) as Hf.
  { induction l as [|x l IH]; simpl; [done|]. by rewrite IH. }
  rewrite Hf, length_fmap, length_map_to_list. done.
Qed.

Lemma Create_size now e db row db' :
  Create now e db = inr (row, db') ->
  size (events db') = S (size (events db)).
Proof.
  intros H. apply Create_inr in H as (_ & Hnone & -> & _).
  by apply map_size_insert_None.
Qed.

Lemma insert_all_size now es : forall db stored db',
  insert_all now es db = inr (stored, db') ->
  size (events db') = (length es + size (events db))%nat.
Proof.
  induction es as [|e es IH]; intros db stored db' H; simpl in H.
  - by injection H as <- <-.
  - destruct (Create now e db) as [|[row db1]] eqn:E; [discriminate|].
    destruct (insert_all now es db1) as [|[rs db2]] eqn:E2; [discriminate|].
    injection H as <- <-. rewrite (IH _ _ _ E2), (Create_size _ _ _ _ _ E).
    simpl. lia.
Qed.

(** X19 — the number of records.  The total that a listing request without
    filters reports changes with every write request that succeeds by
    exactly what the request says: a create adds one record, a delete takes
    one away, an update leaves the number as it is, and a batch adds as
    many records as it holds. *)
Theorem X19_writes_change_the_total_as_requested
    (L : Limits) (r : Request) (db : DB) :
  is_error (serve r db).1 = false ->
  table_total (serve r db).2 = table_total db + records_added r.
Proof.
  rewrite !table_total_size.
  destruct r as [now body|now id body|id|now body]; cbn [serve records_added].
  - unfold createEventHandler.
    destruct (str_eqb (Title body) EmptyString || IsZero (Date body));
      [discriminate|].
    destruct (Create now body db) as [|[row db']] eqn:E; [discriminate|].
    intros _. simpl. rewrite (Create_size _ _ _ _ _ E). lia.
  - unfold updateEventHandler.
    destruct (strconv.ParseUint id 32) as [n [err|]]; [discriminate|].
    unfold First.
    destruct (events db !! Z.to_N n) as [event|] eqn:Hrow; [|discriminate].
    destruct (Updates now event body db) as [|[ev db']] eqn:Hu;
      [discriminate|].
    intros _. cbn [snd]. apply Updates_inr in Hu as (_ & _ & _ & Hu).
    destruct (events db !! ID event) as [old|] eqn:Hold; [|subst; lia].
    destruct Hu as (_ & Hfree & -> & _).
    assert (size (events db) <> 0%nat) as Hne.
    { intros H0. apply map_size_empty_inv in H0. rewrite H0 in Hold.
      by rewrite lookup_empty in Hold. }
    destruct Hfree as [Heq|Hnone].
    + rewrite Heq, insert_delete_eq, map_size_insert_Some by eauto. lia.
    + rewrite map_size_insert_None.
      * rewrite map_size_delete_Some by eauto. lia.
      * rewrite lookup_delete_ne; [done|]. congruence.
  - unfold deleteEventHandler.
    destruct (strconv.ParseUint id 32) as [n [err|]]; [discriminate|].
    unfold Delete.
    destruct (events db !! Z.to_N n) as [old|] eqn:Hrow; simpl;
      [|discriminate].
    intros _. rewrite map_size_delete_Some by eauto.
    assert (size (events db) <> 0%nat) as Hne.
    { intros H0. apply map_size_empty_inv in H0. rewrite H0 in Hrow.
      by rewrite lookup_empty in Hrow. }
    lia.
  - unfold batchCreateEventsHandler.
    destruct (Z.of_nat (length body) =? 0); [discriminate|].
    destruct (CreateSlice now body db) as [|[stored db']] eqn:E;
      [discriminate|].
    apply CreateSlice_inr in E as [_ E].
    intros _. simpl. rewrite (insert_all_size _ _ _ _ _ E). lia.
Qed.

Lemma X19_writes_change_the_total_as_requested_witness :
  is_error (serve (DeleteEvent "2") db_2021).1 = false /\
  table_total db_2021 = 3 /\
  table_total (serve (DeleteEvent "2") db_2021).2 = 2.
Proof.
  split; [reflexivity|]. split; [reflexivity|].
  rewrite (X19_writes_change_the_total_as_requested default_limits
             (DeleteEvent "2") db_2021 eq_refl).
  reflexivity.
Defined.
